(** * Lane-detection tuner (assignment-2/task2/main.py): shallow embedding

    The development follows the source file top to bottom:
    - [PyNum]: Python number semantics used by the script
      ([int / int] true division, [int * float], [min], [int(float)]),
      with binary64 rounding written out on integers;
    - the NumPy array store and the OpenCV interface the script calls;
    - [LaneDetector.__init__] and [LaneDetector.detect_lanes];
    - [InteractiveParameterTuner]: sliders, presets, the info text, the
      image on the canvas;
    - [main]. *)

From Stdlib Require Import ZArith Lia Reals Lra Psatz Floats.SpecFloat.
From stdpp Require Import base list strings sorting pretty.

Local Open Scope Z_scope.

(* ===================================================================== *)
(** * Python numbers                                                      *)
(* ===================================================================== *)

Module PyNum.

(** A Python [float] is an IEEE-754 binary64 number.  We keep a float as
    a signed integer mantissa and a binary exponent; its value is
    [mant * 2 ^ expo].  The roundings below are to 53 bits with an
    unbounded exponent; [finite] tells whether the result is a binary64
    number at all (a magnitude below [2^1024]), and the operations on
    Python ints that can leave that range raise [OverflowError] there
    (see [py_truediv] below).  The subnormal range (below [2^-1022]) is
    outside the model. *)
Record float := mkfloat { mant : Z; expo : Z }.

(** [(n / d) * 2 ^ k] as a fraction of integers. *)
Definition scale2 (n d k : Z) : Z * Z :=
  if 0 <=? k then (n * 2 ^ k, d) else (n, d * 2 ^ (- k)).

(** Nearest integer to [n / d] ([0 < d]), ties to even. *)
Definition rne_div (n d : Z) : Z :=
  let q := n / d in
  let r := n mod d in
  if 2 * r <? d then q
  else if d <? 2 * r then q + 1
  else if Z.even q then q else q + 1.

(** [2 ^ e <= n / d], for positive [n] and [d]. *)
Definition ge_pow2 (n d e : Z) : bool :=
  let '(n', d') := scale2 n d (- e) in d' <=? n'.

(** The binary exponent of [n / d]: the [e] with
    [2 ^ e <= n / d < 2 ^ (e + 1)], for positive [n] and [d]. *)
Definition ilog2_frac (n d : Z) : Z :=
  let e0 := Z.log2 n - Z.log2 d in
  if ge_pow2 n d e0 then e0 else e0 - 1.

(** Round the positive fraction [n / d] to 53 significant bits. *)
Definition round53_pos (n d : Z) : float :=
  let e := ilog2_frac n d in
  let '(n', d') := scale2 n d (52 - e) in
  mkfloat (rne_div n' d') (e - 52).

Definition fneg (x : float) : float := mkfloat (- mant x) (expo x).

(** Correctly rounded value of the fraction [n / d], for [0 < d]. *)
Definition round53 (n d : Z) : float :=
  if n =? 0 then mkfloat 0 0
  else if n <? 0 then fneg (round53_pos (- n) d)
  else round53_pos n d.

(** Round the dyadic number [m * 2 ^ e]. *)
Definition round_dyadic (m e : Z) : float :=
  let '(n, d) := scale2 m 1 e in round53 n d.

(** [float(n)] for a Python int. *)
Definition float_of_int (n : Z) : float := round53 n 1.

(** [a / b] on Python ints, for [b <> 0]: the quotient of the two exact
    integers, correctly rounded.  (The caller raises [ZeroDivisionError]
    for [b = 0] and [OverflowError] for a quotient that is not [finite],
    see [py_truediv] below.) *)
Definition truediv (a b : Z) : float :=
  if 0 <? b then round53 a b else round53 (- a) (- b).

(** [x * y] on floats. *)
Definition fmul (x y : float) : float :=
  round_dyadic (mant x * mant y) (expo x + expo y).

(** [n * x] for an int [n] and a float [x]: the int is converted first. *)
Definition mul_int_float (n : Z) (x : float) : float :=
  fmul (float_of_int n) x.

(** [x < y] on floats. *)
Definition flt (x y : float) : bool :=
  let e := Z.min (expo x) (expo y) in
  mant x * 2 ^ (expo x - e) <? mant y * 2 ^ (expo y - e).

(** The builtin [min(a, b)]: the first argument unless the second is
    strictly smaller. *)
Definition py_min (a b : float) : float := if flt b a then b else a.

(** [int(x)]: truncation toward zero. *)
Definition py_int (x : float) : Z :=
  if 0 <=? expo x then mant x * 2 ^ expo x
  else Z.quot (mant x) (2 ^ (- expo x)).

(** A magnitude below [2^1024].  As [2^1024] is an integer, the integer
    part decides. *)
Definition finite (x : float) : bool := Z.abs (py_int x) <? 2 ^ 1024.

(** The real number a float stands for. *)
Definition F2R (x : float) : R := (IZR (mant x) * powerRZ 2 (expo x))%R.

(** The same float in the representation of the standard library's
    reference implementation of IEEE arithmetic. *)
Definition to_spec (x : float) : spec_float :=
  binary_normalize 53 1024 (mant x) (expo x) false.

Definition spec_of_int (n : Z) : spec_float :=
  binary_normalize 53 1024 n 0 false.

Definition spec_eqb (x y : spec_float) : bool :=
  match SFcompare x y with Some Eq => true | _ => false end.

(** [w * min(1280 / w, 720 / h)] and [h * min(1280 / w, 720 / h)]
    computed by the reference implementation. *)
Definition spec_scaled (w h : Z) : spec_float * spec_float :=
  let a := SFdiv 53 1024 (spec_of_int 1280) (spec_of_int w) in
  let b := SFdiv 53 1024 (spec_of_int 720) (spec_of_int h) in
  let s := if SFltb b a then b else a in
  (SFmul 53 1024 (spec_of_int w) s, SFmul 53 1024 (spec_of_int h) s).

(** The same two products computed by the definitions above. *)
Definition model_scaled (w h : Z) : spec_float * spec_float :=
  let s := py_min (truediv 1280 w) (truediv 720 h) in
  (to_spec (mul_int_float w s), to_spec (mul_int_float h s)).

Definition agree (w h : Z) : bool :=
  spec_eqb (fst (spec_scaled w h)) (fst (model_scaled w h))
  && spec_eqb (snd (spec_scaled w h)) (snd (model_scaled w h)).

Fixpoint upto (n : nat) (a : Z) : list Z :=
  match n with
  | O => nil
  | S k => cons a (upto k (a + 1))
  end.

End PyNum.

Import PyNum.

(* ===================================================================== *)
(** * NumPy arrays, the object store, Python exceptions                   *)
(* ===================================================================== *)

(** A pixel is the list of its channel values (three for a BGR image, one
    for a grayscale image, an edge map or a mask); an array is the list of
    its rows, top row first. *)
Abbreviation Pixel := (list Z) (only parsing).
Abbreviation ndarray := (list (list (list Z))) (only parsing).
Abbreviation point := (Z * Z)%type (only parsing).
Abbreviation LineSegment := (Z * Z * Z * Z)%type (only parsing).

(** [a.shape[:2]]: (height, width). *)
Definition np_shape (a : ndarray) : Z * Z :=
  (Z.of_nat (length a), Z.of_nat (length (hd [] a))).

(** [np.zeros_like(a)]. *)
Definition np_zeros_like (a : ndarray) : ndarray :=
  map (map (map (fun _ : Z => 0))) a.

(** What every OpenCV drawing call does to the array it is given: the
    pixels of the rasterised shape that fall inside the array take the
    colour, every other pixel keeps its value.  [region x y] tells whether
    column [x] of row [y] belongs to the shape. *)
Definition paint (region : Z -> Z -> bool) (color : Pixel) (a : ndarray)
  : ndarray :=
  imap (fun y row =>
          imap (fun x p => if region (Z.of_nat x) (Z.of_nat y)
                           then color else p) row) a.

(** [cv2.bitwise_and(a, b)]: channel by channel. *)
Definition bitwise_and (a b : ndarray) : ndarray :=
  zip_with (zip_with (zip_with Z.land)) a b.

(** Arrays are Python objects: names and attributes hold references into a
    store, and the drawing calls update the referenced array in place. *)
Abbreviation loc := nat (only parsing).
Abbreviation heap := (list ndarray) (only parsing).

Inductive exn :=
| ValueError (msg : string)
| ZeroDivisionError
| OverflowError
| cv2_error
| InvalidRef.          (* a reference to no object: never raised by Python *)

Inductive result (A : Type) :=
| Ok (a : A)
| Raise (e : exn).
Arguments Ok {A} a.
Arguments Raise {A} e.

Definition M (A : Type) : Type := heap -> result (A * heap).

#[global] Instance M_ret : MRet M := fun A a h => Ok (a, h).
#[global] Instance M_bind : MBind M := fun A B f m h =>
  match m h with
  | Ok (a, h') => f a h'
  | Raise e => Raise e
  end.

#[global] Instance M_fmap : FMap M := fun A B f m h =>
  match m h with
  | Ok (a, h') => Ok (f a, h')
  | Raise e => Raise e
  end.

Definition raise {A} (e : exn) : M A := fun _ => Raise e.

(** A new array object. *)
Definition alloc (a : ndarray) : M loc := fun h => Ok (length h, h ++ [a]).

Definition load (l : loc) : M ndarray := fun h =>
  match h !! l with
  | Some a => Ok (a, h)
  | None => Raise InvalidRef
  end.

(** In-place update of the array behind a reference. *)
Definition store (l : loc) (a : ndarray) : M unit := fun h =>
  match h !! l with
  | Some _ => Ok (tt, <[l := a]> h)
  | None => Raise InvalidRef
  end.

(** [for x in xs: body(x)]. *)
Fixpoint for_each {A} (xs : list A) (body : A -> M unit) : M unit :=
  match xs with
  | [] => mret tt
  | x :: xs' => body x ;; for_each xs' body
  end.

(** [a / b] on ints as an expression that may raise: "division by zero",
    and "integer division result too large for a float". *)
Definition py_truediv (a b : Z) : M float :=
  if b =? 0 then raise ZeroDivisionError
  else if finite (truediv a b) then mret (truediv a b)
  else raise OverflowError.

(** The Python ints that fit a C [double], respectively a 32-bit integer
    (a C [int], a NumPy [int32]). *)
Definition fits_double (n : Z) : bool := finite (float_of_int n).
Definition fits_int (n : Z) : bool := (- 2 ^ 31 <=? n) && (n <? 2 ^ 31).

(** [np.array(pts, dtype=np.int32)] on a list of pairs of Python ints:
    NumPy (from version 2 on) raises [OverflowError] for a value out of
    the bounds of [int32]. *)
Definition np_array_int32 (pts : list point) : M (list point) :=
  if forallb (fun '(x, y) => fits_int x && fits_int y) pts
  then mret pts else raise OverflowError.

(** [np.pi], and [np.pi / 180] (float by int). *)
Definition np_pi : float := mkfloat 7074237752028440 (-51).
Definition fdiv_int (x : float) (n : Z) : float :=
  let '(a, b) := scale2 (mant x) n (expo x) in
  if 0 <? b then round53 a b else round53 (- a) (- b).

(* ===================================================================== *)
(** * The OpenCV interface                                                *)
(* ===================================================================== *)

(** The script calls these library functions and defines none of them.
    They are taken as an interface: the image algorithms as functions of
    their arguments, the drawing calls through the set of pixels they
    rasterise.  [imread] answers [None] for a file it cannot decode, as
    the binding does; [resize] and [HoughLinesP] likewise answer [None]
    where the binding raises [cv2.error], respectively returns [None].
    [HoughLinesP] picks its points with a generator that OpenCV seeds with
    the same constant on every call, so it is a function of its
    arguments. *)
Class cv2 := {
  imread : string -> option ndarray;
  resize : ndarray -> Z * Z -> option ndarray;
  cvtColor_BGR2GRAY : ndarray -> ndarray;
  GaussianBlur : ndarray -> Z * Z -> Z -> ndarray;
  Canny : ndarray -> Z -> Z -> ndarray;
  HoughLinesP : ndarray -> Z -> float -> Z -> Z -> Z
                -> option (list LineSegment);
  line_pixels : point -> point -> Z -> Z -> Z -> bool;
  polylines_pixels : list (list point) -> bool -> Z -> Z -> Z -> bool;
  fillPoly_pixels : list (list point) -> Z -> Z -> bool
}.

(** What the OpenCV documentation promises and the claims below rely on:
    the filters keep the size of their input; [resize] to a size
    [(width, height)] with both positive returns an array of exactly that
    size, and rejects a size with a non-positive side. *)
Class cv2_contract (cv : cv2) : Prop := {
  cvtColor_shape : forall a, np_shape (cvtColor_BGR2GRAY a) = np_shape a;
  GaussianBlur_shape : forall a k s,
      np_shape (GaussianBlur a k s) = np_shape a;
  Canny_shape : forall a lo hi, np_shape (Canny a lo hi) = np_shape a;
  resize_shape : forall a w h,
      a <> [] -> 0 < w -> 0 < h ->
      exists b, resize a (w, h) = Some b /\ np_shape b = (h, w);
  resize_empty : forall a w h, w <= 0 \/ h <= 0 -> resize a (w, h) = None
}.

(* ===================================================================== *)
(** * class LaneDetector                                                  *)
(* ===================================================================== *)

Record LaneDetector := {
  original_image : loc;
  image_path : string
}.

(** The locals of [detect_lanes] that outlive the call or that the
    statements below speak about. *)
Record frame := {
  f_gray : loc;
  f_blurred : loc;
  f_edges : loc;
  f_roi_mask : loc;
  f_roi_top_pixel : Z;
  f_vertices : list point;
  f_edges_roi : loc;
  f_lines : option (list LineSegment);
  f_result_image : loc
}.

(** The values of the locals [scale], [new_width] and [new_height] of
    [__init__] (lines 27-29) for a [width] by [height] image. *)
Definition scale (width height : Z) : float :=
  py_min (truediv 1280 width) (truediv 720 height).
Definition new_width (width height : Z) : Z :=
  py_int (mul_int_float width (scale width height)).
Definition new_height (width height : Z) : Z :=
  py_int (mul_int_float height (scale width height)).

Section LaneDetector.
Context {cv : cv2}.

(** [LaneDetector.__init__(self, image_path)]. *)
Definition LaneDetector_init (path : string) : M LaneDetector :=
  match imread path with
  | None => raise (ValueError ("Could not load image: " +:+ path))
  | Some img =>
      orig ← alloc img;
      let '(height, width) := np_shape img in
      if (1280 <? width) || (720 <? height) then
        a ← py_truediv 1280 width;
        b ← py_truediv 720 height;
        let scale := py_min a b in
        let new_width := py_int (mul_int_float width scale) in
        let new_height := py_int (mul_int_float height scale) in
        match resize img (new_width, new_height) with
        | None => raise cv2_error
        | Some img' =>
            orig' ← alloc img';
            mret {| original_image := orig'; image_path := path |}
        end
      else mret {| original_image := orig; image_path := path |}
  end.

(** A Python int handed to a parameter of an OpenCV function is first
    converted to the C type of the parameter; when the value does not fit,
    no overload of the function accepts the call and the binding raises
    [cv2.error]. *)
Definition cv2_arg (fits : bool) : M unit :=
  if fits then mret tt else raise cv2_error.

(** The OpenCV and NumPy calls of [detect_lanes], on references.  The two
    thresholds of [Canny] and the [minLineLength] and [maxLineGap] of
    [HoughLinesP] are C doubles, the [threshold] of [HoughLinesP] is a C
    int. *)
Definition cv2_cvtColor (src : loc) : M loc :=
  a ← load src; alloc (cvtColor_BGR2GRAY a).
Definition cv2_GaussianBlur (src : loc) (ksize : Z * Z) (sigma : Z) : M loc :=
  a ← load src; alloc (GaussianBlur a ksize sigma).
Definition cv2_Canny (src : loc) (lo hi : Z) : M loc :=
  cv2_arg (fits_double lo);;
  cv2_arg (fits_double hi);;
  a ← load src; alloc (Canny a lo hi).
Definition shape_of (src : loc) : M (Z * Z) :=
  a ← load src; mret (np_shape a).
Definition zeros_like (src : loc) : M loc :=
  a ← load src; alloc (np_zeros_like a).
Definition copy (src : loc) : M loc :=
  a ← load src; alloc a.
Definition cv2_fillPoly (img : loc) (pts : list (list point)) (color : Pixel)
  : M unit :=
  a ← load img; store img (paint (fillPoly_pixels pts) color a).
Definition cv2_bitwise_and (src1 src2 : loc) : M loc :=
  a ← load src1; b ← load src2; alloc (bitwise_and a b).
Definition cv2_HoughLinesP (img : loc) (rho : Z) (theta : float)
    (threshold minLineLength maxLineGap : Z)
  : M (option (list LineSegment)) :=
  cv2_arg (fits_int threshold);;
  cv2_arg (fits_double minLineLength);;
  cv2_arg (fits_double maxLineGap);;
  a ← load img;
  mret (HoughLinesP a rho theta threshold minLineLength maxLineGap).
Definition cv2_line (img : loc) (pt1 pt2 : point) (color : Pixel)
    (thickness : Z) : M unit :=
  a ← load img; store img (paint (line_pixels pt1 pt2 thickness) color a).
Definition cv2_polylines (img : loc) (pts : list (list point))
    (isClosed : bool) (color : Pixel) (thickness : Z) : M unit :=
  a ← load img;
  store img (paint (polylines_pixels pts isClosed thickness) color a).

(** The body of [detect_lanes] (lines 51-95), returning its locals. *)
Definition detect_lanes_body (self : LaneDetector)
    (canny_low canny_high hough_threshold hough_min_length hough_max_gap
     roi_top roi_bottom : Z) : M frame :=
  gray ← cv2_cvtColor (original_image self);
  blurred ← cv2_GaussianBlur gray (5, 5) 0;
  edges ← cv2_Canny blurred canny_low canny_high;
  '(height, width) ← shape_of edges;
  roi_mask ← zeros_like edges;
  roi_top_pixel ← py_int <$> py_truediv (height * roi_top) 100;
  roi_bottom_pixel ← py_int <$> py_truediv (height * roi_bottom) 100;
  vertices ← np_array_int32
    [ (0, height); (0, roi_top_pixel);
      (width, roi_top_pixel); (width, height) ];
  cv2_fillPoly roi_mask [vertices] [255];;
  edges_roi ← cv2_bitwise_and edges roi_mask;
  lines ← cv2_HoughLinesP edges_roi 1 (fdiv_int np_pi 180)
            hough_threshold hough_min_length hough_max_gap;
  result_image ← copy (original_image self);
  (match lines with
   | Some ls =>
       for_each ls (fun '(x1, y1, x2, y2) =>
         cv2_line result_image (x1, y1) (x2, y2) [0; 255; 0] 2)
   | None => (mret tt : M unit)
   end);;
  cv2_polylines result_image [vertices] true [255; 0; 0] 2;;
  mret {| f_gray := gray; f_blurred := blurred; f_edges := edges;
          f_roi_mask := roi_mask; f_roi_top_pixel := roi_top_pixel;
          f_vertices := vertices; f_edges_roi := edges_roi;
          f_lines := lines; f_result_image := result_image |}.

(** [LaneDetector.detect_lanes]: [return result_image, edges, lines]. *)
Definition detect_lanes (self : LaneDetector)
    (canny_low canny_high hough_threshold hough_min_length hough_max_gap
     roi_top roi_bottom : Z)
  : M (loc * loc * option (list LineSegment)) :=
  fr ← detect_lanes_body self canny_low canny_high hough_threshold
         hough_min_length hough_max_gap roi_top roi_bottom;
  mret (f_result_image fr, f_edges fr, f_lines fr).

(** [LaneDetector.get_original_image]. *)
Definition get_original_image (self : LaneDetector) : loc :=
  original_image self.

End LaneDetector.

(* ===================================================================== *)
(** * class InteractiveParameterTuner                                     *)
(* ===================================================================== *)

(** A Tk [Scale] widget: its range and current value.  [set] clamps the
    value into the range, as Tk does. *)
Record Scale := { from_ : Z; to : Z; value : Z }.

Definition new_Scale (lo hi : Z) : Scale :=
  {| from_ := lo; to := hi; value := lo |}.
Definition Scale_set (v : Z) (s : Scale) : Scale :=
  {| from_ := from_ s; to := to s;
     value := Z.max (from_ s) (Z.min (to s) v) |}.
Definition Scale_get (s : Scale) : Z := value s.

(** The text of the info label, line by line.  [np.sqrt] and [np.mean]
    compute in binary64; the average is kept as the real number they
    approximate, and its rendering to one decimal is left to the label. *)
Inductive info_line :=
| Lines_detected (n : nat)
| Avg_line_length (v : R).

(** NumPy [int32] scalars: the coordinates of a detected line. *)
Definition wrap32 (z : Z) : Z := (z + 2 ^ 31) mod 2 ^ 32 - 2 ^ 31.

(** [(x2-x1)**2 + (y2-y1)**2] on [int32] scalars. *)
Definition sq_length (l : LineSegment) : Z :=
  let '(x1, y1, x2, y2) := l in
  wrap32 (wrap32 (wrap32 (x2 - x1) ^ 2) + wrap32 (wrap32 (y2 - y1) ^ 2)).

Definition np_sqrt (z : Z) : R := sqrt (IZR z).
Definition np_mean (xs : list R) : R :=
  (foldr Rplus 0 xs / INR (length xs))%R.

(** [cv2.cvtColor(image, cv2.COLOR_BGR2RGB)]: the first and the third
    channel change places, a fourth channel is dropped; OpenCV rejects an
    empty array and every other number of channels with [cv2.error]. *)
Definition bgr2rgb (p : Pixel) : option Pixel :=
  match p with
  | [b; g; r] => Some [r; g; b]
  | [b; g; r; _] => Some [r; g; b]
  | _ => None
  end.
Definition cvtColor_BGR2RGB (a : ndarray) : option ndarray :=
  match a with
  | [] | [] :: _ => None
  | _ => mapM (mapM bgr2rgb) a
  end.

(** The values of the locals [scale], [new_width] and [new_height] of
    [display_image] (lines 288-290) for a [w] by [h] image on a canvas of
    [canvas_width] by [canvas_height]. *)
Definition fit_scale (canvas_width canvas_height w h : Z) : float :=
  py_min (truediv canvas_width w) (truediv canvas_height h).
Definition fit_width (canvas_width canvas_height w h : Z) : Z :=
  py_int (mul_int_float w (fit_scale canvas_width canvas_height w h)).
Definition fit_height (canvas_width canvas_height w h : Z) : Z :=
  py_int (mul_int_float h (fit_scale canvas_width canvas_height w h)).

Section display.
Context {cv : cv2}.

(** [display_image(self, image)], for a canvas that reports the size
    [canvas_width] by [canvas_height]; the result is the array the photo
    on the canvas is made from. *)
Definition display_image (canvas_width canvas_height : Z) (image : loc)
  : M loc :=
  a ← load image;
  match cvtColor_BGR2RGB a with
  | None => raise cv2_error
  | Some rgb =>
      image_rgb ← alloc rgb;
      if (1 <? canvas_width) && (1 <? canvas_height) then
        let '(h, w) := np_shape rgb in
        x ← py_truediv canvas_width w;
        y ← py_truediv canvas_height h;
        let scale := py_min x y in
        let new_width := py_int (mul_int_float w scale) in
        let new_height := py_int (mul_int_float h scale) in
        match resize rgb (new_width, new_height) with
        | None => raise cv2_error
        | Some b => alloc b
        end
      else mret image_rgb
  end.

End display.

Module Tuner.

Record InteractiveParameterTuner := {
  detector : LaneDetector;
  canny_low : Scale;
  canny_high : Scale;
  hough_threshold : Scale;
  hough_min_length : Scale;
  hough_max_gap : Scale;
  roi_top : Scale;
  roi_bottom : Scale;
  (* the seven value labels under the sliders, in the same order *)
  value_labels : list Z;
  info_label : list info_line;
  (* what the canvas answers to winfo_width() and winfo_height() *)
  canvas_width : Z;
  canvas_height : Z;
  (* the image last put on the canvas *)
  canvas_image : option loc
}.

(** [create_widgets]: the sliders with their ranges and first values.  Tk
    has not laid out the canvas yet and reports 1 for its width and its
    height; from the first pass of the event loop on it reports the size
    the window manager gave it. *)
Definition create_widgets (det : LaneDetector) : InteractiveParameterTuner :=
  {| detector := det;
     canny_low := Scale_set 50 (new_Scale 1 200);
     canny_high := Scale_set 281 (new_Scale 50 500);
     hough_threshold := Scale_set 66 (new_Scale 10 200);
     hough_min_length := Scale_set 50 (new_Scale 10 300);
     hough_max_gap := Scale_set 10 (new_Scale 1 50);
     roi_top := Scale_set 38 (new_Scale 0 100);
     roi_bottom := Scale_set 100 (new_Scale 0 100);
     value_labels := [50; 281; 66; 50; 10; 38; 100];
     info_label := [];
     canvas_width := 1;
     canvas_height := 1;
     canvas_image := None |}.

(** The preset table of [create_widgets] (lines 212-216). *)
Definition preset_buttons : list (string * (Z * Z * Z * Z * Z)) :=
  [ ("Conservative", (30, 90, 80, 100, 5));
    ("Balanced", (50, 150, 50, 50, 10));
    ("Aggressive", (20, 60, 30, 30, 20)) ]%string.

(** [load_preset(self, clow, chigh, hthresh, hlen, hgap)]. *)
Definition load_preset (clow chigh hthresh hlen hgap : Z)
    (self : InteractiveParameterTuner) : InteractiveParameterTuner :=
  {| detector := detector self;
     canny_low := Scale_set clow (canny_low self);
     canny_high := Scale_set chigh (canny_high self);
     hough_threshold := Scale_set hthresh (hough_threshold self);
     hough_min_length := Scale_set hlen (hough_min_length self);
     hough_max_gap := Scale_set hgap (hough_max_gap self);
     roi_top := roi_top self;
     roi_bottom := roi_bottom self;
     value_labels := value_labels self;
     info_label := info_label self;
     canvas_width := canvas_width self;
     canvas_height := canvas_height self;
     canvas_image := canvas_image self |}.

(** The command of the preset button called [name]. *)
Definition press_preset (name : string) (self : InteractiveParameterTuner)
  : InteractiveParameterTuner :=
  match list_find (fun b => String.eqb (fst b) name) preset_buttons with
  | Some (_, (_, (clow, chigh, hthresh, hlen, hgap))) =>
      load_preset clow chigh hthresh hlen hgap self
  | None => self
  end.

(** The info text of [update_display] (lines 265-270). *)
Definition info_text (lines : option (list LineSegment)) : list info_line :=
  let num_lines := match lines with Some ls => length ls | None => O end in
  [Lines_detected num_lines] ++
  match lines with
  | Some ls =>
      if (0 <? length ls)%nat
      then [Avg_line_length (np_mean (map (fun l => np_sqrt (sq_length l)) ls))]
      else []
  | None => []
  end.

Section update.
Context {cv : cv2}.

(** [update_display(self)]: the labels, the pipeline, the info text, and
    last [display_image], which puts an RGB copy of the result, fitted to
    the canvas, on the canvas. *)
Definition update_display (self : InteractiveParameterTuner)
  : M InteractiveParameterTuner :=
  '(result, edges, lines) ←
     detect_lanes (detector self)
       (Scale_get (canny_low self)) (Scale_get (canny_high self))
       (Scale_get (hough_threshold self))
       (Scale_get (hough_min_length self))
       (Scale_get (hough_max_gap self))
       (Scale_get (roi_top self)) (Scale_get (roi_bottom self));
  photo ← display_image (canvas_width self) (canvas_height self) result;
  mret {| detector := detector self;
          canny_low := canny_low self;
          canny_high := canny_high self;
          hough_threshold := hough_threshold self;
          hough_min_length := hough_min_length self;
          hough_max_gap := hough_max_gap self;
          roi_top := roi_top self;
          roi_bottom := roi_bottom self;
          value_labels :=
            [ Scale_get (canny_low self); Scale_get (canny_high self);
              Scale_get (hough_threshold self);
              Scale_get (hough_min_length self);
              Scale_get (hough_max_gap self);
              Scale_get (roi_top self); Scale_get (roi_bottom self) ];
          info_label := info_text lines;
          canvas_width := canvas_width self;
          canvas_height := canvas_height self;
          canvas_image := Some photo |}.

(** [InteractiveParameterTuner.__init__(self, root, image_path)]. *)
Definition init (image_path : string) : M InteractiveParameterTuner :=
  det ← LaneDetector_init image_path;
  update_display (create_widgets det).

End update.
End Tuner.

(* ===================================================================== *)
(** * What the pipeline computes, as values                               *)
(* ===================================================================== *)

Section Values.
Context {cv : cv2}.

(** The edge map: grayscale, 5x5 blur with sigma 0, Canny. *)
Definition edge_map (img : ndarray) (canny_low canny_high : Z) : ndarray :=
  Canny (GaussianBlur (cvtColor_BGR2GRAY img) (5, 5) 0) canny_low canny_high.

(** The four vertices for an edge map of the given height and width. *)
Definition roi_vertices (height width roi_top : Z) : list point :=
  let roi_top_pixel := py_int (truediv (height * roi_top) 100) in
  [ (0, height); (0, roi_top_pixel); (width, roi_top_pixel); (width, height) ].

Definition roi_mask_of (edges : ndarray) (roi_top : Z) : ndarray :=
  let '(height, width) := np_shape edges in
  paint (fillPoly_pixels [roi_vertices height width roi_top]) [255]
        (np_zeros_like edges).

Definition lines_of (edges : ndarray) (hough_threshold hough_min_length
    hough_max_gap roi_top : Z) : option (list LineSegment) :=
  HoughLinesP (bitwise_and edges (roi_mask_of edges roi_top))
              1 (fdiv_int np_pi 180)
              hough_threshold hough_min_length hough_max_gap.

(** One green stroke of thickness 2. *)
Definition draw_line (a : ndarray) (l : LineSegment) : ndarray :=
  let '(x1, y1, x2, y2) := l in
  paint (line_pixels (x1, y1) (x2, y2) 2) [0; 255; 0] a.

(** The blue outline of thickness 2. *)
Definition draw_outline (vertices : list point) (a : ndarray) : ndarray :=
  paint (polylines_pixels [vertices] true 2) [255; 0; 0] a.

Definition annotated (img : ndarray) (vertices : list point)
    (lines : option (list LineSegment)) : ndarray :=
  draw_outline vertices (foldl draw_line img (default [] lines)).

End Values.

(** The pixel in column [x] of row [y], if the array has one. *)
Definition pixel (a : ndarray) (x y : nat) : option Pixel :=
  a !! y ≫= fun row => row !! x.

(** Two references read after a call: the arrays behind an output. *)
Definition deref (h : heap) (out : loc * loc * option (list LineSegment))
  : option ndarray * option ndarray * option (list LineSegment) :=
  let '(result_image, edges, lines) := out in
  (h !! result_image, h !! edges, lines).

(** The size the specification words ask for: each side of the exactly
    scaled image rounded to the nearest integer. *)
Definition nearest_width (width height : Z) : Z :=
  rne_div (Z.min (1280 * height) (720 * width)) height.
Definition nearest_height (width height : Z) : Z :=
  rne_div (Z.min (1280 * height) (720 * width)) width.

(** A line whose coordinates leave [int32] arithmetic exact. *)
Definition small_coords (l : LineSegment) : Prop :=
  let '(x1, y1, x2, y2) := l in
  0 <= x1 <= 32767 /\ 0 <= y1 <= 32767 /\
  0 <= x2 <= 32767 /\ 0 <= y2 <= 32767.

(** The Euclidean length of a segment. *)
Definition euclid (l : LineSegment) : R :=
  let '(x1, y1, x2, y2) := l in
  sqrt (IZR ((x2 - x1) ^ 2 + (y2 - y1) ^ 2)).

(** The slider ranges that [create_widgets] sets up. *)
Definition created_ranges (t : Tuner.InteractiveParameterTuner) : Prop :=
  (from_ (Tuner.canny_low t), to (Tuner.canny_low t)) = (1, 200) /\
  (from_ (Tuner.canny_high t), to (Tuner.canny_high t)) = (50, 500) /\
  (from_ (Tuner.hough_threshold t), to (Tuner.hough_threshold t)) = (10, 200) /\
  (from_ (Tuner.hough_min_length t), to (Tuner.hough_min_length t)) = (10, 300) /\
  (from_ (Tuner.hough_max_gap t), to (Tuner.hough_max_gap t)) = (1, 50).

(** The arguments that pass every conversion [detect_lanes] puts them
    through, for an edge map of [height] by [width]: the Canny thresholds
    and the two Hough lengths fit a C double, the Hough threshold fits a C
    int, the two divisions by 100 stay within the floats, and the
    coordinates of the four vertices fit [int32]. *)
Definition accepts (height width canny_low canny_high hough_threshold
    hough_min_length hough_max_gap roi_top roi_bottom : Z) : bool :=
  fits_double canny_low && fits_double canny_high
  && finite (truediv (height * roi_top) 100)
  && finite (truediv (height * roi_bottom) 100)
  && fits_int height && fits_int width
  && fits_int (py_int (truediv (height * roi_top) 100))
  && fits_int hough_threshold
  && fits_double hough_min_length && fits_double hough_max_gap.

(** A colour image as [cv2.imread] decodes it: three channels a pixel. *)
Definition three_channel (a : ndarray) : Prop :=
  Forall (Forall (fun p : Pixel => length p = 3%nat)) a.

(** A slider whose value lies within its range. *)
Definition in_range (s : Scale) : Prop := from_ s <= value s <= to s.

(** What holds of the widgets from [create_widgets] on: the seven ranges
    are the ones given there, and every slider is within its range. *)
Definition tuner_inv (t : Tuner.InteractiveParameterTuner) : Prop :=
  created_ranges t /\
  (from_ (Tuner.roi_top t), to (Tuner.roi_top t)) = (0, 100) /\
  (from_ (Tuner.roi_bottom t), to (Tuner.roi_bottom t)) = (0, 100) /\
  in_range (Tuner.canny_low t) /\ in_range (Tuner.canny_high t) /\
  in_range (Tuner.hough_threshold t) /\ in_range (Tuner.hough_min_length t) /\
  in_range (Tuner.hough_max_gap t) /\
  in_range (Tuner.roi_top t) /\ in_range (Tuner.roi_bottom t).

(** The seven slider values, in the order of [detect_lanes]'s arguments. *)
Definition slider_values (t : Tuner.InteractiveParameterTuner) : list Z :=
  [ Scale_get (Tuner.canny_low t); Scale_get (Tuner.canny_high t);
    Scale_get (Tuner.hough_threshold t); Scale_get (Tuner.hough_min_length t);
    Scale_get (Tuner.hough_max_gap t);
    Scale_get (Tuner.roi_top t); Scale_get (Tuner.roi_bottom t) ].

(* ===================================================================== *)
(** * main                                                                *)
(* ===================================================================== *)

(** The order of [sorted] on the paths of one directory: the paths as
    strings, character by character. *)
Definition path_le (p q : string) : Prop := Is_true (String.leb p q).

#[global] Instance path_le_dec (p q : string) : Decision (path_le p q) :=
  Is_true_dec (String.leb p q).

Definition sorted (l : list string) : list string := merge_sort path_le l.

(** [s * n] on a string. *)
Definition py_str_mul (s : string) (n : nat) : string :=
  foldr String.append EmptyString (replicate n s).

Section main.
Context {cv : cv2}.

(** [main()], given the name of the image directory and what the two
    [glob] calls list in it: the lines it prints, and the tuner it opens,
    if any. *)
Definition main (images_dir : string) (jpgs pngs : list string) (h : heap)
  : list string * result (option Tuner.InteractiveParameterTuner * heap) :=
  match sorted (jpgs ++ pngs) with
  | [] => (["No images found in " +:+ images_dir], Ok (None, h))
  | (first :: _) as image_files =>
      let out :=
        [ "Lane Detection - Canny + Hough Transform";
          py_str_mul "=" 50;
          "Found " +:+ pretty (length image_files) +:+ " image(s)" ] in
      if (0 <? length image_files)%nat
      then (out, (Some <$> Tuner.init first) h)
      else (out ++ ["No images found to process"], Ok (None, h))
  end.

End main.

(* ===================================================================== *)
(** * A small implementation of the OpenCV interface                      *)
(* ===================================================================== *)

(** Enough of each library call to run the script's definitions on small
    images: a luminance average, a horizontal-difference edge detector, a
    row-wise segment finder, integer rasterisers and nearest-neighbour
    resizing.  It keeps the library's conventions that matter to the
    script: [imread] and [HoughLinesP] return [None] when there is nothing
    to return, and [resize] rejects an empty size. *)
Module Demo.

Definition blank (rows cols : nat) : ndarray :=
  replicate rows (replicate cols [255; 255; 255]).

(** White, with one black column. *)
Definition striped (rows cols : nat) : ndarray :=
  replicate rows
    (map (fun x => if (x =? 2)%nat then [0; 0; 0] else [255; 255; 255])
         (seq 0 cols)).

Definition files : list (string * ndarray) :=
  [ ("white50.png", blank 50 50);
    ("road.png", striped 6 8);
    ("frame720.png", striped 720 4);
    ("tall.png", blank 800 3);
    ("strip.png", blank 1000 4);
    ("thin.png", blank 721 1) ]%string.

Definition imread (path : string) : option ndarray :=
  (fun f => snd (snd f)) <$>
    list_find (fun f => String.eqb (fst f) path) files.

(** [a !! (i * n / m)]: the source index of destination index [i]. *)
Definition nearest {A} (l : list A) (m : Z) (i : nat) : option A :=
  l !! Z.to_nat (Z.of_nat i * Z.of_nat (length l) / m).

Definition resize (a : ndarray) (size : Z * Z) : option ndarray :=
  let '(w, h) := size in
  if (w <=? 0) || (h <=? 0) then None
  else match a with
       | [] => None
       | r0 :: _ =>
           Some (map (fun i =>
                   map (fun j => default [] (nearest (default r0 (nearest a h i)) w j))
                       (seq 0 (Z.to_nat w)))
                 (seq 0 (Z.to_nat h)))
       end.

Definition cvtColor_BGR2GRAY (a : ndarray) : ndarray :=
  map (map (fun p : Pixel => [foldr Z.add 0 p / 3])) a.

Definition GaussianBlur (a : ndarray) (ksize : Z * Z) (sigma : Z) : ndarray :=
  a.

Definition Canny (a : ndarray) (lo hi : Z) : ndarray :=
  map (fun row : list Pixel =>
         zip_with (fun p q : Pixel =>
                     [if hi <? Z.abs (hd 0 p - hd 0 q) then 255 else 0])
                  row (hd [] row :: row)) a.

(** The columns of a row that hold an edge pixel. *)
Definition edge_columns (row : list Pixel) : list Z :=
  omap (fun '(x, p) => if hd 0 p =? 0 then None else Some (Z.of_nat x))
       (imap pair row).

Definition HoughLinesP (a : ndarray) (rho : Z) (theta : float)
    (threshold minLineLength maxLineGap : Z) : option (list LineSegment) :=
  let segs :=
    omap (fun '(y, row) =>
            match edge_columns row with
            | [] => None
            | c :: cs =>
                let c' := List.last cs c in
                if (threshold <=? Z.of_nat (length (c :: cs)))
                   && (minLineLength <=? c' - c)
                then Some (c, Z.of_nat y, c', Z.of_nat y)
                else None
            end)
         (imap pair a) in
  match segs with [] => None | _ => Some segs end.

Definition between (a b x : Z) : bool :=
  (Z.min a b <=? x) && (x <=? Z.max a b).

Definition line_pixels (p q : point) (thickness x y : Z) : bool :=
  let '(x1, y1) := p in
  let '(x2, y2) := q in
  let dx := x2 - x1 in
  let dy := y2 - y1 in
  let len := Z.max 1 (Z.max (Z.abs dx) (Z.abs dy)) in
  let c := (x - x1) * dy - (y - y1) * dx in
  between (Z.min x1 x2 - thickness / 2) (Z.max x1 x2 + thickness / 2) x
  && between (Z.min y1 y2 - thickness / 2) (Z.max y1 y2 + thickness / 2) y
  && (- (thickness / 2) * len <=? c) && (c <=? (thickness - 1) / 2 * len).

Fixpoint path_pixels (pts : list point) (thickness x y : Z) : bool :=
  match pts with
  | p :: (q :: _) as rest =>
      line_pixels p q thickness x y || path_pixels rest thickness x y
  | _ => false
  end.

Definition polylines_pixels (polys : list (list point)) (isClosed : bool)
    (thickness x y : Z) : bool :=
  existsb (fun pts =>
             path_pixels pts thickness x y
             || (isClosed &&
                 match pts with
                 | p :: _ => line_pixels (List.last pts p) p thickness x y
                 | [] => false
                 end)) polys.

(** Exact for the axis-parallel rectangle the script fills. *)
Definition fillPoly_pixels (polys : list (list point)) (x y : Z) : bool :=
  existsb (fun pts =>
             match pts with
             | [] => false
             | (x0, y0) :: _ =>
                 let xs := map fst pts in
                 let ys := map snd pts in
                 between (foldr Z.min x0 xs) (foldr Z.max x0 xs) x
                 && between (foldr Z.min y0 ys) (foldr Z.max y0 ys) y
             end) polys.

Definition lib : cv2 :=
  Build_cv2 imread resize cvtColor_BGR2GRAY GaussianBlur Canny HoughLinesP
            line_pixels polylines_pixels fillPoly_pixels.

End Demo.

(* ===================================================================== *)
(** * Facts about the binary64 arithmetic                                 *)
(* ===================================================================== *)

Lemma IZR_pow2 (k : Z) : 0 <= k -> IZR (2 ^ k) = powerRZ 2 k.
Proof.
  intros Hk. rewrite <- (Z2Nat.id k Hk) at 1 2.
  rewrite <- pow_IZR, <- pow_powerRZ. reflexivity.
Qed.

Lemma pow2_pos (k : Z) : (0 < powerRZ 2 k)%R.
Proof. apply powerRZ_lt. lra. Qed.

Lemma pow2_add (a b : Z) : (powerRZ 2 (a + b) = powerRZ 2 a * powerRZ 2 b)%R.
Proof. apply powerRZ_add. lra. Qed.

Lemma pow2_neg (a : Z) : (powerRZ 2 (- a) = / powerRZ 2 a)%R.
Proof. apply powerRZ_neg'. Qed.

Lemma pow2_succ (a : Z) : (powerRZ 2 (a + 1) = 2 * powerRZ 2 a)%R.
Proof. rewrite pow2_add. simpl. lra. Qed.

Lemma pow2_le (a b : Z) : a <= b -> (powerRZ 2 a <= powerRZ 2 b)%R.
Proof.
  intros H. replace b with (a + (b - a)) by lia. rewrite pow2_add.
  rewrite <- (IZR_pow2 (b - a)) by lia.
  assert (1 <= 2 ^ (b - a)) by (apply Z.lt_pred_le, Z.pow_pos_nonneg; lia).
  apply IZR_le in H0. pose proof (pow2_pos a). nra.
Qed.

Lemma pow2_lt (a b : Z) : a < b -> (powerRZ 2 a < powerRZ 2 b)%R.
Proof.
  intros H. apply Rlt_le_trans with (powerRZ 2 (a + 1)).
  - rewrite pow2_succ. pose proof (pow2_pos a). lra.
  - apply pow2_le. lia.
Qed.

Lemma pow2_lt_inv (a b : Z) : (powerRZ 2 a < powerRZ 2 b)%R -> a < b.
Proof.
  intros H. destruct (Z_lt_le_dec a b) as [|Hle]; [assumption|].
  apply pow2_le in Hle. lra.
Qed.

Lemma scale2_R (n d k : Z) :
  0 < d ->
  0 < snd (scale2 n d k) /\
  (IZR (fst (scale2 n d k)) / IZR (snd (scale2 n d k))
   = IZR n / IZR d * powerRZ 2 k)%R.
Proof.
  intros Hd. unfold scale2. destruct (Z.leb_spec 0 k); simpl.
  - split; [assumption|]. rewrite mult_IZR, IZR_pow2 by assumption.
    apply IZR_lt in Hd. field. lra.
  - assert (0 < 2 ^ (- k)) by (apply Z.pow_pos_nonneg; lia).
    split; [lia|]. rewrite mult_IZR, IZR_pow2 by lia. rewrite pow2_neg.
    apply IZR_lt in Hd. pose proof (pow2_pos k). field. lra.
Qed.

Lemma rne_div_Z (n d : Z) :
  0 < d -> - d <= 2 * (rne_div n d * d - n) <= d.
Proof.
  intros Hd. unfold rne_div.
  pose proof (Z.div_mod n d ltac:(lia)) as E.
  pose proof (Z.mod_pos_bound n d Hd) as B.
  destruct (Z.ltb_spec (2 * (n mod d)) d);
    [|destruct (Z.ltb_spec d (2 * (n mod d))); [|destruct (Z.even (n / d))]];
    nia.
Qed.

Lemma rne_div_R (n d : Z) :
  0 < d -> (Rabs (IZR (rne_div n d) - IZR n / IZR d) <= / 2)%R.
Proof.
  intros Hd. pose proof (rne_div_Z n d Hd) as [L U].
  apply IZR_le in L, U. apply IZR_lt in Hd.
  rewrite opp_IZR in L. rewrite mult_IZR, minus_IZR, mult_IZR in L, U.
  set (m := IZR (rne_div n d)) in *. set (x := IZR n) in *.
  set (y := IZR d) in *.
  assert (E : (m - x / y = (m * y - x) / y)%R) by (field; lra).
  rewrite E. apply Rabs_le.
  assert (0 < / y)%R by (apply Rinv_0_lt_compat; lra).
  unfold Rdiv. split.
  - apply Rmult_le_reg_r with y; [lra|]. rewrite Rmult_assoc, Rinv_l by lra. lra.
  - apply Rmult_le_reg_r with y; [lra|]. rewrite Rmult_assoc, Rinv_l by lra. lra.
Qed.

Lemma log2_R (n : Z) :
  0 < n ->
  (powerRZ 2 (Z.log2 n) <= IZR n < powerRZ 2 (Z.log2 n + 1))%R.
Proof.
  intros Hn. pose proof (Z.log2_spec n Hn) as [L U].
  pose proof (Z.log2_nonneg n).
  rewrite <- !IZR_pow2 by lia. split; [apply IZR_le|apply IZR_lt]; lia.
Qed.

Lemma ge_pow2_R (n d e : Z) :
  0 < d ->
  ge_pow2 n d e = true <-> (powerRZ 2 e <= IZR n / IZR d)%R.
Proof.
  intros Hd. unfold ge_pow2.
  pose proof (scale2_R n d (- e) Hd) as [Hd' E].
  destruct (scale2 n d (- e)) as [n' d']; simpl in *.
  rewrite pow2_neg in E. pose proof (pow2_pos e) as Hp.
  apply IZR_lt in Hd'. apply IZR_lt in Hd.
  assert (E' : (IZR n' = IZR n / IZR d * / powerRZ 2 e * IZR d')%R).
  { rewrite <- E. field. lra. }
  rewrite Z.leb_le. split.
  - intros H. apply IZR_le in H. rewrite E' in H.
    set (x := (IZR n / IZR d)%R) in *.
    apply Rmult_le_reg_r with (/ powerRZ 2 e * IZR d')%R.
    + apply Rmult_lt_0_compat; [apply Rinv_0_lt_compat|]; lra.
    + rewrite <- Rmult_assoc. replace (powerRZ 2 e * / powerRZ 2 e)%R with 1%R
        by (field; lra). lra.
  - intros H. apply le_IZR. rewrite E'.
    set (x := (IZR n / IZR d)%R) in *.
    assert (1 <= x * / powerRZ 2 e)%R.
    { apply Rmult_le_reg_r with (powerRZ 2 e); [lra|].
      rewrite Rmult_assoc, Rinv_l by lra. lra. }
    nra.
Qed.

Lemma ilog2_frac_R (n d : Z) :
  0 < n -> 0 < d ->
  (powerRZ 2 (ilog2_frac n d) <= IZR n / IZR d
   < powerRZ 2 (ilog2_frac n d + 1))%R.
Proof.
  intros Hn Hd. unfold ilog2_frac.
  pose proof (log2_R n Hn) as [Ln Un]. pose proof (log2_R d Hd) as [Ld Ud].
  set (a := Z.log2 n) in *. set (b := Z.log2 d) in *.
  pose proof (pow2_pos b) as Hb. pose proof (pow2_pos (a - b)) as Hab.
  assert (Ea : (powerRZ 2 a = powerRZ 2 (a - b) * powerRZ 2 b)%R).
  { rewrite <- pow2_add. f_equal. lia. }
  rewrite !pow2_succ in *.
  pose proof (IZR_lt _ _ Hd) as Hd0. simpl in Hd0.
  assert (Hinv : (0 < / IZR d)%R) by (apply Rinv_0_lt_compat; lra).
  assert (Up : (IZR n / IZR d < 2 * powerRZ 2 (a - b))%R).
  { apply Rmult_lt_reg_r with (IZR d); [lra|]. unfold Rdiv.
    rewrite Rmult_assoc, Rinv_l by lra. rewrite Ea in Un.
    assert (powerRZ 2 (a - b) * powerRZ 2 b <= powerRZ 2 (a - b) * IZR d)%R
      by (apply Rmult_le_compat_l; lra).
    lra. }
  assert (Lo : (powerRZ 2 (a - b - 1) <= IZR n / IZR d)%R).
  { assert (E1 : (powerRZ 2 (a - b) = 2 * powerRZ 2 (a - b - 1))%R).
    { rewrite <- pow2_succ. f_equal. lia. }
    apply Rmult_le_reg_r with (IZR d); [lra|]. unfold Rdiv.
    rewrite Rmult_assoc, Rinv_l by lra.
    pose proof (pow2_pos (a - b - 1)) as Hq. rewrite Ea, E1 in Ln.
    assert (powerRZ 2 (a - b - 1) * IZR d
            <= powerRZ 2 (a - b - 1) * (2 * powerRZ 2 b))%R
      by (apply Rmult_le_compat_l; lra).
    lra. }
  destruct (ge_pow2 n d (a - b)) eqn:G.
  - apply ge_pow2_R in G; [|lia]. split; lra.
  - assert (~ (powerRZ 2 (a - b) <= IZR n / IZR d)%R).
    { intros C. apply ge_pow2_R in C; [congruence|lia]. }
    apply Rnot_le_lt in H.
    assert (E1 : (powerRZ 2 (a - b) = 2 * powerRZ 2 (a - b - 1))%R).
    { rewrite <- pow2_succ. f_equal. lia. }
    split; lra.
Qed.

(** The decomposition at the heart of [round53_pos]. *)
Lemma round53_pos_spec (n d : Z) :
  0 < n -> 0 < d ->
  exists m e,
    round53_pos n d = mkfloat m (e - 52) /\
    (powerRZ 2 e <= IZR n / IZR d < powerRZ 2 (e + 1))%R /\
    (Rabs (IZR m - IZR n / IZR d * powerRZ 2 (52 - e)) <= / 2)%R.
Proof.
  intros Hn Hd. unfold round53_pos.
  pose proof (ilog2_frac_R n d Hn Hd) as B.
  set (e := ilog2_frac n d) in *.
  pose proof (scale2_R n d (52 - e) Hd) as [Hd' E].
  destruct (scale2 n d (52 - e)) as [n' d']; simpl in *.
  exists (rne_div n' d'), e. split; [reflexivity|]. split; [exact B|].
  rewrite <- E. apply rne_div_R. assumption.
Qed.

Lemma Rabs_le_inv (x y : R) : (Rabs x <= y -> - y <= x <= y)%R.
Proof. unfold Rabs. destruct (Rcase_abs x); lra. Qed.

Lemma pow2_52_53 : (powerRZ 2 52 * powerRZ 2 (-53) = / 2)%R.
Proof. rewrite <- pow2_add. simpl. lra. Qed.

Lemma round53_pos_err (n d : Z) :
  0 < n -> 0 < d ->
  (Rabs (F2R (round53_pos n d) - IZR n / IZR d)
   <= IZR n / IZR d * powerRZ 2 (-53))%R.
Proof.
  intros Hn Hd.
  destruct (round53_pos_spec n d Hn Hd) as (m & e & -> & [Lo _] & Hm).
  unfold F2R; simpl. set (x := (IZR n / IZR d)%R) in *.
  pose proof (pow2_pos (e - 52)) as HQ. pose proof (pow2_pos (52 - e)) as HP.
  assert (PQ : (powerRZ 2 (52 - e) * powerRZ 2 (e - 52) = 1)%R).
  { rewrite <- pow2_add. replace (52 - e + (e - 52)) with 0 by lia.
    reflexivity. }
  assert (Ee : (powerRZ 2 e = powerRZ 2 52 * powerRZ 2 (e - 52))%R).
  { rewrite <- pow2_add. f_equal. lia. }
  pose proof pow2_52_53 as C.
  set (P := powerRZ 2 (52 - e)) in *. set (Q := powerRZ 2 (e - 52)) in *.
  assert (E : (IZR m * Q - x = (IZR m - x * P) * Q)%R).
  { replace x with (x * (P * Q))%R at 1 by (rewrite PQ; ring). ring. }
  rewrite E, Rabs_mult, (Rabs_pos_eq Q) by lra.
  apply Rle_trans with (/ 2 * Q)%R.
  - apply Rmult_le_compat_r; lra.
  - rewrite Ee in Lo. rewrite <- C.
    assert (0 <= powerRZ 2 (-53))%R by (pose proof (pow2_pos (-53)); lra).
    replace (powerRZ 2 52 * powerRZ 2 (-53) * Q)%R
      with (powerRZ 2 52 * Q * powerRZ 2 (-53))%R by ring.
    apply Rmult_le_compat_r; lra.
Qed.

Lemma round53_pos_exact (n d : Z) :
  0 < n -> 0 < d ->
  (forall e, (powerRZ 2 e <= IZR n / IZR d)%R ->
             exists z, (IZR n / IZR d * powerRZ 2 (52 - e) = IZR z)%R) ->
  F2R (round53_pos n d) = (IZR n / IZR d)%R.
Proof.
  intros Hn Hd Hz.
  destruct (round53_pos_spec n d Hn Hd) as (m & e & -> & [Lo _] & Hm).
  destruct (Hz e Lo) as [z Ez]. rewrite Ez in Hm.
  rewrite <- minus_IZR in Hm.
  assert (m = z).
  { apply Rabs_le_inv in Hm as [L U].
    assert (IZR (m - z) < 1)%R by lra. assert (-1 < IZR (m - z))%R by lra.
    apply lt_IZR in H, H0. lia. }
  subst m. unfold F2R; simpl. rewrite <- Ez.
  rewrite Rmult_assoc, <- pow2_add.
  replace (52 - e + (e - 52)) with 0 by lia. simpl. ring.
Qed.

Lemma F2R_fneg (x : float) : F2R (fneg x) = (- F2R x)%R.
Proof. unfold F2R, fneg; simpl. rewrite opp_IZR. ring. Qed.

Lemma round53_err (n d : Z) :
  0 < d ->
  (Rabs (F2R (round53 n d) - IZR n / IZR d)
   <= Rabs (IZR n / IZR d) * powerRZ 2 (-53))%R.
Proof.
  intros Hd. unfold round53.
  pose proof (IZR_lt _ _ Hd) as Hd0.
  destruct (Z.eqb_spec n 0) as [->|Hn0].
  - unfold F2R; simpl. unfold Rdiv. rewrite !Rmult_0_l, Rminus_0_r, Rabs_R0.
    lra.
  - destruct (Z.ltb_spec n 0) as [Hneg|Hpos].
    + pose proof (round53_pos_err (- n) d ltac:(lia) Hd) as H.
      rewrite F2R_fneg. rewrite opp_IZR in H.
      set (x := (IZR n / IZR d)%R) in *.
      assert (Ex : (- IZR n / IZR d = - x)%R) by (unfold x; field; lra).
      rewrite Ex in H.
      assert (Hx : (x < 0)%R).
      { apply IZR_lt in Hneg. unfold x, Rdiv.
        assert (0 < / IZR d)%R by (apply Rinv_0_lt_compat; lra). nra. }
      rewrite (Rabs_left x Hx).
      replace (- F2R (round53_pos (- n) d) - x)%R
        with (- (F2R (round53_pos (- n) d) - - x))%R by ring.
      rewrite Rabs_Ropp. exact H.
    + pose proof (round53_pos_err n d ltac:(lia) Hd) as H.
      rewrite (Rabs_pos_eq (IZR n / IZR d)); [exact H|].
      assert (0 < n) by lia. apply IZR_lt in H0.
      apply Rlt_le, Rdiv_lt_0_compat; lra.
Qed.

Lemma flt_R (x y : float) : flt x y = true <-> (F2R x < F2R y)%R.
Proof.
  unfold flt, F2R. set (e := Z.min (expo x) (expo y)).
  rewrite Z.ltb_lt.
  assert (Ex : (powerRZ 2 (expo x) = IZR (2 ^ (expo x - e)) * powerRZ 2 e)%R).
  { rewrite IZR_pow2 by lia. rewrite <- pow2_add. f_equal. lia. }
  assert (Ey : (powerRZ 2 (expo y) = IZR (2 ^ (expo y - e)) * powerRZ 2 e)%R).
  { rewrite IZR_pow2 by lia. rewrite <- pow2_add. f_equal. lia. }
  rewrite Ex, Ey, <- !Rmult_assoc, <- !mult_IZR.
  pose proof (pow2_pos e). split.
  - intros H0. apply IZR_lt in H0. nra.
  - intros H0. apply lt_IZR. nra.
Qed.

Lemma py_int_R (x : float) :
  0 <= mant x ->
  (IZR (py_int x) <= F2R x < IZR (py_int x) + 1)%R.
Proof.
  intros Hm. unfold py_int, F2R. destruct (Z.leb_spec 0 (expo x)).
  - rewrite mult_IZR, IZR_pow2 by assumption. lra.
  - set (D := 2 ^ (- expo x)).
    assert (HD : 0 < D) by (apply Z.pow_pos_nonneg; lia).
    rewrite Z.quot_div_nonneg by lia.
    pose proof (Z.div_mod (mant x) D ltac:(lia)) as E.
    pose proof (Z.mod_pos_bound (mant x) D HD) as B.
    replace (expo x) with (- - expo x) by lia. rewrite pow2_neg.
    rewrite <- IZR_pow2 by lia. fold D.
    set (q := mant x / D) in *.
    assert (L : D * q <= mant x) by lia.
    assert (U : mant x < D * (q + 1)) by lia.
    apply IZR_le in L. apply IZR_lt in U, HD.
    rewrite mult_IZR in L, U. rewrite plus_IZR in U.
    assert (0 < / IZR D)%R by (apply Rinv_0_lt_compat; lra).
    split.
    + apply Rmult_le_reg_r with (IZR D); [lra|].
      rewrite Rmult_assoc, Rinv_l by lra. lra.
    + apply Rmult_lt_reg_r with (IZR D); [lra|].
      rewrite Rmult_assoc, Rinv_l by lra. lra.
Qed.

Lemma py_int_fneg (x : float) : py_int (fneg x) = - py_int x.
Proof.
  unfold py_int, fneg; simpl. destruct (Z.leb_spec 0 (expo x)).
  - lia.
  - apply Z.quot_opp_l.
    assert (0 < 2 ^ (- expo x)) by (apply Z.pow_pos_nonneg; lia). lia.
Qed.

Lemma u53 : powerRZ 2 (-53) = (/ 9007199254740992)%R.
Proof.
  change (-53) with (- (53)). rewrite pow2_neg, <- IZR_pow2 by lia.
  reflexivity.
Qed.

Lemma round53_pos_mant (n d : Z) :
  0 < n -> 0 < d -> 0 <= mant (round53_pos n d).
Proof.
  intros Hn Hd.
  destruct (round53_pos_spec n d Hn Hd) as (m & e & -> & [Lo _] & Hm).
  simpl. apply Rabs_le_inv in Hm as [L _].
  assert (0 < IZR n / IZR d * powerRZ 2 (52 - e))%R.
  { apply Rmult_lt_0_compat; [|apply pow2_pos].
    apply IZR_lt in Hn, Hd. apply Rdiv_lt_0_compat; lra. }
  assert (-1 < IZR m)%R by lra. apply lt_IZR in H0. lia.
Qed.

Lemma round53_mant (n d : Z) : 0 <= n -> 0 < d -> 0 <= mant (round53 n d).
Proof.
  intros Hn Hd. unfold round53. destruct (Z.eqb_spec n 0); [simpl; lia|].
  destruct (Z.ltb_spec n 0); [lia|]. apply round53_pos_mant; lia.
Qed.

(** [int(a / 100)] is the truncated quotient as long as [a] is exactly
    representable. *)
Lemma int_truediv_100_pos (a : Z) :
  0 < a < 2 ^ 53 -> py_int (round53_pos a 100) = a / 100.
Proof.
  intros [Ha Hb].
  destruct (round53_pos_spec a 100 Ha ltac:(lia)) as (m & e & E & [Lo Up] & Hm).
  rewrite E.
  set (x := (IZR a / IZR 100)%R) in *.
  assert (He : e < 47).
  { apply pow2_lt_inv. apply Rle_lt_trans with x; [exact Lo|].
    rewrite <- IZR_pow2 by lia. apply IZR_lt in Hb.
    change (IZR (2 ^ 53)) with 9007199254740992%R in Hb.
    change (IZR (2 ^ 47)) with 140737488355328%R. unfold x. lra. }
  set (D := 2 ^ (52 - e)).
  assert (HD : 64 <= D).
  { change 64 with (2 ^ 6). apply Z.pow_le_mono_r; lia. }
  assert (EP : powerRZ 2 (52 - e) = IZR D) by (unfold D; rewrite IZR_pow2; [reflexivity|lia]).
  rewrite EP in Hm. apply Rabs_le_inv in Hm as [L U].
  pose proof (Z.div_mod a 100 ltac:(lia)) as Ed.
  pose proof (Z.mod_pos_bound a 100 ltac:(lia)) as Br.
  set (q := a / 100) in *. set (r := a mod 100) in *.
  assert (Ex : (x = IZR q + IZR r / 100)%R).
  { unfold x. rewrite Ed, plus_IZR, mult_IZR. field. }
  assert (Hr0 : (0 <= IZR r)%R) by (apply IZR_le; lia).
  assert (Hr1 : (IZR r <= 99)%R) by (apply IZR_le; lia).
  assert (HD' : (64 <= IZR D)%R) by (apply IZR_le; lia).
  assert (Lm : q * D <= m).
  { assert (IZR (q * D) - 1 < IZR m)%R.
    { rewrite mult_IZR. rewrite Ex in L. nra. }
    rewrite <- minus_IZR in H. apply lt_IZR in H. lia. }
  assert (Um : m < (q + 1) * D).
  { apply lt_IZR. rewrite mult_IZR, plus_IZR. rewrite Ex in U. nra. }
  unfold py_int; simpl. destruct (Z.leb_spec 0 (e - 52)); [lia|].
  replace (- (e - 52)) with (52 - e) by lia. fold D.
  assert (0 <= q) by (apply Z.div_pos; lia).
  rewrite Z.quot_div_nonneg by nia.
  symmetry. apply Z.div_unique with (m - q * D); lia.
Qed.

Lemma int_truediv_100 (a : Z) :
  Z.abs a < 2 ^ 53 -> py_int (truediv a 100) = Z.quot a 100.
Proof.
  intros Ha. unfold truediv. simpl. unfold round53.
  destruct (Z.eqb_spec a 0) as [->|Hn0]; [reflexivity|].
  destruct (Z.ltb_spec a 0).
  - rewrite py_int_fneg, int_truediv_100_pos by lia.
    rewrite <- (Z.opp_involutive a) at 2. rewrite Z.quot_opp_l by lia.
    rewrite Z.quot_div_nonneg by lia. reflexivity.
  - rewrite int_truediv_100_pos by lia. rewrite Z.quot_div_nonneg by lia.
    reflexivity.
Qed.

Lemma F2R_round_dyadic_frac (m e : Z) :
  0 < snd (scale2 m 1 e) /\
  (IZR (fst (scale2 m 1 e)) / IZR (snd (scale2 m 1 e))
   = IZR m * powerRZ 2 e)%R.
Proof.
  destruct (scale2_R m 1 e ltac:(lia)) as [H E]. split; [exact H|].
  rewrite E. field.
Qed.

Lemma fmul_err (x y : float) :
  (Rabs (F2R (fmul x y) - F2R x * F2R y)
   <= Rabs (F2R x * F2R y) * powerRZ 2 (-53))%R.
Proof.
  unfold fmul, round_dyadic.
  destruct (F2R_round_dyadic_frac (mant x * mant y) (expo x + expo y))
    as [Hd E].
  destruct (scale2 (mant x * mant y) 1 (expo x + expo y)) as [n d].
  simpl in *.
  assert (Exy : (F2R x * F2R y = IZR n / IZR d)%R).
  { rewrite E. unfold F2R. rewrite mult_IZR, pow2_add. ring. }
  rewrite Exy. apply round53_err. exact Hd.
Qed.

Lemma fmul_mant (x y : float) :
  0 <= mant x -> 0 <= mant y -> 0 <= mant (fmul x y).
Proof.
  intros Hx Hy. unfold fmul, round_dyadic.
  pose proof (scale2_R (mant x * mant y) 1 (expo x + expo y) ltac:(lia))
    as [Hd _].
  assert (Hn : 0 <= fst (scale2 (mant x * mant y) 1 (expo x + expo y))).
  { unfold scale2. destruct (0 <=? expo x + expo y); simpl; [|nia].
    apply Z.mul_nonneg_nonneg; [nia|]. apply Z.pow_nonneg. lia. }
  destruct (scale2 (mant x * mant y) 1 (expo x + expo y)) as [n d].
  simpl in *. apply round53_mant; assumption.
Qed.

Lemma F2R_float_of_int (n : Z) :
  0 <= n < 2 ^ 53 -> F2R (float_of_int n) = IZR n.
Proof.
  intros [Hn Hb]. unfold float_of_int, round53.
  destruct (Z.eqb_spec n 0) as [->|Hn0]; [unfold F2R; simpl; lra|].
  destruct (Z.ltb_spec n 0); [lia|].
  rewrite round53_pos_exact; [simpl; field|lia|lia|].
  intros e He. simpl in He.
  assert (e < 53).
  { apply pow2_lt_inv. apply Rle_lt_trans with (IZR n / 1)%R; [exact He|].
    rewrite <- IZR_pow2 by lia. apply IZR_lt in Hb. lra. }
  exists (n * 2 ^ (52 - e)). rewrite mult_IZR, IZR_pow2 by lia. simpl. field.
Qed.

Lemma F2R_py_min (a b : float) : F2R (py_min a b) = Rmin (F2R a) (F2R b).
Proof.
  unfold py_min. destruct (flt b a) eqn:E.
  - apply flt_R in E. rewrite Rmin_right; lra.
  - assert (~ (F2R b < F2R a)%R) by (rewrite <- flt_R; congruence).
    rewrite Rmin_left; lra.
Qed.

Lemma truediv_pos_bounds (a b : Z) :
  0 < a -> 0 < b ->
  (IZR a / IZR b * (1 - powerRZ 2 (-53)) <= F2R (truediv a b)
   <= IZR a / IZR b * (1 + powerRZ 2 (-53)))%R.
Proof.
  intros Ha Hb. unfold truediv. destruct (Z.ltb_spec 0 b) as [_|?]; [|lia].
  pose proof (round53_err a b Hb) as H.
  assert (Hq : (0 < IZR a / IZR b)%R).
  { apply IZR_lt in Ha, Hb. apply Rdiv_lt_0_compat; lra. }
  rewrite (Rabs_pos_eq (IZR a / IZR b)) in H by lra.
  apply Rabs_le_inv in H. lra.
Qed.

(** The integer part of [t * s] computed in binary64, when [t * s] is
    within two roundings of the fraction [N / c]. *)
Lemma scaled_dim_bounds (t : Z) (s : float) (N c : Z) :
  0 < t < 2 ^ 53 ->
  0 < c < 2 ^ 31 ->
  0 <= N <= 1280 * c ->
  0 <= mant s ->
  (IZR N / IZR c * (1 - powerRZ 2 (-53)) <= IZR t * F2R s
   <= IZR N / IZR c * (1 + powerRZ 2 (-53)))%R ->
  N / c - 1 <= py_int (mul_int_float t s) <= N / c.
Proof.
  intros Ht Hc HN Hs HY. unfold mul_int_float.
  pose proof (fmul_err (float_of_int t) s) as HX.
  assert (Hm : 0 <= mant (fmul (float_of_int t) s)).
  { apply fmul_mant; [|exact Hs]. apply round53_mant; lia. }
  pose proof (py_int_R _ Hm) as [Hk1 Hk2].
  set (k := py_int (fmul (float_of_int t) s)) in *.
  set (X := F2R (fmul (float_of_int t) s)) in *.
  rewrite F2R_float_of_int in HX by lia.
  set (Y := (IZR t * F2R s)%R) in *.
  rewrite u53 in *.
  pose proof (Z.div_mod N c ltac:(lia)) as Ed.
  pose proof (Z.mod_pos_bound N c ltac:(lia)) as Br.
  assert (HK : 0 <= N / c <= 1280).
  { split; [apply Z.div_pos; lia|]. apply Z.div_le_upper_bound; lia. }
  set (K := N / c) in *. set (r := N mod c) in *.
  assert (Hc0 : (0 < IZR c)%R) by (apply IZR_lt; lia).
  assert (Hc1 : (IZR c <= 2147483648)%R) by (apply IZR_le; lia).
  assert (Hic : (0 < / IZR c)%R) by (apply Rinv_0_lt_compat; lra).
  assert (Hic1 : (/ 2147483648 <= / IZR c)%R).
  { apply Rinv_le_contravar; lra. }
  assert (HV : (IZR N / IZR c = IZR K + IZR r * / IZR c)%R).
  { rewrite Ed, plus_IZR, mult_IZR. field. lra. }
  set (V := (IZR N / IZR c)%R) in *.
  assert (Hr0 : (0 <= IZR r)%R) by (apply IZR_le; lia).
  assert (Hr1 : (IZR r <= IZR c - 1)%R).
  { rewrite <- minus_IZR. apply IZR_le. lia. }
  assert (HK0 : (0 <= IZR K)%R) by (apply IZR_le; lia).
  assert (HK1 : (IZR K <= 1280)%R) by (apply IZR_le; lia).
  assert (HrV : (IZR r * / IZR c <= 1 - / IZR c)%R).
  { replace (1 - / IZR c)%R with ((IZR c - 1) * / IZR c)%R by (field; lra).
    apply Rmult_le_compat_r; lra. }
  assert (HrV0 : (0 <= IZR r * / IZR c)%R) by (apply Rmult_le_pos; lra).
  assert (HV0 : (0 <= V <= 1281)%R) by lra.
  assert (HY0 : (0 <= Y <= 1282)%R) by nra.
  rewrite (Rabs_pos_eq Y) in HX by lra.
  apply Rabs_le_inv in HX.
  assert (HXV : (V - / 1000000000000 <= X <= V + / 1000000000000)%R) by nra.
  split.
  - assert (IZR (K - 2) < IZR k)%R by (rewrite minus_IZR; lra).
    apply lt_IZR in H. lia.
  - assert (IZR k < IZR (K + 1))%R by (rewrite plus_IZR; lra).
    apply lt_IZR in H. lia.
Qed.

Lemma scale_mant (w h : Z) : 0 < w -> 0 < h -> 0 <= mant (scale w h).
Proof.
  intros Hw Hh. unfold scale, py_min, truediv.
  destruct (Z.ltb_spec 0 w); [|lia]. destruct (Z.ltb_spec 0 h); [|lia].
  destruct (flt _ _); apply round53_mant; lia.
Qed.

Lemma scale_bounds (w h : Z) :
  0 < w -> 0 < h ->
  let s := (IZR (Z.min (1280 * h) (720 * w)) / (IZR w * IZR h))%R in
  (s * (1 - powerRZ 2 (-53)) <= F2R (scale w h)
   <= s * (1 + powerRZ 2 (-53)))%R.
Proof.
  intros Hw Hh s. unfold scale. rewrite F2R_py_min.
  pose proof (truediv_pos_bounds 1280 w ltac:(lia) Hw) as [La Ua].
  pose proof (truediv_pos_bounds 720 h ltac:(lia) Hh) as [Lb Ub].
  set (A := F2R (truediv 1280 w)) in *. set (B := F2R (truediv 720 h)) in *.
  rewrite u53 in *.
  pose proof (IZR_lt _ _ Hw) as Hw0. pose proof (IZR_lt _ _ Hh) as Hh0.
  simpl in Hw0, Hh0.
  assert (HI : (0 < / (IZR w * IZR h))%R).
  { apply Rinv_0_lt_compat, Rmult_lt_0_compat; lra. }
  set (I := (/ (IZR w * IZR h))%R) in *.
  assert (Ea : (IZR 1280 / IZR w = IZR (1280 * h) * I)%R).
  { rewrite mult_IZR. unfold I. field. lra. }
  assert (Eb : (IZR 720 / IZR h = IZR (720 * w) * I)%R).
  { rewrite mult_IZR. unfold I. field. lra. }
  rewrite Ea in La, Ua. rewrite Eb in Lb, Ub.
  assert (Es : s = (IZR (Z.min (1280 * h) (720 * w)) * I)%R) by reflexivity.
  rewrite Es. clear Es Ea Eb.
  destruct (Z.min_spec (1280 * h) (720 * w)) as [[Hlt ->]|[Hle ->]].
  - assert (Hab : (IZR (1280 * h) * I <= IZR (720 * w) * I)%R).
    { apply Rmult_le_compat_r; [lra|]. apply IZR_le. lia. }
    unfold Rmin. destruct (Rle_dec A B); nra.
  - assert (Hab : (IZR (720 * w) * I <= IZR (1280 * h) * I)%R).
    { apply Rmult_le_compat_r; [lra|]. apply IZR_le. lia. }
    unfold Rmin. destruct (Rle_dec A B); nra.
Qed.

(** The requested size: each side is the integer part of the exactly
    scaled side, or one less. *)
Lemma new_size_bounds (w h : Z) :
  0 < w < 2 ^ 31 -> 0 < h < 2 ^ 31 ->
  let P := Z.min (1280 * h) (720 * w) in
  (P / h - 1 <= new_width w h <= P / h) /\
  (P / w - 1 <= new_height w h <= P / w).
Proof.
  intros Hw Hh P.
  pose proof (scale_bounds w h ltac:(lia) ltac:(lia)) as HS.
  pose proof (scale_mant w h ltac:(lia) ltac:(lia)) as Hm.
  cbv zeta in HS. fold P in HS.
  pose proof (IZR_lt 0 w ltac:(lia)) as Hw0.
  pose proof (IZR_lt 0 h ltac:(lia)) as Hh0.
  assert (HP : 0 <= P) by (unfold P; lia).
  pose proof (IZR_le _ _ HP) as HP0.
  assert (HPw : (IZR P / (IZR w * IZR h) * IZR w = IZR P / IZR h)%R)
    by (field; lra).
  assert (HPh : (IZR P / (IZR w * IZR h) * IZR h = IZR P / IZR w)%R)
    by (field; lra).
  set (u := powerRZ 2 (-53)) in *.
  assert (Hu : (0 < u < 1)%R) by (unfold u; rewrite u53; lra).
  split.
  - unfold new_width. apply scaled_dim_bounds; [lia | lia | unfold P; lia | exact Hm | ].
    fold u. rewrite <- HPw. destruct HS as [L U]. split.
    + apply Rle_trans with (IZR w * (IZR P / (IZR w * IZR h) * (1 - u)))%R;
        [lra|]. apply Rmult_le_compat_l; lra.
    + apply Rle_trans with (IZR w * (IZR P / (IZR w * IZR h) * (1 + u)))%R;
        [|lra]. apply Rmult_le_compat_l; lra.
  - unfold new_height. apply scaled_dim_bounds; [lia | lia | unfold P; lia | exact Hm | ].
    fold u. rewrite <- HPh. destruct HS as [L U]. split.
    + apply Rle_trans with (IZR h * (IZR P / (IZR w * IZR h) * (1 - u)))%R;
        [lra|]. apply Rmult_le_compat_l; lra.
    + apply Rle_trans with (IZR h * (IZR P / (IZR w * IZR h) * (1 + u)))%R;
        [|lra]. apply Rmult_le_compat_l; lra.
Qed.

(** The definitions of [PyNum] against the standard library's reference
    implementation of IEEE-754, on a grid of image sizes around the
    1280x720 limit, and the products where binary64 falls short of the
    exact value. *)
Lemma finite_fneg (x : float) : finite (fneg x) = finite x.
Proof. unfold finite. rewrite py_int_fneg, Z.abs_opp. reflexivity. Qed.

Lemma finite_nonneg (x : float) :
  0 <= mant x -> (F2R x < powerRZ 2 1024)%R -> finite x = true.
Proof.
  intros Hm Hx. pose proof (py_int_R x Hm) as [L U].
  assert (P : (0 <= F2R x)%R).
  { unfold F2R. apply Rmult_le_pos; [apply IZR_le, Hm|].
    apply Rlt_le, pow2_pos. }
  assert (N : -1 < py_int x).
  { apply lt_IZR. lra. }
  unfold finite. apply Z.ltb_lt. rewrite Z.abs_eq by lia.
  apply lt_IZR. rewrite IZR_pow2 by lia. lra.
Qed.

Lemma round53_pos_finite (n d : Z) :
  0 < n < 2 ^ 1023 -> 0 < d -> finite (round53_pos n d) = true.
Proof.
  intros Hn Hd. apply finite_nonneg; [apply round53_pos_mant; lia|].
  pose proof (round53_pos_err n d ltac:(lia) Hd) as E.
  apply Rabs_le_inv in E. rewrite u53 in E.
  assert (Hd1 : (1 <= IZR d)%R) by (apply IZR_le; lia).
  assert (Hn0 : (0 < IZR n)%R) by (apply IZR_lt; lia).
  assert (Hn1 : (IZR n < powerRZ 2 1023)%R).
  { rewrite <- IZR_pow2 by lia. apply IZR_lt. lia. }
  assert (Q : (0 < IZR n / IZR d <= IZR n)%R).
  { assert (I0 : (0 < / IZR d)%R) by (apply Rinv_0_lt_compat; lra).
    assert (I1 : (/ IZR d <= 1)%R).
    { rewrite <- Rinv_1. apply Rinv_le_contravar; lra. }
    unfold Rdiv. split; nra. }
  change 1024 with (1023 + 1). rewrite pow2_succ. lra.
Qed.

Lemma round53_finite (n d : Z) :
  0 < d -> Z.abs n < 2 ^ 1023 -> finite (round53 n d) = true.
Proof.
  intros Hd Hn. unfold round53.
  destruct (Z.eqb_spec n 0); [reflexivity|].
  destruct (Z.ltb_spec n 0).
  - rewrite finite_fneg. apply round53_pos_finite; lia.
  - apply round53_pos_finite; lia.
Qed.

Lemma truediv_finite (a b : Z) :
  b <> 0 -> Z.abs a < 2 ^ 1023 -> finite (truediv a b) = true.
Proof.
  intros Hb Ha. unfold truediv. destruct (Z.ltb_spec 0 b).
  - apply round53_finite; lia.
  - apply round53_finite; lia.
Qed.

Lemma fits_double_bound (n : Z) : Z.abs n < 2 ^ 1023 -> fits_double n = true.
Proof. intros Hn. apply round53_finite; [lia|exact Hn]. Qed.

Lemma fits_int_bound (n : Z) : - 2 ^ 31 <= n < 2 ^ 31 -> fits_int n = true.
Proof.
  intros Hn. unfold fits_int. apply andb_true_intro.
  split; [apply Z.leb_le|apply Z.ltb_lt]; lia.
Qed.

Lemma round53_pos_100_big (n : Z) :
  2 ^ 53 <= n -> 2 ^ 32 <= py_int (round53_pos n 100).
Proof.
  intros Hn. change (2 ^ 53) with 9007199254740992 in Hn.
  change (2 ^ 32) with 4294967296.
  pose proof (round53_pos_err n 100 ltac:(lia) ltac:(lia)) as E.
  apply Rabs_le_inv in E. rewrite u53 in E.
  pose proof (py_int_R (round53_pos n 100)
                (round53_pos_mant n 100 ltac:(lia) ltac:(lia))) as [_ U].
  pose proof (IZR_le _ _ Hn) as Hr.
  assert (4294967296 - 1 < py_int (round53_pos n 100)); [|lia].
  apply lt_IZR. rewrite minus_IZR. unfold Rdiv in E. lra.
Qed.

(** A top row that fits [int32] comes from a product below [2^53], for
    which the division by 100 and the truncation are exact. *)
Lemma int32_truediv_100 (a : Z) :
  fits_int (py_int (truediv a 100)) = true -> Z.abs a < 2 ^ 53.
Proof.
  intros F. destruct (Z_lt_le_dec (Z.abs a) (2 ^ 53)) as [L|L]; [exact L|].
  exfalso. unfold fits_int in F. apply andb_prop in F as [F1 F2].
  apply Z.leb_le in F1. apply Z.ltb_lt in F2.
  change (2 ^ 31) with 2147483648 in F1, F2.
  assert (P53 : 0 < 2 ^ 53) by reflexivity.
  unfold truediv, round53 in F1, F2. cbn [Z.ltb Z.compare] in F1, F2.
  destruct (Z.eqb_spec a 0); [lia|].
  destruct (Z.ltb_spec a 0).
  - rewrite py_int_fneg in F1, F2.
    pose proof (round53_pos_100_big (- a) ltac:(lia)) as B.
    change (2 ^ 32) with 4294967296 in B. lia.
  - pose proof (round53_pos_100_big a ltac:(lia)) as B.
    change (2 ^ 32) with 4294967296 in B. lia.
Qed.

Lemma pow2_1023_large : 2 ^ 53 < 2 ^ 1023.
Proof. apply Z.pow_lt_mono_r; lia. Qed.

(** Simple bounds within which [detect_lanes] takes its arguments. *)
Lemma accepts_bounds (H W cl ch ht hl hg rt rb : Z) :
  0 <= H < 2 ^ 31 -> 0 <= W < 2 ^ 31 ->
  Z.abs cl < 2 ^ 1023 -> Z.abs ch < 2 ^ 1023 ->
  - 2 ^ 31 <= ht < 2 ^ 31 ->
  Z.abs hl < 2 ^ 1023 -> Z.abs hg < 2 ^ 1023 ->
  - 2 ^ 31 * 100 < H * rt < 2 ^ 31 * 100 ->
  Z.abs (H * rb) < 2 ^ 1023 ->
  accepts H W cl ch ht hl hg rt rb = true.
Proof.
  intros HH HW Hcl Hch Hht Hhl Hhg Hrt Hrb. unfold accepts.
  pose proof pow2_1023_large as L.
  assert (P31 : 2 ^ 31 = 2147483648) by reflexivity.
  assert (P53 : 2 ^ 53 = 9007199254740992) by reflexivity.
  assert (B : Z.abs (H * rt) < 2 ^ 53) by (rewrite P53; lia).
  rewrite !fits_double_bound by assumption.
  rewrite !truediv_finite by lia.
  rewrite int_truediv_100 by exact B.
  rewrite !fits_int_bound; [reflexivity| | | |]; try lia.
  rewrite P31 in *.
  pose proof (Z.quot_rem' (H * rt) 100) as Q.
  pose proof (Z.rem_bound_abs (H * rt) 100 ltac:(lia)) as R.
  destruct (Z_le_gt_dec 0 (H * rt)) as [S|S].
  - pose proof (Z.rem_nonneg (H * rt) 100 ltac:(lia) S). lia.
  - pose proof (Z.rem_nonpos (H * rt) 100 ltac:(lia) ltac:(lia)). lia.
Qed.

Lemma binary64_agreement :
  forallb (fun w => forallb (agree w) (upto 30 700 ++ [1; 2; 1142; 4000]))
          (upto 30 1265 ++ [1; 3; 2139; 5000]) = true.
Proof. vm_compute. reflexivity. Qed.

Example height_1142 : new_height 100 1142 = 719.
Proof. vm_compute. reflexivity. Qed.

Example size_2560_1440 : (new_width 2560 1440, new_height 2560 1440) = (1280, 720).
Proof. vm_compute. reflexivity. Qed.

Example size_1501_1000 : (new_width 1501 1000, nearest_width 1501 1000) = (1080, 1081).
Proof. vm_compute. reflexivity. Qed.

(** [np.pi / 180] is the double 0.017453292519943295. *)
Example theta_value : fdiv_int np_pi 180 = mkfloat 5030569068109113 (-58).
Proof. vm_compute. reflexivity. Qed.

(* ===================================================================== *)
(** * Running the store monad                                             *)
(* ===================================================================== *)

Lemma bind_run {A B} (m : M A) (f : A -> M B) (h h' : heap) (a : A) :
  m h = Ok (a, h') -> (m ≫= f) h = f a h'.
Proof. intros E. unfold mbind, M_bind. rewrite E. reflexivity. Qed.

Lemma bind_raise {A B} (m : M A) (f : A -> M B) (h : heap) (e : exn) :
  m h = Raise e -> (m ≫= f) h = Raise e.
Proof. intros E. unfold mbind, M_bind. rewrite E. reflexivity. Qed.

Lemma load_run (l : loc) (a : ndarray) (h : heap) :
  h !! l = Some a -> load l h = Ok (a, h).
Proof. intros E. unfold load. rewrite E. reflexivity. Qed.

Lemma store_run (l : loc) (a b : ndarray) (h : heap) :
  h !! l = Some a -> store l b h = Ok (tt, <[l := b]> h).
Proof. intros E. unfold store. rewrite E. reflexivity. Qed.

Lemma lookup_new (h l : heap) (i : nat) :
  (h ++ l) !! (length h + i)%nat = l !! i.
Proof. rewrite lookup_app_r by lia. f_equal. lia. Qed.

Lemma lookup_old (h l : heap) (i : nat) (a : ndarray) :
  h !! i = Some a -> (h ++ l) !! i = Some a.
Proof. intros E. rewrite lookup_app_l; [exact E|]. eapply lookup_lt_Some, E. Qed.

Lemma insert_new (h l : heap) (i : nat) (a : ndarray) :
  <[(length h + i)%nat := a]> (h ++ l) = h ++ <[i := a]> l.
Proof. rewrite insert_app_r_alt by lia. do 2 f_equal. lia. Qed.

Section Run.
Context {cv : cv2}.

(** Steps of a run whose store is [h] followed by the arrays [l]
    allocated so far. *)
Lemma alloc_step (f : ndarray -> ndarray) (src : loc) (a : ndarray)
    (h l : heap) :
  (h ++ l) !! src = Some a ->
  (x ← load src; alloc (f x)) (h ++ l)
  = Ok ((length h + length l)%nat, h ++ (l ++ [f a])).
Proof.
  intros E. erewrite bind_run by (apply load_run, E).
  unfold alloc. rewrite length_app, app_assoc. reflexivity.
Qed.

Lemma alloc2_step (f : ndarray -> ndarray -> ndarray) (src1 src2 : loc)
    (a b : ndarray) (h l : heap) :
  (h ++ l) !! src1 = Some a ->
  (h ++ l) !! src2 = Some b ->
  (x ← load src1; y ← load src2; alloc (f x y)) (h ++ l)
  = Ok ((length h + length l)%nat, h ++ (l ++ [f a b])).
Proof.
  intros E1 E2. erewrite bind_run by (apply load_run, E1).
  erewrite bind_run by (apply load_run, E2).
  unfold alloc. rewrite length_app, app_assoc. reflexivity.
Qed.

Lemma read_step {A} (f : ndarray -> A) (src : loc) (a : ndarray)
    (h l : heap) :
  (h ++ l) !! src = Some a ->
  (x ← load src; mret (f x)) (h ++ l) = Ok (f a, h ++ l).
Proof. intros E. erewrite bind_run by (apply load_run, E). reflexivity. Qed.

Lemma paint_step (region : Z -> Z -> bool) (color : Pixel) (k : nat)
    (a : ndarray) (h l : heap) :
  l !! k = Some a ->
  (x ← load (length h + k)%nat;
   store (length h + k)%nat (paint region color x)) (h ++ l)
  = Ok (tt, h ++ <[k := paint region color a]> l).
Proof.
  intros E. assert (E' : (h ++ l) !! (length h + k)%nat = Some a)
    by (rewrite lookup_new; exact E).
  erewrite bind_run by (apply load_run, E').
  erewrite store_run by exact E'. rewrite insert_new. reflexivity.
Qed.

(** The loop that draws the lines amounts to one update of the array. *)
Lemma draw_lines_run (r : loc) (ls : list LineSegment) :
  forall (a : ndarray) (h : heap),
    h !! r = Some a ->
    for_each ls (fun '(x1, y1, x2, y2) =>
                   cv2_line r (x1, y1) (x2, y2) [0; 255; 0] 2) h
    = Ok (tt, <[r := foldl draw_line a ls]> h).
Proof.
  induction ls as [|[[[x1 y1] x2] y2] ls IH]; intros a h E;
    cbn [for_each foldl].
  - rewrite list_insert_id by exact E. reflexivity.
  - assert (S1 : cv2_line r (x1, y1) (x2, y2) [0; 255; 0] 2 h
                 = Ok (tt, <[r := draw_line a (x1, y1, x2, y2)]> h)).
    { unfold cv2_line. erewrite bind_run by (apply load_run, E).
      eapply store_run, E. }
    erewrite bind_run by exact S1.
    rewrite (IH (draw_line a (x1, y1, x2, y2))).
    + rewrite list_insert_insert_eq. reflexivity.
    + apply list_lookup_insert_eq. eapply lookup_lt_Some, E.
Qed.

Lemma draw_lines_step (k : nat) (lines : option (list LineSegment))
    (a : ndarray) (h l : heap) :
  l !! k = Some a ->
  match lines with
  | Some ls =>
      for_each ls (fun '(x1, y1, x2, y2) =>
        cv2_line (length h + k)%nat (x1, y1) (x2, y2) [0; 255; 0] 2)
  | None => (mret tt : M unit)
  end (h ++ l)
  = Ok (tt, h ++ <[k := foldl draw_line a (default [] lines)]> l).
Proof.
  intros E. destruct lines as [ls|]; simpl.
  - rewrite (draw_lines_run _ ls a); [rewrite insert_new; reflexivity|].
    rewrite lookup_new. exact E.
  - rewrite list_insert_id by exact E. reflexivity.
Qed.

Lemma truediv_100_run (a : Z) (h : heap) :
  finite (truediv a 100) = true ->
  (py_int <$> py_truediv a 100) h = Ok (py_int (truediv a 100), h).
Proof.
  intros F. unfold fmap, M_fmap, py_truediv. cbn [Z.eqb]. rewrite F.
  reflexivity.
Qed.

Lemma truediv_100_overflow (a : Z) (h : heap) :
  finite (truediv a 100) = false ->
  (py_int <$> py_truediv a 100) h = Raise OverflowError.
Proof.
  intros F. unfold fmap, M_fmap, py_truediv. cbn [Z.eqb]. rewrite F.
  reflexivity.
Qed.

Lemma Canny_step (src : loc) (a : ndarray) (lo hi : Z) (h l : heap) :
  fits_double lo = true -> fits_double hi = true ->
  (h ++ l) !! src = Some a ->
  cv2_Canny src lo hi (h ++ l)
  = Ok ((length h + length l)%nat, h ++ (l ++ [Canny a lo hi])).
Proof.
  intros Flo Fhi E. unfold cv2_Canny. rewrite Flo, Fhi.
  exact (alloc_step (fun x => Canny x lo hi) src a h l E).
Qed.

Lemma HoughLinesP_step (img : loc) (a : ndarray) (rho : Z) (theta : float)
    (threshold minLineLength maxLineGap : Z) (h l : heap) :
  fits_int threshold = true ->
  fits_double minLineLength = true -> fits_double maxLineGap = true ->
  (h ++ l) !! img = Some a ->
  cv2_HoughLinesP img rho theta threshold minLineLength maxLineGap (h ++ l)
  = Ok (HoughLinesP a rho theta threshold minLineLength maxLineGap, h ++ l).
Proof.
  intros Ft Fm Fg E. unfold cv2_HoughLinesP. rewrite Ft, Fm, Fg.
  exact (read_step
           (fun x => HoughLinesP x rho theta threshold minLineLength
                       maxLineGap) img a h l E).
Qed.

Lemma vertices_run (H W p : Z) (h : heap) :
  fits_int H = true -> fits_int W = true -> fits_int p = true ->
  np_array_int32 [ (0, H); (0, p); (W, p); (W, H) ] h
  = Ok ([ (0, H); (0, p); (W, p); (W, H) ], h).
Proof.
  intros FH FW Fp. unfold np_array_int32. cbn [forallb].
  rewrite FH, FW, Fp. reflexivity.
Qed.

Lemma accepts_inv (H W cl ch ht hl hg rt rb : Z) :
  accepts H W cl ch ht hl hg rt rb = true ->
  fits_double cl = true /\ fits_double ch = true /\
  finite (truediv (H * rt) 100) = true /\
  finite (truediv (H * rb) 100) = true /\
  fits_int H = true /\ fits_int W = true /\
  fits_int (py_int (truediv (H * rt) 100)) = true /\
  fits_int ht = true /\ fits_double hl = true /\ fits_double hg = true.
Proof.
  unfold accepts. intros A.
  repeat (apply andb_prop in A as [A ?]). repeat split; assumption.
Qed.

(** Symbolic execution of [detect_lanes]. *)
Lemma detect_lanes_body_run (self : LaneDetector)
    (canny_low canny_high hough_threshold hough_min_length hough_max_gap
     roi_top roi_bottom : Z) (h : heap) (img : ndarray) :
  h !! original_image self = Some img ->
  let n := length h in
  let edges := edge_map img canny_low canny_high in
  let vertices :=
    roi_vertices (fst (np_shape edges)) (snd (np_shape edges)) roi_top in
  let mask := roi_mask_of edges roi_top in
  let lines := lines_of edges hough_threshold hough_min_length
                 hough_max_gap roi_top in
  accepts (fst (np_shape edges)) (snd (np_shape edges)) canny_low canny_high
    hough_threshold hough_min_length hough_max_gap roi_top roi_bottom
  = true ->
  detect_lanes_body self canny_low canny_high hough_threshold
    hough_min_length hough_max_gap roi_top roi_bottom h
  = Ok ({| f_gray := n; f_blurred := n + 1; f_edges := n + 2;
           f_roi_mask := n + 3;
           f_roi_top_pixel :=
             py_int (truediv (fst (np_shape edges) * roi_top) 100);
           f_vertices := vertices; f_edges_roi := n + 4;
           f_lines := lines; f_result_image := n + 5 |}%nat,
        h ++ [ cvtColor_BGR2GRAY img;
               GaussianBlur (cvtColor_BGR2GRAY img) (5, 5) 0;
               edges; mask; bitwise_and edges mask;
               annotated img vertices lines ]).
Proof.
  intros E n edges vertices mask lines A.
  apply accepts_inv in A
    as (Fcl & Fch & Frt & Frb & FH & FW & Fp & Fht & Fhl & Fhg).
  unfold detect_lanes_body.
  rewrite <- (app_nil_r h) at 1.
  unfold cv2_cvtColor.
  erewrite bind_run by (apply alloc_step, lookup_old, E).
  cbn [length app]. unfold cv2_GaussianBlur.
  erewrite bind_run by (apply alloc_step; rewrite lookup_new; reflexivity).
  cbn [length app].
  erewrite bind_run
    by (apply Canny_step; [exact Fcl|exact Fch|rewrite lookup_new; reflexivity]).
  cbn [length app]. unfold shape_of.
  erewrite bind_run by (apply read_step; rewrite lookup_new; reflexivity).
  fold (edge_map img canny_low canny_high). fold edges.
  destruct (np_shape edges) as [height width] eqn:Es. cbn [fst snd] in *.
  unfold zeros_like.
  erewrite bind_run by (apply alloc_step; rewrite lookup_new; reflexivity).
  cbn [length app].
  erewrite bind_run by (apply truediv_100_run, Frt).
  erewrite bind_run by (apply truediv_100_run, Frb).
  erewrite bind_run by (apply vertices_run; assumption).
  unfold cv2_fillPoly.
  erewrite bind_run by (apply paint_step; reflexivity).
  cbn [list_insert insert]. unfold cv2_bitwise_and.
  erewrite bind_run
    by (apply alloc2_step; rewrite lookup_new; reflexivity).
  cbn [length app].
  erewrite bind_run
    by (apply HoughLinesP_step;
        [exact Fht|exact Fhl|exact Fhg|rewrite lookup_new; reflexivity]).
  unfold copy.
  erewrite bind_run by (apply alloc_step, lookup_old, E).
  cbn [length app].
  erewrite bind_run by (apply draw_lines_step; reflexivity).
  unfold cv2_polylines.
  erewrite bind_run by (apply paint_step; reflexivity).
  cbn [list_insert insert].
  subst n vertices mask lines. unfold lines_of, roi_mask_of, annotated,
    draw_outline, roi_vertices. rewrite ?Es. cbn [fst snd].
  rewrite Nat.add_0_r. reflexivity.
Qed.

Lemma detect_lanes_run (self : LaneDetector)
    (canny_low canny_high hough_threshold hough_min_length hough_max_gap
     roi_top roi_bottom : Z) (h : heap) (img : ndarray) :
  h !! original_image self = Some img ->
  let edges := edge_map img canny_low canny_high in
  let lines := lines_of edges hough_threshold hough_min_length
                 hough_max_gap roi_top in
  accepts (fst (np_shape edges)) (snd (np_shape edges)) canny_low canny_high
    hough_threshold hough_min_length hough_max_gap roi_top roi_bottom
  = true ->
  detect_lanes self canny_low canny_high hough_threshold
    hough_min_length hough_max_gap roi_top roi_bottom h
  = Ok ((length h + 5, length h + 2, lines)%nat,
        h ++ [ cvtColor_BGR2GRAY img;
               GaussianBlur (cvtColor_BGR2GRAY img) (5, 5) 0;
               edges; roi_mask_of edges roi_top;
               bitwise_and edges (roi_mask_of edges roi_top);
               annotated img
                 (roi_vertices (fst (np_shape edges)) (snd (np_shape edges))
                               roi_top)
                 lines ]).
Proof.
  intros E edges lines A. unfold detect_lanes.
  erewrite bind_run by (apply detect_lanes_body_run; [exact E|exact A]).
  reflexivity.
Qed.
Lemma Canny_reject (src : loc) (lo hi : Z) (h : heap) :
  fits_double lo && fits_double hi = false ->
  cv2_Canny src lo hi h = Raise cv2_error.
Proof.
  intros F. unfold cv2_Canny.
  destruct (fits_double lo); [destruct (fits_double hi); [discriminate|]|];
    reflexivity.
Qed.

Lemma HoughLinesP_reject (img : loc) (rho : Z) (theta : float)
    (threshold minLineLength maxLineGap : Z) (h : heap) :
  fits_int threshold && fits_double minLineLength
  && fits_double maxLineGap = false ->
  cv2_HoughLinesP img rho theta threshold minLineLength maxLineGap h
  = Raise cv2_error.
Proof.
  intros F. unfold cv2_HoughLinesP.
  destruct (fits_int threshold); [|reflexivity].
  destruct (fits_double minLineLength); [|reflexivity].
  destruct (fits_double maxLineGap); [discriminate|reflexivity].
Qed.

Lemma vertices_reject (H W p : Z) (h : heap) :
  fits_int H && fits_int W && fits_int p = false ->
  np_array_int32 [ (0, H); (0, p); (W, p); (W, H) ] h = Raise OverflowError.
Proof.
  intros F. unfold np_array_int32. cbn [forallb].
  destruct (fits_int H), (fits_int W), (fits_int p); try discriminate;
    reflexivity.
Qed.

(** The three groups of conversions of [detect_lanes], in the order in
    which the code meets them. *)
Lemma accepts_groups (H W cl ch ht hl hg rt rb : Z) :
  accepts H W cl ch ht hl hg rt rb
  = (fits_double cl && fits_double ch)
    && (finite (truediv (H * rt) 100) && finite (truediv (H * rb) 100)
        && (fits_int H && fits_int W
            && fits_int (py_int (truediv (H * rt) 100))))
    && (fits_int ht && fits_double hl && fits_double hg).
Proof.
  unfold accepts.
  destruct (fits_double cl), (fits_double ch),
    (finite (truediv (H * rt) 100)), (finite (truediv (H * rb) 100)),
    (fits_int H), (fits_int W), (fits_int (py_int (truediv (H * rt) 100))),
    (fits_int ht), (fits_double hl), (fits_double hg); reflexivity.
Qed.

Section Rejections.
Context (self : LaneDetector)
  (canny_low canny_high hough_threshold hough_min_length hough_max_gap
   roi_top roi_bottom : Z) (h : heap) (img : ndarray) (H W : Z)
  (E : h !! original_image self = Some img)
  (Es : np_shape (edge_map img canny_low canny_high) = (H, W)).

(** A Canny threshold that is no C double: [cv2.Canny] raises. *)
Lemma detect_lanes_body_reject_canny :
  fits_double canny_low && fits_double canny_high = false ->
  detect_lanes_body self canny_low canny_high hough_threshold
    hough_min_length hough_max_gap roi_top roi_bottom h = Raise cv2_error.
Proof.
  intros F. unfold detect_lanes_body.
  rewrite <- (app_nil_r h) at 1. unfold cv2_cvtColor.
  erewrite bind_run by (apply alloc_step, lookup_old, E).
  cbn [length app]. unfold cv2_GaussianBlur.
  erewrite bind_run by (apply alloc_step; rewrite lookup_new; reflexivity).
  apply bind_raise, Canny_reject, F.
Qed.

(** A row that overflows the floats or [int32]: lines 63-71 raise. *)
Lemma detect_lanes_body_reject_overflow :
  fits_double canny_low && fits_double canny_high = true ->
  finite (truediv (H * roi_top) 100) && finite (truediv (H * roi_bottom) 100)
  && (fits_int H && fits_int W
      && fits_int (py_int (truediv (H * roi_top) 100))) = false ->
  detect_lanes_body self canny_low canny_high hough_threshold
    hough_min_length hough_max_gap roi_top roi_bottom h
  = Raise OverflowError.
Proof.
  intros C F. apply andb_prop in C as [Fcl Fch]. unfold detect_lanes_body.
  rewrite <- (app_nil_r h) at 1. unfold cv2_cvtColor.
  erewrite bind_run by (apply alloc_step, lookup_old, E).
  cbn [length app]. unfold cv2_GaussianBlur.
  erewrite bind_run by (apply alloc_step; rewrite lookup_new; reflexivity).
  cbn [length app].
  erewrite bind_run
    by (apply Canny_step; [exact Fcl|exact Fch|rewrite lookup_new; reflexivity]).
  cbn [length app]. unfold shape_of.
  erewrite bind_run by (apply read_step; rewrite lookup_new; reflexivity).
  fold (edge_map img canny_low canny_high). rewrite Es.
  unfold zeros_like.
  erewrite bind_run by (apply alloc_step; rewrite lookup_new; reflexivity).
  cbn [length app].
  destruct (finite (truediv (H * roi_top) 100)) eqn:Frt;
    [|apply bind_raise, truediv_100_overflow, Frt].
  erewrite bind_run by (apply truediv_100_run, Frt).
  destruct (finite (truediv (H * roi_bottom) 100)) eqn:Frb;
    [|apply bind_raise, truediv_100_overflow, Frb].
  erewrite bind_run by (apply truediv_100_run, Frb).
  apply bind_raise, vertices_reject, F.
Qed.

(** A Hough argument that is no C int, respectively no C double:
    [cv2.HoughLinesP] raises. *)
Lemma detect_lanes_body_reject_hough :
  fits_double canny_low && fits_double canny_high = true ->
  finite (truediv (H * roi_top) 100) && finite (truediv (H * roi_bottom) 100)
  && (fits_int H && fits_int W
      && fits_int (py_int (truediv (H * roi_top) 100))) = true ->
  fits_int hough_threshold && fits_double hough_min_length
  && fits_double hough_max_gap = false ->
  detect_lanes_body self canny_low canny_high hough_threshold
    hough_min_length hough_max_gap roi_top roi_bottom h = Raise cv2_error.
Proof.
  intros C O F. apply andb_prop in C as [Fcl Fch].
  apply andb_prop in O as [O I]. apply andb_prop in O as [Frt Frb].
  apply andb_prop in I as [I Fp]. apply andb_prop in I as [FH FW].
  unfold detect_lanes_body.
  rewrite <- (app_nil_r h) at 1. unfold cv2_cvtColor.
  erewrite bind_run by (apply alloc_step, lookup_old, E).
  cbn [length app]. unfold cv2_GaussianBlur.
  erewrite bind_run by (apply alloc_step; rewrite lookup_new; reflexivity).
  cbn [length app].
  erewrite bind_run
    by (apply Canny_step; [exact Fcl|exact Fch|rewrite lookup_new; reflexivity]).
  cbn [length app]. unfold shape_of.
  erewrite bind_run by (apply read_step; rewrite lookup_new; reflexivity).
  fold (edge_map img canny_low canny_high). rewrite Es.
  unfold zeros_like.
  erewrite bind_run by (apply alloc_step; rewrite lookup_new; reflexivity).
  cbn [length app].
  erewrite bind_run by (apply truediv_100_run, Frt).
  erewrite bind_run by (apply truediv_100_run, Frb).
  erewrite bind_run by (apply vertices_run; assumption).
  unfold cv2_fillPoly.
  erewrite bind_run by (apply paint_step; reflexivity).
  cbn [list_insert insert]. unfold cv2_bitwise_and.
  erewrite bind_run
    by (apply alloc2_step; rewrite lookup_new; reflexivity).
  cbn [length app].
  apply bind_raise, HoughLinesP_reject, F.
Qed.

(** Arguments that are not accepted make [detect_lanes] raise. *)
Lemma detect_lanes_body_rejects :
  accepts H W canny_low canny_high hough_threshold hough_min_length
    hough_max_gap roi_top roi_bottom = false ->
  detect_lanes_body self canny_low canny_high hough_threshold
    hough_min_length hough_max_gap roi_top roi_bottom h = Raise OverflowError
  \/
  detect_lanes_body self canny_low canny_high hough_threshold
    hough_min_length hough_max_gap roi_top roi_bottom h = Raise cv2_error.
Proof.
  rewrite accepts_groups. intros A.
  destruct (fits_double canny_low && fits_double canny_high) eqn:C;
    [|right; apply detect_lanes_body_reject_canny; exact C].
  destruct (finite (truediv (H * roi_top) 100)
            && finite (truediv (H * roi_bottom) 100)
            && (fits_int H && fits_int W
                && fits_int (py_int (truediv (H * roi_top) 100)))) eqn:O;
    [|left; apply detect_lanes_body_reject_overflow; [exact C|exact O]].
  right. apply detect_lanes_body_reject_hough; [exact C|exact O|exact A].
Qed.

(** So a call that returns was given accepted arguments. *)
Lemma detect_lanes_body_ok_inv (fr : frame) (h' : heap) :
  detect_lanes_body self canny_low canny_high hough_threshold
    hough_min_length hough_max_gap roi_top roi_bottom h = Ok (fr, h') ->
  accepts H W canny_low canny_high hough_threshold hough_min_length
    hough_max_gap roi_top roi_bottom = true.
Proof.
  intros R.
  destruct (accepts H W canny_low canny_high hough_threshold
              hough_min_length hough_max_gap roi_top roi_bottom) eqn:A;
    [reflexivity|].
  destruct (detect_lanes_body_rejects A) as [X|X]; rewrite X in R;
    discriminate R.
Qed.

End Rejections.

Lemma detect_lanes_ok_inv (self : LaneDetector)
    (canny_low canny_high hough_threshold hough_min_length hough_max_gap
     roi_top roi_bottom : Z) (h : heap)
    (out : loc * loc * option (list LineSegment)) (h' : heap) :
  detect_lanes self canny_low canny_high hough_threshold
    hough_min_length hough_max_gap roi_top roi_bottom h = Ok (out, h') ->
  exists fr,
    detect_lanes_body self canny_low canny_high hough_threshold
      hough_min_length hough_max_gap roi_top roi_bottom h = Ok (fr, h') /\
    out = (f_result_image fr, f_edges fr, f_lines fr).
Proof.
  unfold detect_lanes, mbind, M_bind.
  destruct (detect_lanes_body _ _ _ _ _ _ _ _ h) as [[fr h1]|e];
    [|discriminate].
  intros R. injection R as <- <-. exists fr. split; reflexivity.
Qed.

Lemma edge_map_shape (Hcv : cv2_contract cv) (img : ndarray) (lo hi : Z) :
  np_shape (edge_map img lo hi) = np_shape img.
Proof.
  unfold edge_map. rewrite Canny_shape, GaussianBlur_shape, cvtColor_shape.
  reflexivity.
Qed.
End Run.

(* ===================================================================== *)
(** * The claims                                                          *)
(* ===================================================================== *)

Lemma np_shape_map (f : list Pixel -> list Pixel) (a : ndarray) :
  (forall row, length (f row) = length row) ->
  np_shape (map f a) = np_shape a.
Proof.
  intros Hf. unfold np_shape. rewrite length_map. f_equal.
  destruct a as [|r a]; simpl; [reflexivity|]. rewrite Hf. reflexivity.
Qed.

Lemma Demo_contract : cv2_contract Demo.lib.
Proof.
  split; simpl.
  - intros a. apply np_shape_map. intros row. apply length_map.
  - reflexivity.
  - intros a lo hi. apply np_shape_map. intros row.
    rewrite length_zip_with. simpl. lia.
  - intros a w h Ha Hw Hh. unfold Demo.resize.
    destruct (Z.leb_spec w 0); [lia|]. destruct (Z.leb_spec h 0); [lia|].
    simpl. destruct a as [|r0 a]; [congruence|].
    eexists. split; [reflexivity|]. unfold np_shape.
    rewrite length_map, length_seq.
    destruct (Z.to_nat h) eqn:Eh; [lia|]. cbn [seq map hd].
    rewrite length_map, length_seq. f_equal; lia.
  - intros a w h Hwh. unfold Demo.resize.
    destruct (Z.leb_spec w 0); [reflexivity|].
    destruct (Z.leb_spec h 0); [reflexivity|]. lia.
Qed.

Section Claims.
Context {cv : cv2}.

Lemma info_text_none (lines : option (list LineSegment)) :
  lines = None \/ lines = Some [] ->
  Tuner.info_text lines = [Lines_detected 0].
Proof. intros [-> | ->]; reflexivity. Qed.

Lemma accepts_edges (Hcv : cv2_contract cv) (img : ndarray)
    (H W cl ch ht hl hg rt rb : Z) :
  np_shape img = (H, W) ->
  accepts H W cl ch ht hl hg rt rb = true ->
  accepts (fst (np_shape (edge_map img cl ch)))
          (snd (np_shape (edge_map img cl ch))) cl ch ht hl hg rt rb = true.
Proof. intros Hs A. rewrite (edge_map_shape Hcv), Hs. exact A. Qed.

(** C1 (as amended).  Given arguments it accepts, [detect_lanes] returns,
    and its lines component is what [HoughLinesP] returned for the masked
    edge map, unchanged: when no segment is found this is [None] or an
    empty sequence, and the caller reports zero lines for both. *)
Theorem detect_lanes_lines_passthrough (Hcv : cv2_contract cv)
    (self : LaneDetector)
    (canny_low canny_high hough_threshold hough_min_length hough_max_gap
     roi_top roi_bottom : Z) (h : heap) (img : ndarray) (H W : Z) :
  h !! original_image self = Some img ->
  np_shape img = (H, W) ->
  accepts H W canny_low canny_high hough_threshold hough_min_length
    hough_max_gap roi_top roi_bottom = true ->
  let edges := edge_map img canny_low canny_high in
  let found :=
    HoughLinesP (bitwise_and edges (roi_mask_of edges roi_top))
      1 (fdiv_int np_pi 180) hough_threshold hough_min_length hough_max_gap in
  exists result_image edges_ref h',
    detect_lanes self canny_low canny_high hough_threshold hough_min_length
      hough_max_gap roi_top roi_bottom h
    = Ok ((result_image, edges_ref, found), h') /\
    (found = None \/ found = Some [] ->
     Tuner.info_text found = [Lines_detected 0]).
Proof.
  intros E Hs A edges found.
  eexists _, _, _. split.
  - rewrite (detect_lanes_run _ _ _ _ _ _ _ _ _ _ E
               (accepts_edges Hcv _ _ _ _ _ _ _ _ _ _ Hs A)).
    reflexivity.
  - apply info_text_none.
Qed.

Lemma accepts_roi_bottom (H W cl ch ht hl hg rt rb rb' : Z) :
  finite (truediv (H * rb) 100) = true ->
  finite (truediv (H * rb') 100) = true ->
  accepts H W cl ch ht hl hg rt rb = accepts H W cl ch ht hl hg rt rb'.
Proof. intros F F'. unfold accepts. rewrite F, F'. reflexivity. Qed.

(** C2 (as amended).  [roi_bottom] is used in the division of line 64 and
    nowhere else: two calls that differ in [roi_bottom] alone, both values
    keeping [height * roi_bottom / 100] within the floats, have the same
    outcome, be it the same error or the same locals (vertices, mask,
    lines, result) and the same store; and if one set of arguments is
    accepted the call with the other returns. *)
Theorem roi_bottom_unused (Hcv : cv2_contract cv) (self : LaneDetector)
    (canny_low canny_high hough_threshold hough_min_length hough_max_gap
     roi_top roi_bottom roi_bottom' : Z) (h : heap) (img : ndarray)
    (H W : Z) :
  h !! original_image self = Some img ->
  np_shape img = (H, W) ->
  finite (truediv (H * roi_bottom) 100) = true ->
  finite (truediv (H * roi_bottom') 100) = true ->
  detect_lanes_body self canny_low canny_high hough_threshold
    hough_min_length hough_max_gap roi_top roi_bottom h
  = detect_lanes_body self canny_low canny_high hough_threshold
      hough_min_length hough_max_gap roi_top roi_bottom' h
  /\
  detect_lanes self canny_low canny_high hough_threshold
    hough_min_length hough_max_gap roi_top roi_bottom h
  = detect_lanes self canny_low canny_high hough_threshold
      hough_min_length hough_max_gap roi_top roi_bottom' h
  /\
  (accepts H W canny_low canny_high hough_threshold hough_min_length
     hough_max_gap roi_top roi_bottom = true ->
   exists fr h',
     detect_lanes_body self canny_low canny_high hough_threshold
       hough_min_length hough_max_gap roi_top roi_bottom' h = Ok (fr, h')).
Proof.
  intros E Hs F F'.
  assert (Es : np_shape (edge_map img canny_low canny_high) = (H, W))
    by (rewrite (edge_map_shape Hcv); exact Hs).
  pose proof (accepts_roi_bottom H W canny_low canny_high hough_threshold
                hough_min_length hough_max_gap roi_top _ _ F F') as EA.
  assert (B : detect_lanes_body self canny_low canny_high hough_threshold
                hough_min_length hough_max_gap roi_top roi_bottom h
              = detect_lanes_body self canny_low canny_high hough_threshold
                  hough_min_length hough_max_gap roi_top roi_bottom' h).
  { destruct (fits_double canny_low && fits_double canny_high) eqn:C.
    2:{ rewrite !(detect_lanes_body_reject_canny _ _ _ _ _ _ _ _ _ _ E C).
        reflexivity. }
    destruct (finite (truediv (H * roi_top) 100) && true
              && (fits_int H && fits_int W
                  && fits_int (py_int (truediv (H * roi_top) 100)))) eqn:O.
    2:{ rewrite (detect_lanes_body_reject_overflow _ _ _ _ _ _ _ roi_bottom
                   _ _ _ _ E Es C) by (rewrite F; exact O).
        rewrite (detect_lanes_body_reject_overflow _ _ _ _ _ _ _ roi_bottom'
                   _ _ _ _ E Es C) by (rewrite F'; exact O).
        reflexivity. }
    destruct (fits_int hough_threshold && fits_double hough_min_length
              && fits_double hough_max_gap) eqn:G.
    2:{ rewrite (detect_lanes_body_reject_hough _ _ _ _ _ _ _ roi_bottom
                   _ _ _ _ E Es C) by (rewrite ?F; assumption).
        rewrite (detect_lanes_body_reject_hough _ _ _ _ _ _ _ roi_bottom'
                   _ _ _ _ E Es C) by (rewrite ?F'; assumption).
        reflexivity. }
    assert (A : accepts H W canny_low canny_high hough_threshold
                  hough_min_length hough_max_gap roi_top roi_bottom = true).
    { rewrite accepts_groups, C, F, O, G. reflexivity. }
    rewrite (detect_lanes_body_run _ _ _ _ _ _ _ roi_bottom _ _ E
               (accepts_edges Hcv _ _ _ _ _ _ _ _ _ _ Hs A)).
    rewrite EA in A.
    rewrite (detect_lanes_body_run _ _ _ _ _ _ _ roi_bottom' _ _ E
               (accepts_edges Hcv _ _ _ _ _ _ _ _ _ _ Hs A)).
    reflexivity. }
  split; [exact B|]. split.
  - unfold detect_lanes, mbind, M_bind. rewrite B. reflexivity.
  - intros A. rewrite EA in A. eexists _, _.
    apply (detect_lanes_body_run _ _ _ _ _ _ _ roi_bottom' _ _ E
             (accepts_edges Hcv _ _ _ _ _ _ _ _ _ _ Hs A)).
Qed.

(** C3 (as amended).  For a source image of height [H] and width [W] and
    accepted arguments, the mask is the polygon filled over the four
    vertices (0,H), (0,p), (W,p), (W,H), where p is the integer part of
    H*roi_top/100; for H = 720 and roi_top = 38, p = 273. *)
Theorem roi_trapezoid_vertices (Hcv : cv2_contract cv) (self : LaneDetector)
    (canny_low canny_high hough_threshold hough_min_length hough_max_gap
     roi_top roi_bottom : Z) (h : heap) (img : ndarray) (H W : Z) :
  h !! original_image self = Some img ->
  np_shape img = (H, W) ->
  accepts H W canny_low canny_high hough_threshold hough_min_length
    hough_max_gap roi_top roi_bottom = true ->
  let p := Z.quot (H * roi_top) 100 in
  exists fr h',
    detect_lanes_body self canny_low canny_high hough_threshold
      hough_min_length hough_max_gap roi_top roi_bottom h = Ok (fr, h') /\
    f_vertices fr = [ (0, H); (0, p); (W, p); (W, H) ] /\
    h' !! f_roi_mask fr
    = Some (paint (fillPoly_pixels [[ (0, H); (0, p); (W, p); (W, H) ]])
                  [255]
                  (np_zeros_like (edge_map img canny_low canny_high))) /\
    - 2 ^ 31 <= p < 2 ^ 31 /\
    (H = 720 -> roi_top = 38 -> p = 273).
Proof.
  intros E Hs A p.
  assert (Es : np_shape (edge_map img canny_low canny_high) = (H, W))
    by (rewrite (edge_map_shape Hcv); exact Hs).
  pose proof (accepts_inv _ _ _ _ _ _ _ _ _ A)
    as (_ & _ & _ & _ & _ & _ & Fp & _).
  pose proof (int32_truediv_100 _ Fp) as Hb.
  eexists _, _. split;
    [apply (detect_lanes_body_run _ _ _ _ _ _ _ _ _ _ E
              (accepts_edges Hcv _ _ _ _ _ _ _ _ _ _ Hs A))|].
  cbn [f_vertices f_roi_mask]. rewrite lookup_new. cbn [lookup list_lookup].
  unfold roi_mask_of, roi_vertices. rewrite Es. cbn [fst snd].
  rewrite int_truediv_100 in * by exact Hb. fold p. fold p in Fp.
  split; [reflexivity|]. split; [reflexivity|]. split.
  - unfold fits_int in Fp. apply andb_prop in Fp as [L U].
    apply Z.leb_le in L. apply Z.ltb_lt in U. split; assumption.
  - intros -> ->. reflexivity.
Qed.

End Claims.

Lemma detect_lanes_lines_passthrough_witness :
  exists result_image edges_ref h',
    detect_lanes (cv := Demo.lib)
      {| original_image := 0; image_path := "white50.png" |}
      50 150 1000 50 10 50 100 [Demo.blank 50 50]
    = Ok ((result_image, edges_ref, None), h') /\
    Tuner.info_text None = [Lines_detected 0].
Proof.
  destruct (detect_lanes_lines_passthrough (cv := Demo.lib) Demo_contract
              {| original_image := 0; image_path := "white50.png" |}
              50 150 1000 50 10 50 100 [Demo.blank 50 50] (Demo.blank 50 50)
              50 50) as (r & e & h' & Hrun & Hinfo).
  - reflexivity.
  - reflexivity.
  - vm_compute. reflexivity.
  - exists r, e, h'. split.
    + exact Hrun.
    + apply Hinfo. left. vm_compute. reflexivity.
Defined.

(** C1 as stated fails: on the blank 50x50 image with threshold 1000 no
    segment is found, [HoughLinesP] answers [None] (the case that lines
    87, 265 and 269 of the script test for), and the lines component of
    the result is that [None], not an empty sequence. *)
Lemma detect_lanes_returns_None :
  ~ (forall (cv : cv2) (self : LaneDetector)
       (canny_low canny_high hough_threshold hough_min_length hough_max_gap
        roi_top roi_bottom : Z) (h : heap) (img : ndarray),
       h !! original_image self = Some img ->
       (let found := lines_of (edge_map img canny_low canny_high)
                       hough_threshold hough_min_length hough_max_gap roi_top
        in found = None \/ found = Some []) ->
       exists result_image edges_ref h',
         detect_lanes self canny_low canny_high hough_threshold
           hough_min_length hough_max_gap roi_top roi_bottom h
         = Ok ((result_image, edges_ref, Some []), h')).
Proof.
  intros C.
  destruct (C Demo.lib {| original_image := 0; image_path := "white50.png" |}
              50 150 1000 50 10 50 100 [Demo.blank 50 50] (Demo.blank 50 50)
              eq_refl) as (r & e & h' & Hrun).
  - left. vm_compute. reflexivity.
  - assert (A : accepts 50 50 50 150 1000 50 10 50 100 = true)
      by (vm_compute; reflexivity).
    rewrite (detect_lanes_run (cv := Demo.lib)
               {| original_image := 0; image_path := "white50.png" |}
               50 150 1000 50 10 50 100
               [Demo.blank 50 50] (Demo.blank 50 50) eq_refl
               (accepts_edges (cv := Demo.lib) Demo_contract
                  (Demo.blank 50 50) 50 50 _ _ _ _ _ _ _ eq_refl A))
      in Hrun.
    assert (L : lines_of (cv := Demo.lib)
                  (edge_map (cv := Demo.lib) (Demo.blank 50 50) 50 150)
                  1000 50 10 50 = None) by (vm_compute; reflexivity).
    rewrite L in Hrun. discriminate Hrun.
Qed.

Lemma roi_bottom_unused_witness :
  detect_lanes (cv := Demo.lib)
    {| original_image := 0; image_path := "road.png" |}
    50 150 1 1 10 50 100 [Demo.striped 6 8]
  = detect_lanes (cv := Demo.lib)
      {| original_image := 0; image_path := "road.png" |}
      50 150 1 1 10 50 0 [Demo.striped 6 8]
  /\
  exists fr h',
    detect_lanes_body (cv := Demo.lib)
      {| original_image := 0; image_path := "road.png" |}
      50 150 1 1 10 50 0 [Demo.striped 6 8] = Ok (fr, h').
Proof.
  destruct (roi_bottom_unused (cv := Demo.lib) Demo_contract
              {| original_image := 0; image_path := "road.png" |}
              50 150 1 1 10 50 100 0 [Demo.striped 6 8] (Demo.striped 6 8)
              6 8) as (_ & D & R).
  - reflexivity.
  - reflexivity.
  - vm_compute. reflexivity.
  - vm_compute. reflexivity.
  - split; [exact D|]. apply R. vm_compute. reflexivity.
Defined.

(** C2 as stated fails: line 64 still divides [height * roi_bottom] by
    100, and for a [roi_bottom] of 10^400 the quotient is no float: the
    call raises [OverflowError], where the same call with [roi_bottom]
    100 returns. *)
Lemma roi_bottom_overflow :
  (exists fr h',
     detect_lanes_body (cv := Demo.lib)
       {| original_image := 0; image_path := "white50.png" |}
       50 150 50 50 10 50 100 [Demo.blank 50 50] = Ok (fr, h')) /\
  detect_lanes_body (cv := Demo.lib)
    {| original_image := 0; image_path := "white50.png" |}
    50 150 50 50 10 50 (10 ^ 400) [Demo.blank 50 50] = Raise OverflowError.
Proof.
  split.
  - eexists _, _.
    apply (detect_lanes_body_run (cv := Demo.lib)
             {| original_image := 0; image_path := "white50.png" |}
             50 150 50 50 10 50 100 [Demo.blank 50 50] (Demo.blank 50 50)
             eq_refl).
    vm_compute. reflexivity.
  - apply (detect_lanes_body_reject_overflow (cv := Demo.lib)
             {| original_image := 0; image_path := "white50.png" |}
             50 150 50 50 10 50 (10 ^ 400) [Demo.blank 50 50]
             (Demo.blank 50 50) 50 50 eq_refl).
    + vm_compute. reflexivity.
    + vm_compute. reflexivity.
    + vm_compute. reflexivity.
Qed.

Lemma roi_trapezoid_vertices_witness :
  exists fr h',
    detect_lanes_body (cv := Demo.lib)
      {| original_image := 0; image_path := "frame720.png" |}
      50 281 66 50 10 38 100 [Demo.striped 720 4] = Ok (fr, h') /\
    f_vertices fr = [ (0, 720); (0, 273); (4, 273); (4, 720) ].
Proof.
  destruct (roi_trapezoid_vertices (cv := Demo.lib) Demo_contract
              {| original_image := 0; image_path := "frame720.png" |}
              50 281 66 50 10 38 100 [Demo.striped 720 4]
              (Demo.striped 720 4) 720 4 eq_refl)
    as (fr & h' & Hrun & Hv & _).
  - vm_compute. reflexivity.
  - vm_compute. reflexivity.
  - exists fr, h'. split; [exact Hrun|exact Hv].
Defined.

(** C3 as stated fails: on a 50-row image a [roi_top] of 5000000000 puts
    the top row at 2500000000, which is no [int32]; building the vertex
    array raises [OverflowError] and there is no trapezoid. *)
Lemma roi_top_out_of_int32 :
  Z.quot (50 * 5000000000) 100 = 2500000000 /\
  detect_lanes_body (cv := Demo.lib)
    {| original_image := 0; image_path := "white50.png" |}
    50 150 50 50 10 5000000000 100 [Demo.blank 50 50] = Raise OverflowError.
Proof.
  split; [reflexivity|].
  apply (detect_lanes_body_reject_overflow (cv := Demo.lib)
           {| original_image := 0; image_path := "white50.png" |}
           50 150 50 50 10 5000000000 100 [Demo.blank 50 50]
           (Demo.blank 50 50) 50 50 eq_refl).
  - vm_compute. reflexivity.
  - vm_compute. reflexivity.
  - vm_compute. reflexivity.
Qed.

Section Ingest.
Context {cv : cv2}.

Lemma init_load_error (path : string) (h : heap) :
  imread path = None ->
  LaneDetector_init path h
  = Raise (ValueError ("Could not load image: " +:+ path)).
Proof. intros E. unfold LaneDetector_init. rewrite E. reflexivity. Qed.

Lemma init_small (path : string) (img : ndarray) (h : heap) (H W : Z) :
  imread path = Some img ->
  np_shape img = (H, W) ->
  W <= 1280 -> H <= 720 ->
  LaneDetector_init path h
  = Ok ({| original_image := length h; image_path := path |}, h ++ [img]).
Proof.
  intros E Hs HW HH. unfold LaneDetector_init. rewrite E.
  erewrite bind_run by reflexivity. rewrite Hs.
  destruct (Z.ltb_spec 1280 W); [lia|]. destruct (Z.ltb_spec 720 H); [lia|].
  reflexivity.
Qed.

Lemma init_large (path : string) (img : ndarray) (h : heap) (H W : Z) :
  imread path = Some img ->
  np_shape img = (H, W) ->
  1280 < W \/ 720 < H ->
  W <> 0 -> H <> 0 ->
  LaneDetector_init path h
  = match resize img (new_width W H, new_height W H) with
    | None => Raise cv2_error
    | Some img' =>
        Ok ({| original_image := length h + 1; image_path := path |},
            h ++ [img; img'])
    end.
Proof.
  intros E Hs Hbig HW HH. unfold LaneDetector_init. rewrite E.
  erewrite bind_run by reflexivity. rewrite Hs.
  assert (B : (1280 <? W) || (720 <? H) = true).
  { destruct Hbig as [Hb|Hb]; apply Z.ltb_lt in Hb; rewrite Hb;
      [reflexivity|apply orb_true_r]. }
  rewrite B. unfold py_truediv.
  destruct (Z.eqb_spec W 0); [contradiction|].
  destruct (Z.eqb_spec H 0); [contradiction|].
  rewrite (truediv_finite 1280 W), (truediv_finite 720 H)
    by (assumption || (pose proof pow2_1023_large; lia)).
  erewrite bind_run by reflexivity. erewrite bind_run by reflexivity.
  fold (scale W H). fold (new_width W H). fold (new_height W H).
  destruct (resize img (new_width W H, new_height W H)) as [img'|];
    [|reflexivity].
  unfold mbind, M_bind, alloc, mret, M_ret.
  rewrite length_app, <- app_assoc. reflexivity.
Qed.

(** C4 (as amended).  An image within 1280x720 is stored as loaded.  For
    a larger one, [__init__] asks [cv2.resize] for the size
    [int(width * s)] by [int(height * s)], [s = min(1280/width,
    720/height)], each side truncated, not rounded: it is the integer part
    of the exactly scaled side or one less, hence at most 1280
    respectively 720, and when both are positive the stored image has
    exactly that size. *)
Theorem init_downscale (Hcv : cv2_contract cv) (path : string)
    (img : ndarray) (h : heap) (H W : Z) :
  imread path = Some img ->
  np_shape img = (H, W) ->
  0 < W < 2 ^ 31 -> 0 < H < 2 ^ 31 ->
  (W <= 1280 /\ H <= 720 ->
   exists self h',
     LaneDetector_init path h = Ok (self, h') /\
     h' !! original_image self = Some img) /\
  (1280 < W \/ 720 < H ->
   let P := Z.min (1280 * H) (720 * W) in
   new_width W H <= 1280 /\ new_height W H <= 720 /\
   P / H - 1 <= new_width W H <= P / H /\
   P / W - 1 <= new_height W H <= P / W /\
   (0 < new_width W H -> 0 < new_height W H ->
    exists self h' img',
      LaneDetector_init path h = Ok (self, h') /\
      h' !! original_image self = Some img' /\
      np_shape img' = (new_height W H, new_width W H))).
Proof.
  intros E Hs HW HH. split.
  - intros [HW' HH']. eexists _, _. split.
    + apply (init_small path img h H W); assumption.
    + cbn [original_image]. apply list_lookup_middle. reflexivity.
  - intros Hbig P.
    pose proof (new_size_bounds W H HW HH) as [Bw Bh]. fold P in Bw, Bh.
    assert (HPh : P / H <= 1280).
    { apply Z.div_le_upper_bound; unfold P; lia. }
    assert (HPw : P / W <= 720).
    { apply Z.div_le_upper_bound; unfold P; lia. }
    repeat split; try lia.
    intros Pw Ph.
    assert (Hne : img <> []).
    { intros ->. unfold np_shape in Hs. simpl in Hs. inversion Hs. lia. }
    destruct (resize_shape img _ _ Hne Pw Ph) as (img' & Er & Es').
    exists {| original_image := length h + 1; image_path := path |},
           (h ++ [img; img']), img'.
    split; [|split; [|exact Es']].
    + rewrite (init_large path img h H W) by (assumption || lia).
      rewrite Er. reflexivity.
    + cbn [original_image]. rewrite lookup_new. reflexivity.
Qed.

(** C9 at the failing input: a decodable image one pixel wide and 721
    pixels tall is rejected, because the requested width is 0. *)
Theorem init_thin_image_raises (Hcv : cv2_contract cv) (path : string)
    (img : ndarray) (h : heap) :
  imread path = Some img ->
  np_shape img = (721, 1) ->
  new_width 1 721 = 0 /\
  LaneDetector_init path h = Raise cv2_error.
Proof.
  intros E Hs.
  assert (N : new_width 1 721 = 0) by (vm_compute; reflexivity).
  split; [exact N|].
  rewrite (init_large path img h 721 1) by (assumption || lia).
  rewrite resize_empty; [reflexivity|]. left. rewrite N. lia.
Qed.

End Ingest.

(** C4 as stated fails: the 4x1000 image scaled by 0.72 has width 2.88,
    which rounds to 3, and is stored 2 wide. *)
Lemma init_truncates :
  exists self h' img',
    LaneDetector_init (cv := Demo.lib) "strip.png" [] = Ok (self, h') /\
    h' !! original_image self = Some img' /\
    np_shape img' = (720, 2) /\
    (nearest_height 4 1000, nearest_width 4 1000) = (720, 3) /\
    np_shape img' <> (nearest_height 4 1000, nearest_width 4 1000).
Proof.
  pose proof (init_large (cv := Demo.lib) "strip.png" (Demo.blank 1000 4) []
                1000 4 eq_refl eq_refl ltac:(lia) ltac:(lia) ltac:(lia)) as R.
  replace (new_width 4 1000) with 2 in R by (vm_compute; reflexivity).
  replace (new_height 4 1000) with 720 in R by (vm_compute; reflexivity).
  destruct (@resize_shape Demo.lib Demo_contract (Demo.blank 1000 4) 2 720)
    as (img' & Er & Es); [discriminate|lia|lia|].
  rewrite Er in R.
  exists {| original_image := 1; image_path := "strip.png" |},
         [Demo.blank 1000 4; img'], img'.
  split; [exact R|]. split; [reflexivity|]. split; [exact Es|].
  split; [vm_compute; reflexivity|]. rewrite Es. vm_compute. discriminate.
Qed.

Lemma init_downscale_witness :
  exists self h' img',
    LaneDetector_init (cv := Demo.lib) "tall.png" [] = Ok (self, h') /\
    h' !! original_image self = Some img' /\
    np_shape img' = (720, 2).
Proof.
  destruct (init_downscale (cv := Demo.lib) Demo_contract "tall.png"
              (Demo.blank 800 3) [] 800 3 eq_refl eq_refl
              ltac:(lia) ltac:(lia)) as [_ Hbig].
  destruct (Hbig ltac:(lia)) as (_ & _ & _ & _ & Hex).
  apply Hex; vm_compute; reflexivity.
Defined.

Lemma init_thin_image_raises_witness :
  LaneDetector_init (cv := Demo.lib) "thin.png" [] = Raise cv2_error.
Proof.
  apply (init_thin_image_raises (cv := Demo.lib) Demo_contract "thin.png"
           (Demo.blank 721 1) [] eq_refl eq_refl).
Defined.

Section Pipeline.
Context {cv : cv2}.

Lemma pixel_paint (region : Z -> Z -> bool) (color : Pixel) (a : ndarray)
    (x y : nat) :
  pixel (paint region color a) x y
  = (fun p => if region (Z.of_nat x) (Z.of_nat y) then color else p)
      <$> pixel a x y.
Proof.
  unfold pixel, paint. rewrite list_lookup_imap.
  destruct (a !! y) as [row|]; [|reflexivity]. simpl.
  apply list_lookup_imap.
Qed.

(** C5.  Two calls in a row with the same arguments return the same
    lines, the same edge map and the same annotated image (the ones the
    pipeline computes from the source image and the arguments), and the
    second call leaves the arrays returned by the first as they were; with
    accepted arguments the first call does return. *)
Theorem detect_lanes_deterministic (Hcv : cv2_contract cv)
    (self : LaneDetector)
    (canny_low canny_high hough_threshold hough_min_length hough_max_gap
     roi_top roi_bottom : Z) (h : heap) (img : ndarray) (H W : Z) :
  h !! original_image self = Some img ->
  np_shape img = (H, W) ->
  (accepts H W canny_low canny_high hough_threshold hough_min_length
     hough_max_gap roi_top roi_bottom = true ->
   exists out1 h1,
     detect_lanes self canny_low canny_high hough_threshold hough_min_length
       hough_max_gap roi_top roi_bottom h = Ok (out1, h1)) /\
  (forall out1 h1,
     detect_lanes self canny_low canny_high hough_threshold hough_min_length
       hough_max_gap roi_top roi_bottom h = Ok (out1, h1) ->
     exists out2 h2 result edges lines,
       detect_lanes self canny_low canny_high hough_threshold
         hough_min_length hough_max_gap roi_top roi_bottom h1
       = Ok (out2, h2) /\
       deref h1 out1 = (Some result, Some edges, lines) /\
       deref h2 out2 = (Some result, Some edges, lines) /\
       deref h2 out1 = (Some result, Some edges, lines) /\
       edges = edge_map img canny_low canny_high /\
       lines = lines_of edges hough_threshold hough_min_length
                 hough_max_gap roi_top /\
       result = annotated img (roi_vertices H W roi_top) lines).
Proof.
  intros E Hs.
  assert (Es : np_shape (edge_map img canny_low canny_high) = (H, W))
    by (rewrite (edge_map_shape Hcv); exact Hs).
  split.
  - intros A. eexists _, _.
    apply (detect_lanes_run _ _ _ _ _ _ _ _ _ _ E
             (accepts_edges Hcv _ _ _ _ _ _ _ _ _ _ Hs A)).
  - intros out1 h1 R.
    destruct (detect_lanes_ok_inv _ _ _ _ _ _ _ _ _ _ _ R) as (fr & Rb & _).
    pose proof (detect_lanes_body_ok_inv _ _ _ _ _ _ _ _ _ _ _ _ E Es _ _ Rb)
      as A.
    pose proof (accepts_edges Hcv _ _ _ _ _ _ _ _ _ _ Hs A) as A'.
    pose proof (detect_lanes_run self canny_low canny_high hough_threshold
                  hough_min_length hough_max_gap roi_top roi_bottom h img E
                  A') as R1. cbv zeta in R1.
    rewrite Es in R1. cbn [fst snd] in R1.
    match type of R1 with _ = Ok (_, h ++ ?l) => set (new := l) in * end.
    rewrite R1 in R. injection R as <- <-.
    assert (E1 : (h ++ new) !! original_image self = Some img)
      by (apply lookup_old, E).
    pose proof (detect_lanes_run self canny_low canny_high hough_threshold
                  hough_min_length hough_max_gap roi_top roi_bottom
                  (h ++ new) img E1 A') as R2. cbv zeta in R2.
    rewrite Es in R2. cbn [fst snd] in R2. fold new in R2.
    eexists _, _, _, _, _.
    split; [exact R2|].
    unfold deref. rewrite !lookup_new.
    rewrite !(lookup_app_l (h ++ new) new)
      by (rewrite length_app; simpl; lia).
    rewrite !lookup_new. repeat split.
Qed.

(** C8.  When [detect_lanes] reaches its rendering stage (it does with
    accepted arguments), the lines, then the outline, are drawn on a copy:
    the source array is untouched, the result is the outline painted over
    the lines painted over the source, and with no line every pixel is
    either on the outline stroke, and blue, or as in the source. *)
Theorem rendering_order (Hcv : cv2_contract cv) (self : LaneDetector)
    (canny_low canny_high hough_threshold hough_min_length hough_max_gap
     roi_top roi_bottom : Z) (h : heap) (img : ndarray) (H W : Z) :
  h !! original_image self = Some img ->
  np_shape img = (H, W) ->
  (accepts H W canny_low canny_high hough_threshold hough_min_length
     hough_max_gap roi_top roi_bottom = true ->
   exists fr h',
     detect_lanes_body self canny_low canny_high hough_threshold
       hough_min_length hough_max_gap roi_top roi_bottom h = Ok (fr, h')) /\
  (forall fr h',
     detect_lanes_body self canny_low canny_high hough_threshold
       hough_min_length hough_max_gap roi_top roi_bottom h = Ok (fr, h') ->
     exists result,
       f_result_image fr <> original_image self /\
       h' !! original_image self = Some img /\
       h' !! f_result_image fr = Some result /\
       result
       = paint (polylines_pixels [f_vertices fr] true 2) [255; 0; 0]
           (foldl (fun a '(x1, y1, x2, y2) =>
                     paint (line_pixels (x1, y1) (x2, y2) 2) [0; 255; 0] a)
                  img (default [] (f_lines fr))) /\
       (f_lines fr = None \/ f_lines fr = Some [] ->
        forall x y : nat,
          pixel result x y
          = if polylines_pixels [f_vertices fr] true 2
                 (Z.of_nat x) (Z.of_nat y)
            then (fun _ => [255; 0; 0]) <$> pixel img x y
            else pixel img x y)).
Proof.
  intros E Hs.
  assert (Es : np_shape (edge_map img canny_low canny_high) = (H, W))
    by (rewrite (edge_map_shape Hcv); exact Hs).
  split.
  - intros A. eexists _, _.
    apply (detect_lanes_body_run _ _ _ _ _ _ _ _ _ _ E
             (accepts_edges Hcv _ _ _ _ _ _ _ _ _ _ Hs A)).
  - intros fr h' R.
    pose proof (detect_lanes_body_ok_inv _ _ _ _ _ _ _ _ _ _ _ _ E Es _ _ R)
      as A.
    rewrite (detect_lanes_body_run _ _ _ _ _ _ _ _ _ _ E
               (accepts_edges Hcv _ _ _ _ _ _ _ _ _ _ Hs A)) in R.
    injection R as <- <-.
    eexists. cbn [f_result_image f_vertices f_lines].
    split; [apply lookup_lt_Some in E; lia|].
    split; [apply lookup_old, E|].
    split; [rewrite lookup_new; reflexivity|].
    split.
    + reflexivity.
    + intros Hnone x y. unfold annotated, draw_outline.
      rewrite pixel_paint.
      assert (D : default [] (lines_of (edge_map img canny_low canny_high)
                    hough_threshold hough_min_length hough_max_gap roi_top)
                  = []) by (destruct Hnone as [-> | ->]; reflexivity).
      rewrite D. cbn [foldl].
      destruct (polylines_pixels _ _ _ _ _); [reflexivity|].
      destruct (pixel img x y); reflexivity.
Qed.

(** C10 (as amended).  With accepted arguments the edge map returned is
    the Canny output on the blurred grayscale image, before masking,
    whatever the other five parameters. *)
Theorem edges_unmasked (Hcv : cv2_contract cv) (self : LaneDetector)
    (canny_low canny_high : Z)
    (hough_threshold hough_min_length hough_max_gap roi_top roi_bottom : Z)
    (hough_threshold' hough_min_length' hough_max_gap' roi_top' roi_bottom'
     : Z) (h : heap) (img : ndarray) (H W : Z) :
  h !! original_image self = Some img ->
  np_shape img = (H, W) ->
  accepts H W canny_low canny_high hough_threshold hough_min_length
    hough_max_gap roi_top roi_bottom = true ->
  accepts H W canny_low canny_high hough_threshold' hough_min_length'
    hough_max_gap' roi_top' roi_bottom' = true ->
  let canny :=
    Canny (GaussianBlur (cvtColor_BGR2GRAY img) (5, 5) 0)
          canny_low canny_high in
  exists out h1 out' h1',
    detect_lanes self canny_low canny_high hough_threshold hough_min_length
      hough_max_gap roi_top roi_bottom h = Ok (out, h1) /\
    detect_lanes self canny_low canny_high hough_threshold' hough_min_length'
      hough_max_gap' roi_top' roi_bottom' h = Ok (out', h1') /\
    h1 !! snd (fst out) = Some canny /\
    h1' !! snd (fst out') = Some canny.
Proof.
  intros E Hs A A' canny.
  eexists _, _, _, _.
  split; [apply (detect_lanes_run _ _ _ _ _ _ _ _ _ _ E
                   (accepts_edges Hcv _ _ _ _ _ _ _ _ _ _ Hs A))|].
  split; [apply (detect_lanes_run _ _ _ _ _ _ _ _ _ _ E
                   (accepts_edges Hcv _ _ _ _ _ _ _ _ _ _ Hs A'))|].
  cbn [fst snd]. rewrite !lookup_new. split; reflexivity.
Qed.

End Pipeline.

Lemma detect_lanes_deterministic_witness :
  exists out1 h1 out2 h2,
    detect_lanes (cv := Demo.lib)
      {| original_image := 0; image_path := "road.png" |}
      50 150 1 1 10 50 100 [Demo.striped 6 8] = Ok (out1, h1) /\
    detect_lanes (cv := Demo.lib)
      {| original_image := 0; image_path := "road.png" |}
      50 150 1 1 10 50 100 h1 = Ok (out2, h2) /\
    deref h1 out1 = deref h2 out2.
Proof.
  destruct (detect_lanes_deterministic (cv := Demo.lib) Demo_contract
              {| original_image := 0; image_path := "road.png" |}
              50 150 1 1 10 50 100 [Demo.striped 6 8] (Demo.striped 6 8)
              6 8 eq_refl eq_refl) as [B A].
  destruct B as (out1 & h1 & R1); [vm_compute; reflexivity|].
  destruct (A out1 h1 R1) as (out2 & h2 & r & e & l & R2 & D1 & D2 & _).
  exists out1, h1, out2, h2. split; [exact R1|]. split; [exact R2|].
  rewrite D1, D2. reflexivity.
Defined.

Lemma rendering_order_witness :
  exists fr h' result,
    detect_lanes_body (cv := Demo.lib)
      {| original_image := 0; image_path := "white50.png" |}
      50 150 1000 50 10 50 100 [Demo.blank 50 50] = Ok (fr, h') /\
    f_lines fr = None /\
    f_vertices fr = [ (0, 50); (0, 25); (50, 25); (50, 50) ] /\
    h' !! 0%nat = Some (Demo.blank 50 50) /\
    h' !! f_result_image fr = Some result /\
    forall x y : nat,
      pixel result x y
      = if Demo.polylines_pixels [f_vertices fr] true 2
             (Z.of_nat x) (Z.of_nat y)
        then (fun _ => [255; 0; 0]) <$> pixel (Demo.blank 50 50) x y
        else pixel (Demo.blank 50 50) x y.
Proof.
  destruct (rendering_order (cv := Demo.lib) Demo_contract
              {| original_image := 0; image_path := "white50.png" |}
              50 150 1000 50 10 50 100 [Demo.blank 50 50] (Demo.blank 50 50)
              50 50 eq_refl eq_refl) as [_ A].
  assert (Acc : accepts 50 50 50 150 1000 50 10 50 100 = true)
    by (vm_compute; reflexivity).
  pose proof (detect_lanes_body_run (cv := Demo.lib)
                {| original_image := 0; image_path := "white50.png" |}
                50 150 1000 50 10 50 100 [Demo.blank 50 50]
                (Demo.blank 50 50) eq_refl
                (accepts_edges (cv := Demo.lib) Demo_contract
                   (Demo.blank 50 50) 50 50 _ _ _ _ _ _ _ eq_refl Acc))
    as R. cbv zeta in R.
  assert (L : lines_of (cv := Demo.lib)
                (edge_map (cv := Demo.lib) (Demo.blank 50 50) 50 150)
                1000 50 10 50 = None) by (vm_compute; reflexivity).
  assert (V : roi_vertices 50 50 50
              = [ (0, 50); (0, 25); (50, 25); (50, 50) ])
    by (vm_compute; reflexivity).
  destruct (A _ _ R) as (result & _ & Hsrc & Hres & _ & Hzero).
  eexists _, _, result. split; [exact R|].
  split; [exact L|]. split; [exact V|].
  split; [exact Hsrc|]. split; [exact Hres|].
  apply Hzero. left. exact L.
Defined.

Lemma edges_unmasked_witness :
  exists out h1,
    detect_lanes (cv := Demo.lib)
      {| original_image := 0; image_path := "road.png" |}
      50 150 1 1 10 50 100 [Demo.striped 6 8] = Ok (out, h1) /\
    h1 !! snd (fst out)
    = Some (Demo.Canny (Demo.GaussianBlur
                          (Demo.cvtColor_BGR2GRAY (Demo.striped 6 8))
                          (5, 5) 0) 50 150).
Proof.
  destruct (edges_unmasked (cv := Demo.lib) Demo_contract
              {| original_image := 0; image_path := "road.png" |}
              50 150 1 1 10 50 100 66 50 10 38 100
              [Demo.striped 6 8] (Demo.striped 6 8) 6 8 eq_refl eq_refl)
    as (out & h1 & _ & _ & R & _ & Hc & _).
  - vm_compute. reflexivity.
  - vm_compute. reflexivity.
  - exists out, h1. split; [exact R|exact Hc].
Defined.

(** C10 as stated fails: the edge map is not returned for every value of
    the other parameters.  With a [roi_top] of 10^400 line 63 raises
    [OverflowError] after the edge map has been computed, and the call
    returns nothing; the same call with [roi_top] 50 returns it. *)
Lemma edges_not_returned :
  (exists out h1,
     detect_lanes (cv := Demo.lib)
       {| original_image := 0; image_path := "road.png" |}
       50 150 1 1 10 50 100 [Demo.striped 6 8] = Ok (out, h1)) /\
  detect_lanes (cv := Demo.lib)
    {| original_image := 0; image_path := "road.png" |}
    50 150 1 1 10 (10 ^ 400) 100 [Demo.striped 6 8] = Raise OverflowError.
Proof.
  split.
  - eexists _, _.
    apply (detect_lanes_run (cv := Demo.lib)
             {| original_image := 0; image_path := "road.png" |}
             50 150 1 1 10 50 100 [Demo.striped 6 8] (Demo.striped 6 8)
             eq_refl).
    vm_compute. reflexivity.
  - unfold detect_lanes. apply bind_raise.
    apply (detect_lanes_body_reject_overflow (cv := Demo.lib)
             {| original_image := 0; image_path := "road.png" |}
             50 150 1 1 10 (10 ^ 400) 100 [Demo.striped 6 8]
             (Demo.striped 6 8) 6 8 eq_refl).
    + vm_compute. reflexivity.
    + vm_compute. reflexivity.
    + vm_compute. reflexivity.
Qed.

Lemma Scale_set_in_range (v : Z) (s : Scale) :
  from_ s <= v <= to s -> Scale_get (Scale_set v s) = v.
Proof. intros Hv. unfold Scale_get, Scale_set; simpl. lia. Qed.

(** C6.  The "Aggressive" button calls [load_preset(20, 60, 30, 30, 20)]:
    afterwards the five edge and line sliders read 20, 60, 30, 30, 20 and
    the two ROI sliders are the ones from before. *)
Theorem aggressive_preset (t : Tuner.InteractiveParameterTuner) :
  created_ranges t ->
  let t' := Tuner.press_preset "Aggressive" t in
  t' = Tuner.load_preset 20 60 30 30 20 t /\
  Scale_get (Tuner.canny_low t') = 20 /\
  Scale_get (Tuner.canny_high t') = 60 /\
  Scale_get (Tuner.hough_threshold t') = 30 /\
  Scale_get (Tuner.hough_min_length t') = 30 /\
  Scale_get (Tuner.hough_max_gap t') = 20 /\
  Tuner.roi_top t' = Tuner.roi_top t /\
  Tuner.roi_bottom t' = Tuner.roi_bottom t.
Proof.
  intros (R1 & R2 & R3 & R4 & R5) t'.
  injection R1 as F1 T1. injection R2 as F2 T2. injection R3 as F3 T3.
  injection R4 as F4 T4. injection R5 as F5 T5.
  assert (E : t' = Tuner.load_preset 20 60 30 30 20 t) by reflexivity.
  split; [exact E|]. rewrite E. cbn [Tuner.load_preset Tuner.canny_low
    Tuner.canny_high Tuner.hough_threshold Tuner.hough_min_length
    Tuner.hough_max_gap Tuner.roi_top Tuner.roi_bottom].
  repeat split; apply Scale_set_in_range; lia.
Qed.

Lemma aggressive_preset_witness :
  let t := Tuner.create_widgets
             {| original_image := 0; image_path := "road.png" |} in
  let t' := Tuner.press_preset "Aggressive" t in
  Scale_get (Tuner.canny_low t') = 20 /\
  Scale_get (Tuner.canny_high t') = 60 /\
  Scale_get (Tuner.hough_threshold t') = 30 /\
  Scale_get (Tuner.hough_min_length t') = 30 /\
  Scale_get (Tuner.hough_max_gap t') = 20 /\
  Scale_get (Tuner.roi_top t') = 38 /\
  Scale_get (Tuner.roi_bottom t') = 100.
Proof.
  intros t t'.
  destruct (aggressive_preset t) as (_ & A & B & C & D & E & F & G).
  - unfold created_ranges. repeat split.
  - split; [exact A|]. split; [exact B|]. split; [exact C|].
    split; [exact D|]. split; [exact E|].
    fold t' in F, G. rewrite F, G. split; reflexivity.
Defined.

Lemma wrap32_small (z : Z) : - 2 ^ 31 <= z < 2 ^ 31 -> wrap32 z = z.
Proof. intros Hz. unfold wrap32. rewrite Z.mod_small; lia. Qed.

Lemma sq_length_exact (l : LineSegment) :
  small_coords l ->
  sq_length l
  = (let '(x1, y1, x2, y2) := l in (x2 - x1) ^ 2 + (y2 - y1) ^ 2).
Proof.
  destruct l as [[[x1 y1] x2] y2]. intros (Hx1 & Hy1 & Hx2 & Hy2).
  unfold sq_length.
  assert (P31 : 2 ^ 31 = 2147483648) by reflexivity.
  rewrite (wrap32_small (x2 - x1)), (wrap32_small (y2 - y1))
    by (rewrite P31; lia).
  rewrite !Z.pow_2_r.
  assert (Sq : forall d, -32767 <= d <= 32767 -> 0 <= d * d <= 1073676289).
  { intros d Hd.
    assert (0 <= (32767 - d) * (32767 + d))
      by (apply Z.mul_nonneg_nonneg; lia).
    split; [apply Z.square_nonneg|lia]. }
  pose proof (Sq (x2 - x1) ltac:(lia)).
  pose proof (Sq (y2 - y1) ltac:(lia)).
  rewrite (wrap32_small ((x2 - x1) * (x2 - x1))) by (rewrite P31; lia).
  rewrite (wrap32_small ((y2 - y1) * (y2 - y1))) by (rewrite P31; lia).
  apply wrap32_small. rewrite P31. lia.
Qed.

Lemma np_sqrt_sq_length (l : LineSegment) :
  small_coords l -> np_sqrt (sq_length l) = euclid l.
Proof.
  intros Hl. unfold np_sqrt. rewrite (sq_length_exact l Hl).
  destruct l as [[[x1 y1] x2] y2]. reflexivity.
Qed.

Lemma sqrt_IZR_square (n : Z) : 0 <= n -> sqrt (IZR (n * n)) = IZR n.
Proof.
  intros Hn. rewrite mult_IZR. apply sqrt_square. apply IZR_le. exact Hn.
Qed.

(** C7.  With at least one line the info text carries the line count and
    the mean of the Euclidean lengths; with no line ([None] or an empty
    sequence) it carries the count 0 and no average at all.  For the
    segments (0,0,3,4) and (0,0,0,10) the mean is 7.5. *)
Theorem info_text_mean_length :
  (forall l ls,
     Forall small_coords (l :: ls) ->
     Tuner.info_text (Some (l :: ls))
     = [ Lines_detected (length (l :: ls));
         Avg_line_length
           (foldr Rplus 0 (map euclid (l :: ls))
            / INR (length (l :: ls)))%R ]) /\
  (forall lines,
     lines = None \/ lines = Some [] ->
     Tuner.info_text lines = [Lines_detected 0]) /\
  Tuner.info_text (Some [ (0, 0, 3, 4); (0, 0, 0, 10) ])
  = [ Lines_detected 2; Avg_line_length 7.5%R ].
Proof.
  assert (G : forall l ls,
     Forall small_coords (l :: ls) ->
     Tuner.info_text (Some (l :: ls))
     = [ Lines_detected (length (l :: ls));
         Avg_line_length
           (foldr Rplus 0 (map euclid (l :: ls))
            / INR (length (l :: ls)))%R ]).
  { intros l ls Hs. unfold Tuner.info_text.
    change (0 <? length (l :: ls))%nat with true. cbn [app].
    do 3 f_equal. unfold np_mean. rewrite length_map. f_equal.
    f_equal. apply Forall_fmap_ext_1. eapply Forall_impl; [exact Hs|].
    intros x Hx. apply np_sqrt_sq_length, Hx. }
  split; [exact G|]. split; [apply info_text_none|].
  rewrite G.
  - cbn [length map foldr euclid]. do 3 f_equal.
    change ((3 - 0) ^ 2 + (4 - 0) ^ 2) with (5 * 5).
    change ((0 - 0) ^ 2 + (10 - 0) ^ 2) with (10 * 10).
    rewrite !sqrt_IZR_square by lia. simpl. lra.
  - repeat constructor; unfold small_coords; lia.
Qed.

Lemma info_text_mean_length_witness :
  Tuner.info_text (Some [ (0, 0, 3, 4); (0, 0, 0, 10) ])
  = [ Lines_detected 2;
      Avg_line_length
        (Rdiv (Rplus (euclid (0, 0, 3, 4)) (Rplus (euclid (0, 0, 0, 10)) 0%R))
              (INR 2)) ].
Proof.
  destruct info_text_mean_length as [G _].
  apply (G (0, 0, 3, 4) [ (0, 0, 0, 10) ]).
  repeat constructor; unfold small_coords; lia.
Defined.

(* ===================================================================== *)
(** * Loading an image: more on __init__                                  *)
(* ===================================================================== *)

Section IngestMore.
Context {cv : cv2}.

(** X1.  [__init__] raises [ValueError] exactly when [cv2.imread] returns
    [None], and the message then names the path. *)
Theorem init_value_error_iff (path : string) (h : heap) (msg : string) :
  LaneDetector_init path h = Raise (ValueError msg)
  <-> imread path = None /\ msg = "Could not load image: " +:+ path.
Proof.
  split.
  - destruct (imread path) as [img|] eqn:E.
    + intros R. exfalso. unfold LaneDetector_init in R. rewrite E in R.
      erewrite bind_run in R by reflexivity.
      destruct (np_shape img) as [H W].
      destruct ((1280 <? W) || (720 <? H)); [|discriminate R].
      unfold py_truediv in R.
      destruct (W =? 0); [discriminate R|].
      destruct (finite (truediv 1280 W)); [|discriminate R].
      erewrite bind_run in R by reflexivity.
      destruct (H =? 0); [discriminate R|].
      destruct (finite (truediv 720 H)); [|discriminate R].
      erewrite bind_run in R by reflexivity.
      destruct (resize img _); discriminate R.
    + intros R. rewrite (init_load_error path h E) in R.
      injection R as <-. split; reflexivity.
  - intros [E ->]. apply init_load_error, E.
Qed.

Lemma resize_positive (Hcv : cv2_contract cv) (a b : ndarray) (w h : Z) :
  resize a (w, h) = Some b -> 0 < w /\ 0 < h.
Proof.
  intros E. destruct (Z_lt_le_dec 0 w) as [Hw|Hw];
    [destruct (Z_lt_le_dec 0 h) as [Hh|Hh]; [split; assumption|]|].
  - rewrite resize_empty in E by (right; exact Hh). discriminate E.
  - rewrite resize_empty in E by (left; exact Hw). discriminate E.
Qed.

Lemma np_shape_nonempty (a : ndarray) (H W : Z) :
  np_shape a = (H, W) -> 0 < H -> a <> [].
Proof. intros Hs HH ->. unfold np_shape in Hs. simpl in Hs. inversion Hs. lia. Qed.

(** X2.  Whatever image [__init__] keeps has a positive size of at most
    1280 by 720. *)
Theorem init_stored_size (Hcv : cv2_contract cv) (path : string)
    (img : ndarray) (h h' : heap) (H W : Z) (self : LaneDetector) :
  imread path = Some img ->
  np_shape img = (H, W) ->
  0 < W < 2 ^ 31 -> 0 < H < 2 ^ 31 ->
  LaneDetector_init path h = Ok (self, h') ->
  exists img' H' W',
    h' !! original_image self = Some img' /\
    np_shape img' = (H', W') /\
    0 < W' <= 1280 /\ 0 < H' <= 720.
Proof.
  intros E Hs HW HH R.
  destruct (Z_lt_le_dec 1280 W) as [Hb|Hb];
    [|destruct (Z_lt_le_dec 720 H) as [Hb'|Hb']].
  3: { rewrite (init_small path img h H W E Hs Hb Hb') in R.
       injection R as <- <-. exists img, H, W. cbn [original_image].
       split; [apply list_lookup_middle; reflexivity|].
       split; [exact Hs|]. lia. }
  all: rewrite (init_large path img h H W E Hs) in R by lia;
    destruct (resize img (new_width W H, new_height W H)) as [img'|] eqn:Er;
      [|discriminate R];
    injection R as <- <-;
    destruct (resize_positive Hcv _ _ _ _ Er) as [Pw Ph];
    destruct (resize_shape img _ _ (np_shape_nonempty _ _ _ Hs ltac:(lia))
                Pw Ph) as (b & Eb & Hb2);
    rewrite Er in Eb; injection Eb as <-;
    pose proof (new_size_bounds W H HW HH) as [Bw Bh];
    cbv zeta in Bw, Bh;
    assert (Z.min (1280 * H) (720 * W) / H <= 1280)
      by (apply Z.div_le_upper_bound; lia);
    assert (Z.min (1280 * H) (720 * W) / W <= 720)
      by (apply Z.div_le_upper_bound; lia);
    exists img', (new_height W H), (new_width W H); cbn [original_image];
    (split; [rewrite lookup_new; reflexivity|]);
    (split; [exact Hb2|]); lia.
Qed.

Lemma init_large_ok (Hcv : cv2_contract cv) (path : string)
    (img : ndarray) (h : heap) (H W : Z) :
  imread path = Some img ->
  np_shape img = (H, W) ->
  0 < W -> 0 < H ->
  1280 < W \/ 720 < H ->
  0 < new_width W H -> 0 < new_height W H ->
  exists self h', LaneDetector_init path h = Ok (self, h').
Proof.
  intros E Hs HW HH Hbig Pw Ph.
  rewrite (init_large path img h H W E Hs Hbig) by lia.
  destruct (resize_shape img _ _ (np_shape_nonempty _ _ _ Hs HH) Pw Ph)
    as (b & -> & _).
  eexists _, _. reflexivity.
Qed.

Lemma init_large_error (Hcv : cv2_contract cv) (path : string)
    (img : ndarray) (h : heap) (H W : Z) :
  imread path = Some img ->
  np_shape img = (H, W) ->
  0 < W -> 0 < H ->
  1280 < W \/ 720 < H ->
  new_width W H <= 0 \/ new_height W H <= 0 ->
  LaneDetector_init path h = Raise cv2_error.
Proof.
  intros E Hs HW HH Hbig Hz.
  rewrite (init_large path img h H W E Hs Hbig) by lia.
  rewrite resize_empty by exact Hz. reflexivity.
Qed.

(** X3.  For a decodable image, [__init__] fails with [cv2.error] exactly
    when the image is larger than 1280x720 and one side of the requested
    size is truncated to 0; in every other case it returns. *)
Theorem init_cv2_error_iff (Hcv : cv2_contract cv) (path : string)
    (img : ndarray) (h : heap) (H W : Z) :
  imread path = Some img ->
  np_shape img = (H, W) ->
  0 < W -> 0 < H ->
  let degenerate :=
    (1280 < W \/ 720 < H) /\ (new_width W H <= 0 \/ new_height W H <= 0) in
  (LaneDetector_init path h = Raise cv2_error <-> degenerate) /\
  ((exists self h', LaneDetector_init path h = Ok (self, h'))
   <-> ~ degenerate).
Proof.
  intros E Hs HW HH degenerate.
  assert (D : degenerate \/ ~ degenerate).
  { unfold degenerate.
    destruct (Z_lt_le_dec 1280 W); destruct (Z_lt_le_dec 720 H);
      destruct (Z_lt_le_dec 0 (new_width W H));
      destruct (Z_lt_le_dec 0 (new_height W H)); try (left; lia);
      right; lia. }
  destruct D as [[Hbig Hz]|Hn].
  - pose proof (init_large_error Hcv path img h H W E Hs HW HH Hbig Hz) as R.
    split; split.
    + intros _. split; assumption.
    + intros _. exact R.
    + intros (self & h' & R'). rewrite R in R'. discriminate R'.
    + intros N. exfalso. apply N. split; assumption.
  - assert (R : exists self h', LaneDetector_init path h = Ok (self, h')).
    { destruct (Z_lt_le_dec 1280 W) as [Hb|Hb];
        [|destruct (Z_lt_le_dec 720 H) as [Hb'|Hb']].
      3: { eexists _, _. apply (init_small path img h H W); assumption. }
      all: apply (init_large_ok Hcv path img h H W); try assumption;
        try lia; unfold degenerate in Hn; lia. }
    split; split.
    + intros R'. destruct R as (self & h' & R). rewrite R in R'.
      discriminate R'.
    + intros Hd. contradiction.
    + intros _. exact Hn.
    + intros _. exact R.
Qed.

(** X4.  [__init__] accepts every decodable image that is at most 360
    times taller than wide and at most 640 times wider than tall. *)
Theorem init_accepts_moderate_aspect (Hcv : cv2_contract cv)
    (path : string) (img : ndarray) (h : heap) (H W : Z) :
  imread path = Some img ->
  np_shape img = (H, W) ->
  0 < W < 2 ^ 31 -> 0 < H < 2 ^ 31 ->
  H <= 360 * W -> W <= 640 * H ->
  1 <= new_width W H /\ 1 <= new_height W H /\
  exists self h', LaneDetector_init path h = Ok (self, h').
Proof.
  intros E Hs HW HH A1 A2.
  pose proof (new_size_bounds W H HW HH) as [Bw Bh]. cbv zeta in Bw, Bh.
  assert (2 <= Z.min (1280 * H) (720 * W) / H)
    by (apply Z.div_le_lower_bound; lia).
  assert (2 <= Z.min (1280 * H) (720 * W) / W)
    by (apply Z.div_le_lower_bound; lia).
  split; [lia|]. split; [lia|].
  destruct (Z_lt_le_dec 1280 W) as [Hb|Hb];
    [|destruct (Z_lt_le_dec 720 H) as [Hb'|Hb']].
  3: { eexists _, _. apply (init_small path img h H W); assumption. }
  all: apply (init_large_ok Hcv path img h H W); try assumption; lia.
Qed.

End IngestMore.

Lemma init_stored_size_witness :
  exists self h' img' H' W',
    LaneDetector_init (cv := Demo.lib) "tall.png" [] = Ok (self, h') /\
    h' !! original_image self = Some img' /\
    np_shape img' = (H', W') /\
    0 < W' <= 1280 /\ 0 < H' <= 720.
Proof.
  assert (R : exists self h',
             LaneDetector_init (cv := Demo.lib) "tall.png" [] = Ok (self, h')).
  { eexists _, _. vm_compute. reflexivity. }
  destruct R as (self & h' & R).
  destruct (init_stored_size (cv := Demo.lib) Demo_contract "tall.png"
              (Demo.blank 800 3) [] h' 800 3 self eq_refl eq_refl
              ltac:(lia) ltac:(lia) R) as (img' & H' & W' & P).
  exists self, h', img', H', W'. split; [exact R|exact P].
Defined.

Lemma init_cv2_error_iff_witness :
  LaneDetector_init (cv := Demo.lib) "thin.png" [] = Raise cv2_error.
Proof.
  apply (init_cv2_error_iff (cv := Demo.lib) Demo_contract "thin.png"
           (Demo.blank 721 1) [] 721 1 eq_refl eq_refl ltac:(lia) ltac:(lia)).
  split; [lia|]. left. vm_compute. discriminate.
Defined.

Lemma init_accepts_moderate_aspect_witness :
  exists self h',
    LaneDetector_init (cv := Demo.lib) "tall.png" [] = Ok (self, h').
Proof.
  apply (init_accepts_moderate_aspect (cv := Demo.lib) Demo_contract
           "tall.png" (Demo.blank 800 3) [] 800 3 eq_refl eq_refl);
    lia.
Defined.

(* ===================================================================== *)
(** * More on detect_lanes                                                *)
(* ===================================================================== *)

Section PipelineMore.
Context {cv : cv2}.

(** X5.  Called with accepted arguments, [detect_lanes] leaves every array
    that existed before the call as it was, the source image included; the
    result image and the edge map it returns are two different arrays,
    both made by the call. *)
Theorem detect_lanes_store_frame (Hcv : cv2_contract cv)
    (self : LaneDetector)
    (canny_low canny_high hough_threshold hough_min_length hough_max_gap
     roi_top roi_bottom : Z) (h : heap) (img : ndarray) (H W : Z) :
  h !! original_image self = Some img ->
  np_shape img = (H, W) ->
  accepts H W canny_low canny_high hough_threshold hough_min_length
    hough_max_gap roi_top roi_bottom = true ->
  exists result_image edges lines new,
    detect_lanes self canny_low canny_high hough_threshold hough_min_length
      hough_max_gap roi_top roi_bottom h
    = Ok ((result_image, edges, lines), h ++ new) /\
    (length h <= edges)%nat /\ (length h <= result_image)%nat /\
    edges <> result_image /\
    is_Some ((h ++ new) !! edges) /\ is_Some ((h ++ new) !! result_image) /\
    (h ++ new) !! original_image self = Some img /\
    (forall (i : nat) (a : ndarray),
        h !! i = Some a -> (h ++ new) !! i = Some a).
Proof.
  intros E Hs A. eexists _, _, _, _.
  split; [apply (detect_lanes_run _ _ _ _ _ _ _ _ _ _ E
                   (accepts_edges Hcv _ _ _ _ _ _ _ _ _ _ Hs A))|].
  split; [lia|]. split; [lia|]. split; [lia|].
  split; [rewrite lookup_new; eexists; reflexivity|].
  split; [rewrite lookup_new; eexists; reflexivity|].
  split; [apply lookup_old, E|].
  intros i a Hi. apply lookup_old, Hi.
Qed.

Lemma pixel_zeros_like (a : ndarray) (x y : nat) :
  pixel (np_zeros_like a) x y = map (fun _ => 0) <$> pixel a x y.
Proof.
  unfold pixel, np_zeros_like. rewrite list_lookup_fmap.
  destruct (a !! y) as [row|]; [|reflexivity]. simpl.
  apply list_lookup_fmap.
Qed.

Lemma pixel_bitwise_and (a b : ndarray) (x y : nat) (p q : Pixel) :
  pixel a x y = Some p -> pixel b x y = Some q ->
  pixel (bitwise_and a b) x y = Some (zip_with Z.land p q).
Proof.
  unfold pixel, bitwise_and. intros Ha Hb.
  destruct (a !! y) as [ra|] eqn:Ea; [|discriminate Ha].
  destruct (b !! y) as [rb|] eqn:Eb; [|discriminate Hb].
  simpl in Ha, Hb.
  assert (Er : zip_with (zip_with (zip_with Z.land)) a b !! y
               = Some (zip_with (zip_with Z.land) ra rb))
    by (apply lookup_zip_with_Some; exists ra, rb; auto).
  rewrite Er. simpl. apply lookup_zip_with_Some. exists p, q. auto.
Qed.

Lemma land_255 (v : Z) : 0 <= v <= 255 -> Z.land v 255 = v.
Proof.
  intros Hv. change 255 with (Z.ones 8). rewrite Z.land_ones by lia.
  apply Z.mod_small. change (2 ^ 8) with 256. lia.
Qed.

(** X6.  With accepted arguments, in the array handed to the line finder
    an edge pixel inside the filled polygon keeps its value and a pixel
    outside it is 0. *)
Theorem masked_edges_pixel (Hcv : cv2_contract cv) (self : LaneDetector)
    (canny_low canny_high hough_threshold hough_min_length hough_max_gap
     roi_top roi_bottom : Z) (h : heap) (img : ndarray) (H W : Z)
    (x y : nat) (v : Z) :
  h !! original_image self = Some img ->
  np_shape img = (H, W) ->
  accepts H W canny_low canny_high hough_threshold hough_min_length
    hough_max_gap roi_top roi_bottom = true ->
  pixel (Canny (GaussianBlur (cvtColor_BGR2GRAY img) (5, 5) 0)
               canny_low canny_high) x y = Some [v] ->
  0 <= v <= 255 ->
  exists fr h' masked,
    detect_lanes_body self canny_low canny_high hough_threshold
      hough_min_length hough_max_gap roi_top roi_bottom h = Ok (fr, h') /\
    h' !! f_edges_roi fr = Some masked /\
    pixel masked x y
    = Some (if fillPoly_pixels [f_vertices fr] (Z.of_nat x) (Z.of_nat y)
            then [v] else [0]).
Proof.
  intros E Hs A Hp Hv. eexists _, _, _.
  split; [apply (detect_lanes_body_run _ _ _ _ _ _ _ _ _ _ E
                   (accepts_edges Hcv _ _ _ _ _ _ _ _ _ _ Hs A))|].
  cbn [f_edges_roi f_vertices]. split; [rewrite lookup_new; reflexivity|].
  fold (edge_map img canny_low canny_high) in Hp.
  set (edges := edge_map img canny_low canny_high) in *.
  assert (Hm : pixel (roi_mask_of edges roi_top) x y
               = Some (if fillPoly_pixels
                            [roi_vertices (np_shape edges).1
                               (np_shape edges).2 roi_top]
                            (Z.of_nat x) (Z.of_nat y)
                       then [255] else [0])).
  { unfold roi_mask_of. destruct (np_shape edges) as [H' W']. cbn [fst snd].
    rewrite pixel_paint, pixel_zeros_like, Hp. reflexivity. }
  rewrite (pixel_bitwise_and _ _ _ _ _ _ Hp Hm).
  destruct (fillPoly_pixels _ _ _); cbn [zip_with].
  - rewrite land_255 by exact Hv. reflexivity.
  - rewrite Z.land_0_r. reflexivity.
Qed.

(** X7.  For a percentage between 0 and 100 (and otherwise accepted
    arguments) the top edge of the region lies inside the image: row 0 for
    0, row H for 100, and never a higher row for a larger percentage. *)
Theorem roi_top_pixel_range (Hcv : cv2_contract cv) (self : LaneDetector)
    (canny_low canny_high hough_threshold hough_min_length hough_max_gap
     roi_top roi_top' roi_bottom : Z) (h : heap) (img : ndarray) (H W : Z) :
  h !! original_image self = Some img ->
  np_shape img = (H, W) ->
  accepts H W canny_low canny_high hough_threshold hough_min_length
    hough_max_gap roi_top roi_bottom = true ->
  accepts H W canny_low canny_high hough_threshold hough_min_length
    hough_max_gap roi_top' roi_bottom = true ->
  0 <= roi_top <= roi_top' -> roi_top' <= 100 ->
  exists fr h1 fr' h1',
    detect_lanes_body self canny_low canny_high hough_threshold
      hough_min_length hough_max_gap roi_top roi_bottom h = Ok (fr, h1) /\
    detect_lanes_body self canny_low canny_high hough_threshold
      hough_min_length hough_max_gap roi_top' roi_bottom h = Ok (fr', h1') /\
    0 <= f_roi_top_pixel fr <= f_roi_top_pixel fr' /\
    f_roi_top_pixel fr' <= H /\
    (roi_top = 0 -> f_roi_top_pixel fr = 0) /\
    (roi_top' = 100 -> f_roi_top_pixel fr' = H).
Proof.
  intros E Hs A A' Hr Hr'.
  assert (H0 : 0 <= H).
  { unfold np_shape in Hs. injection Hs as <- _. lia. }
  assert (HH : H < 2 ^ 31).
  { pose proof (accepts_inv _ _ _ _ _ _ _ _ _ A)
      as (_ & _ & _ & _ & FH & _).
    unfold fits_int in FH. apply andb_prop in FH as [_ U].
    apply Z.ltb_lt in U. exact U. }
  assert (Es : forall lo hi, np_shape (edge_map img lo hi) = (H, W)).
  { intros lo hi. unfold edge_map.
    rewrite Canny_shape, GaussianBlur_shape, cvtColor_shape. exact Hs. }
  eexists _, _, _, _.
  split; [apply (detect_lanes_body_run _ _ _ _ _ _ _ _ _ _ E
                   (accepts_edges Hcv _ _ _ _ _ _ _ _ _ _ Hs A))|].
  split; [apply (detect_lanes_body_run _ _ _ _ _ _ _ _ _ _ E
                   (accepts_edges Hcv _ _ _ _ _ _ _ _ _ _ Hs A'))|].
  cbn [f_roi_top_pixel]. rewrite !Es. cbn [fst].
  assert (B : forall r, 0 <= r <= 100 -> Z.abs (H * r) < 2 ^ 53).
  { intros r Hr0. rewrite Z.abs_eq by nia.
    apply Z.le_lt_trans with (H * 100); [nia|].
    change (2 ^ 53) with 9007199254740992.
    change (2 ^ 31) with 2147483648 in HH. lia. }
  rewrite !int_truediv_100 by (apply B; lia).
  rewrite !Z.quot_div_nonneg by nia.
  split; [split|split; [|split]].
  - apply Z.div_pos; nia.
  - apply Z.div_le_mono; nia.
  - apply Z.div_le_upper_bound; nia.
  - intros ->. rewrite Z.mul_0_r. reflexivity.
  - intros ->. apply Z.div_mul. lia.
Qed.

(** X20.  [detect_lanes] returns exactly when its arguments are accepted,
    and raises [OverflowError] or [cv2.error] when they are not; arguments
    within simple bounds (all slider ranges lie within them) are
    accepted. *)
Theorem detect_lanes_returns_iff (Hcv : cv2_contract cv)
    (self : LaneDetector)
    (canny_low canny_high hough_threshold hough_min_length hough_max_gap
     roi_top roi_bottom : Z) (h : heap) (img : ndarray) (H W : Z) :
  h !! original_image self = Some img ->
  np_shape img = (H, W) ->
  ((exists out h',
      detect_lanes self canny_low canny_high hough_threshold
        hough_min_length hough_max_gap roi_top roi_bottom h = Ok (out, h'))
   <-> accepts H W canny_low canny_high hough_threshold hough_min_length
         hough_max_gap roi_top roi_bottom = true) /\
  (accepts H W canny_low canny_high hough_threshold hough_min_length
     hough_max_gap roi_top roi_bottom = false ->
   detect_lanes self canny_low canny_high hough_threshold
     hough_min_length hough_max_gap roi_top roi_bottom h
   = Raise OverflowError
   \/
   detect_lanes self canny_low canny_high hough_threshold
     hough_min_length hough_max_gap roi_top roi_bottom h
   = Raise cv2_error) /\
  (H < 2 ^ 31 -> W < 2 ^ 31 ->
   Z.abs canny_low < 2 ^ 1023 -> Z.abs canny_high < 2 ^ 1023 ->
   - 2 ^ 31 <= hough_threshold < 2 ^ 31 ->
   Z.abs hough_min_length < 2 ^ 1023 -> Z.abs hough_max_gap < 2 ^ 1023 ->
   - 2 ^ 31 * 100 < H * roi_top < 2 ^ 31 * 100 ->
   Z.abs (H * roi_bottom) < 2 ^ 1023 ->
   accepts H W canny_low canny_high hough_threshold hough_min_length
     hough_max_gap roi_top roi_bottom = true).
Proof.
  intros E Hs.
  assert (Es : np_shape (edge_map img canny_low canny_high) = (H, W))
    by (rewrite (edge_map_shape Hcv); exact Hs).
  split; [split|split].
  - intros (out & h' & R).
    destruct (detect_lanes_ok_inv _ _ _ _ _ _ _ _ _ _ _ R) as (fr & Rb & _).
    exact (detect_lanes_body_ok_inv _ _ _ _ _ _ _ _ _ _ _ _ E Es _ _ Rb).
  - intros A. eexists _, _.
    apply (detect_lanes_run _ _ _ _ _ _ _ _ _ _ E
             (accepts_edges Hcv _ _ _ _ _ _ _ _ _ _ Hs A)).
  - intros A.
    destruct (detect_lanes_body_rejects _ _ _ _ _ _ _ _ _ _ _ _ E Es A)
      as [X|X]; [left|right]; unfold detect_lanes; apply bind_raise, X.
  - intros HH HW. unfold np_shape in Hs. injection Hs as <- <-.
    apply accepts_bounds; lia.
Qed.

End PipelineMore.

Lemma detect_lanes_returns_iff_witness :
  (exists out h',
     detect_lanes (cv := Demo.lib)
       {| original_image := 0; image_path := "road.png" |}
       50 150 1 1 10 50 100 [Demo.striped 6 8] = Ok (out, h')) /\
  detect_lanes (cv := Demo.lib)
    {| original_image := 0; image_path := "road.png" |}
    50 150 1 1 10 50 (10 ^ 400) [Demo.striped 6 8] = Raise OverflowError.
Proof.
  split.
  - destruct (detect_lanes_returns_iff (cv := Demo.lib) Demo_contract
                {| original_image := 0; image_path := "road.png" |}
                50 150 1 1 10 50 100 [Demo.striped 6 8] (Demo.striped 6 8)
                6 8 eq_refl eq_refl) as [[_ Hret] _].
    apply Hret. vm_compute. reflexivity.
  - destruct (detect_lanes_returns_iff (cv := Demo.lib) Demo_contract
                {| original_image := 0; image_path := "road.png" |}
                50 150 1 1 10 50 (10 ^ 400) [Demo.striped 6 8]
                (Demo.striped 6 8) 6 8 eq_refl eq_refl) as [[Hacc _] [Hrej _]].
    destruct Hrej as [X|X]; [vm_compute; reflexivity|exact X|].
    exfalso.
    assert (N : detect_lanes (cv := Demo.lib)
                  {| original_image := 0; image_path := "road.png" |}
                  50 150 1 1 10 50 (10 ^ 400) [Demo.striped 6 8]
                = Raise OverflowError).
    { unfold detect_lanes. apply bind_raise.
      apply (detect_lanes_body_reject_overflow (cv := Demo.lib)
               {| original_image := 0; image_path := "road.png" |}
               50 150 1 1 10 50 (10 ^ 400) [Demo.striped 6 8]
               (Demo.striped 6 8) 6 8 eq_refl); vm_compute; reflexivity. }
    rewrite N in X. discriminate X.
Defined.

Lemma detect_lanes_store_frame_witness :
  exists result_image edges lines new,
    detect_lanes (cv := Demo.lib)
      {| original_image := 0; image_path := "road.png" |}
      50 150 1 1 10 50 100 [Demo.striped 6 8]
    = Ok ((result_image, edges, lines), [Demo.striped 6 8] ++ new) /\
    edges <> result_image /\
    ([Demo.striped 6 8] ++ new) !! 0%nat = Some (Demo.striped 6 8).
Proof.
  destruct (detect_lanes_store_frame (cv := Demo.lib) Demo_contract
              {| original_image := 0; image_path := "road.png" |}
              50 150 1 1 10 50 100 [Demo.striped 6 8] (Demo.striped 6 8)
              6 8 eq_refl eq_refl)
    as (r & e & l & new & R & _ & _ & D & _ & _ & S & _).
  - vm_compute. reflexivity.
  - exists r, e, l, new. split; [exact R|]. split; [exact D|exact S].
Defined.

Lemma masked_edges_pixel_witness :
  exists fr h' masked,
    detect_lanes_body (cv := Demo.lib)
      {| original_image := 0; image_path := "road.png" |}
      50 150 1 1 10 50 100 [Demo.striped 6 8] = Ok (fr, h') /\
    h' !! f_edges_roi fr = Some masked /\
    pixel masked 2 0
    = Some (if fillPoly_pixels (cv2 := Demo.lib) [f_vertices fr] 2 0
            then [255] else [0]).
Proof.
  apply (masked_edges_pixel (cv := Demo.lib) Demo_contract
           {| original_image := 0; image_path := "road.png" |}
           50 150 1 1 10 50 100 [Demo.striped 6 8] (Demo.striped 6 8)
           6 8 2 0 255 eq_refl eq_refl).
  - vm_compute. reflexivity.
  - vm_compute. reflexivity.
  - lia.
Defined.

Lemma roi_top_pixel_range_witness :
  exists fr h1 fr' h1',
    detect_lanes_body (cv := Demo.lib)
      {| original_image := 0; image_path := "road.png" |}
      50 150 1 1 10 38 100 [Demo.striped 6 8] = Ok (fr, h1) /\
    detect_lanes_body (cv := Demo.lib)
      {| original_image := 0; image_path := "road.png" |}
      50 150 1 1 10 50 100 [Demo.striped 6 8] = Ok (fr', h1') /\
    0 <= f_roi_top_pixel fr <= f_roi_top_pixel fr' /\
    f_roi_top_pixel fr' <= 6.
Proof.
  destruct (roi_top_pixel_range (cv := Demo.lib) Demo_contract
              {| original_image := 0; image_path := "road.png" |}
              50 150 1 1 10 38 50 100 [Demo.striped 6 8] (Demo.striped 6 8)
              6 8 eq_refl eq_refl)
    as (fr & h1 & fr' & h1' & R1 & R2 & B1 & B2 & _).
  - vm_compute. reflexivity.
  - vm_compute. reflexivity.
  - lia.
  - lia.
  - exists fr, h1, fr', h1'. repeat split; try assumption; lia.
Defined.

(* ===================================================================== *)
(** * display_image                                                       *)
(* ===================================================================== *)

Lemma scaled_side_bounds (t : Z) (s : float) (N c : Z) :
  0 < t < 2 ^ 53 ->
  0 < c < 2 ^ 31 ->
  0 <= N <= 32768 * c ->
  0 <= mant s ->
  (IZR N / IZR c * (1 - powerRZ 2 (-53)) <= IZR t * F2R s
   <= IZR N / IZR c * (1 + powerRZ 2 (-53)))%R ->
  N / c - 1 <= py_int (mul_int_float t s) <= N / c.
Proof.
  intros Ht Hc HN Hs HY. unfold mul_int_float.
  pose proof (fmul_err (float_of_int t) s) as HX.
  assert (Hm : 0 <= mant (fmul (float_of_int t) s)).
  { apply fmul_mant; [|exact Hs]. apply round53_mant; lia. }
  pose proof (py_int_R _ Hm) as [Hk1 Hk2].
  set (k := py_int (fmul (float_of_int t) s)) in *.
  set (X := F2R (fmul (float_of_int t) s)) in *.
  rewrite F2R_float_of_int in HX by lia.
  set (Y := (IZR t * F2R s)%R) in *.
  rewrite u53 in *.
  pose proof (Z.div_mod N c ltac:(lia)) as Ed.
  pose proof (Z.mod_pos_bound N c ltac:(lia)) as Br.
  assert (HK : 0 <= N / c <= 32768).
  { split; [apply Z.div_pos; lia|]. apply Z.div_le_upper_bound; lia. }
  set (K := N / c) in *. set (r := N mod c) in *.
  assert (Hc0 : (0 < IZR c)%R) by (apply IZR_lt; lia).
  assert (Hc1 : (IZR c <= 2147483648)%R) by (apply IZR_le; lia).
  assert (Hic : (0 < / IZR c)%R) by (apply Rinv_0_lt_compat; lra).
  assert (Hic1 : (/ 2147483648 <= / IZR c)%R).
  { apply Rinv_le_contravar; lra. }
  assert (HV : (IZR N / IZR c = IZR K + IZR r * / IZR c)%R).
  { rewrite Ed, plus_IZR, mult_IZR. field. lra. }
  set (V := (IZR N / IZR c)%R) in *.
  assert (Hr0 : (0 <= IZR r)%R) by (apply IZR_le; lia).
  assert (Hr1 : (IZR r <= IZR c - 1)%R).
  { rewrite <- minus_IZR. apply IZR_le. lia. }
  assert (HK0 : (0 <= IZR K)%R) by (apply IZR_le; lia).
  assert (HK1 : (IZR K <= 32768)%R) by (apply IZR_le; lia).
  assert (HrV : (IZR r * / IZR c <= 1 - / IZR c)%R).
  { replace (1 - / IZR c)%R with ((IZR c - 1) * / IZR c)%R by (field; lra).
    apply Rmult_le_compat_r; lra. }
  assert (HrV0 : (0 <= IZR r * / IZR c)%R) by (apply Rmult_le_pos; lra).
  assert (HV0 : (0 <= V <= 32769)%R) by lra.
  assert (HY0 : (0 <= Y <= 32770)%R) by nra.
  rewrite (Rabs_pos_eq Y) in HX by lra.
  apply Rabs_le_inv in HX.
  assert (HXV : (V - / 100000000000 <= X <= V + / 100000000000)%R) by nra.
  split.
  - assert (IZR (K - 2) < IZR k)%R by (rewrite minus_IZR; lra).
    apply lt_IZR in H. lia.
  - assert (IZR k < IZR (K + 1))%R by (rewrite plus_IZR; lra).
    apply lt_IZR in H. lia.
Qed.

Lemma fit_scale_mant (A B w h : Z) :
  0 < A -> 0 < B -> 0 < w -> 0 < h -> 0 <= mant (fit_scale A B w h).
Proof.
  intros HA HB Hw Hh. unfold fit_scale, py_min, truediv.
  destruct (Z.ltb_spec 0 w); [|lia]. destruct (Z.ltb_spec 0 h); [|lia].
  destruct (flt _ _); apply round53_mant; lia.
Qed.

Lemma fit_scale_bounds (A B w h : Z) :
  0 < A -> 0 < B -> 0 < w -> 0 < h ->
  let s := (IZR (Z.min (A * h) (B * w)) / (IZR w * IZR h))%R in
  (s * (1 - powerRZ 2 (-53)) <= F2R (fit_scale A B w h)
   <= s * (1 + powerRZ 2 (-53)))%R.
Proof.
  intros HA HB Hw Hh s. unfold fit_scale. rewrite F2R_py_min.
  pose proof (truediv_pos_bounds A w HA Hw) as [La Ua].
  pose proof (truediv_pos_bounds B h HB Hh) as [Lb Ub].
  set (X := F2R (truediv A w)) in *. set (Y := F2R (truediv B h)) in *.
  rewrite u53 in *.
  pose proof (IZR_lt _ _ Hw) as Hw0. pose proof (IZR_lt _ _ Hh) as Hh0.
  pose proof (IZR_lt _ _ HA) as HA0. pose proof (IZR_lt _ _ HB) as HB0.
  assert (HI : (0 < / (IZR w * IZR h))%R).
  { apply Rinv_0_lt_compat, Rmult_lt_0_compat; lra. }
  set (I := (/ (IZR w * IZR h))%R) in *.
  assert (Ea : (IZR A / IZR w = IZR (A * h) * I)%R).
  { rewrite mult_IZR. unfold I. field. lra. }
  assert (Eb : (IZR B / IZR h = IZR (B * w) * I)%R).
  { rewrite mult_IZR. unfold I. field. lra. }
  rewrite Ea in La, Ua. rewrite Eb in Lb, Ub.
  assert (Es : s = (IZR (Z.min (A * h) (B * w)) * I)%R) by reflexivity.
  rewrite Es. clear Es Ea Eb.
  assert (Pa : (0 <= IZR (A * h) * I)%R).
  { apply Rmult_le_pos; [apply IZR_le; nia|lra]. }
  assert (Pb : (0 <= IZR (B * w) * I)%R).
  { apply Rmult_le_pos; [apply IZR_le; nia|lra]. }
  destruct (Z.min_spec (A * h) (B * w)) as [[Hlt ->]|[Hle ->]].
  - assert (Hab : (IZR (A * h) * I <= IZR (B * w) * I)%R).
    { apply Rmult_le_compat_r; [lra|]. apply IZR_le. lia. }
    unfold Rmin. destruct (Rle_dec X Y); nra.
  - assert (Hab : (IZR (B * w) * I <= IZR (A * h) * I)%R).
    { apply Rmult_le_compat_r; [lra|]. apply IZR_le. lia. }
    unfold Rmin. destruct (Rle_dec X Y); nra.
Qed.

(** The size asked of [cv2.resize] to fit a [w] by [h] image into an [A]
    by [B] box: each side is the integer part of the exactly scaled side,
    or one less. *)
Lemma fit_size_bounds (A B w h : Z) :
  0 < A <= 32768 -> 0 < B <= 32768 ->
  0 < w < 2 ^ 31 -> 0 < h < 2 ^ 31 ->
  let P := Z.min (A * h) (B * w) in
  (P / h - 1 <= fit_width A B w h <= P / h) /\
  (P / w - 1 <= fit_height A B w h <= P / w).
Proof.
  intros HA HB Hw Hh P.
  pose proof (fit_scale_bounds A B w h ltac:(lia) ltac:(lia) ltac:(lia)
                ltac:(lia)) as HS.
  pose proof (fit_scale_mant A B w h ltac:(lia) ltac:(lia) ltac:(lia)
                ltac:(lia)) as Hm.
  cbv zeta in HS. fold P in HS.
  pose proof (IZR_lt 0 w ltac:(lia)) as Hw0.
  pose proof (IZR_lt 0 h ltac:(lia)) as Hh0.
  assert (HP : 0 <= P) by (unfold P; nia).
  pose proof (IZR_le _ _ HP) as HP0.
  assert (HPw : (IZR P / (IZR w * IZR h) * IZR w = IZR P / IZR h)%R)
    by (field; lra).
  assert (HPh : (IZR P / (IZR w * IZR h) * IZR h = IZR P / IZR w)%R)
    by (field; lra).
  set (u := powerRZ 2 (-53)) in *.
  assert (Hu : (0 < u < 1)%R) by (unfold u; rewrite u53; lra).
  split.
  - unfold fit_width.
    apply scaled_side_bounds; [lia | lia | unfold P; nia | exact Hm | ].
    fold u. rewrite <- HPw. destruct HS as [L U]. split.
    + apply Rle_trans with (IZR w * (IZR P / (IZR w * IZR h) * (1 - u)))%R;
        [lra|]. apply Rmult_le_compat_l; lra.
    + apply Rle_trans with (IZR w * (IZR P / (IZR w * IZR h) * (1 + u)))%R;
        [|lra]. apply Rmult_le_compat_l; lra.
  - unfold fit_height.
    apply scaled_side_bounds; [lia | lia | unfold P; nia | exact Hm | ].
    fold u. rewrite <- HPh. destruct HS as [L U]. split.
    + apply Rle_trans with (IZR h * (IZR P / (IZR w * IZR h) * (1 - u)))%R;
        [lra|]. apply Rmult_le_compat_l; lra.
    + apply Rle_trans with (IZR h * (IZR P / (IZR w * IZR h) * (1 + u)))%R;
        [|lra]. apply Rmult_le_compat_l; lra.
Qed.

Lemma mapM_bgr2rgb_length (row row' : list Pixel) :
  mapM bgr2rgb row = Some row' -> length row' = length row.
Proof. intros E. symmetry. eapply length_mapM, E. Qed.

Lemma cvtColor_BGR2RGB_rows (a rgb : ndarray) :
  cvtColor_BGR2RGB a = Some rgb ->
  a <> [] /\ Forall2 (fun row row' => mapM bgr2rgb row = Some row') a rgb.
Proof.
  unfold cvtColor_BGR2RGB. destruct a as [|[|p r] a]; try discriminate.
  intros E. split; [discriminate|]. apply mapM_Some_1, E.
Qed.

Lemma cvtColor_BGR2RGB_shape (a rgb : ndarray) :
  cvtColor_BGR2RGB a = Some rgb -> np_shape rgb = np_shape a.
Proof.
  intros E. apply cvtColor_BGR2RGB_rows in E as [_ F]. unfold np_shape.
  rewrite (Forall2_length _ _ _ F).
  destruct F as [|row row' a rgb E F]; [reflexivity|]. simpl.
  rewrite (mapM_bgr2rgb_length _ _ E). reflexivity.
Qed.

Lemma cvtColor_BGR2RGB_pixel (a rgb : ndarray) (x y : nat) (b g r : Z) :
  cvtColor_BGR2RGB a = Some rgb ->
  pixel a x y = Some [b; g; r] -> pixel rgb x y = Some [r; g; b].
Proof.
  intros E. apply cvtColor_BGR2RGB_rows in E as [_ F]. unfold pixel.
  destruct (a !! y) as [row|] eqn:Ey; [|discriminate]. simpl. intros Ex.
  destruct (Forall2_lookup_l _ _ _ _ _ F Ey) as (row' & Ey' & Er).
  rewrite Ey'. simpl. apply mapM_Some_1 in Er.
  destruct (Forall2_lookup_l _ _ _ _ _ Er Ex) as (p' & Ex' & Ep).
  rewrite Ex'. simpl in Ep. congruence.
Qed.

Lemma cvtColor_BGR2RGB_nonempty (a rgb : ndarray) :
  cvtColor_BGR2RGB a = Some rgb -> rgb <> [].
Proof.
  intros E. apply cvtColor_BGR2RGB_rows in E as [Ha F]. intros ->.
  apply Forall2_nil_inv_r in F. contradiction.
Qed.

Section DisplayMore.
Context {cv : cv2}.

Lemma display_image_run (A B : Z) (image : loc) (a rgb : ndarray) (h0 : heap)
    (h w : Z) :
  h0 !! image = Some a ->
  cvtColor_BGR2RGB a = Some rgb ->
  np_shape a = (h, w) ->
  1 < A < 2 ^ 1023 -> 1 < B < 2 ^ 1023 -> 0 < w -> 0 < h ->
  display_image A B image h0 =
    match resize rgb (fit_width A B w h, fit_height A B w h) with
    | None => Raise cv2_error
    | Some b => Ok (S (length h0), h0 ++ [rgb; b])
    end.
Proof.
  intros Ea Ec Es HA HB Hw Hh. unfold display_image.
  erewrite bind_run by (apply load_run, Ea). rewrite Ec.
  rewrite (bind_run (alloc rgb) _ h0 (h0 ++ [rgb]) (length h0)) by reflexivity.
  destruct (Z.ltb_spec 1 A); [|lia]. destruct (Z.ltb_spec 1 B); [|lia].
  cbn [andb].
  rewrite (cvtColor_BGR2RGB_shape _ _ Ec), Es.
  unfold py_truediv.
  destruct (Z.eqb_spec w 0); [lia|]. destruct (Z.eqb_spec h 0); [lia|].
  rewrite (truediv_finite A w), (truediv_finite B h) by lia.
  unfold mbind, M_bind, mret, M_ret.
  fold (fit_scale A B w h). fold (fit_width A B w h). fold (fit_height A B w h).
  destruct (resize rgb _) as [b|]; [|reflexivity].
  unfold alloc. rewrite length_app, <- app_assoc. simpl.
  do 2 f_equal. lia.
Qed.

Lemma display_unrealised_run (A B : Z) (image : loc) (a rgb : ndarray)
    (h0 : heap) :
  h0 !! image = Some a ->
  cvtColor_BGR2RGB a = Some rgb ->
  (1 <? A) && (1 <? B) = false ->
  display_image A B image h0 = Ok (length h0, h0 ++ [rgb]).
Proof.
  intros Ea Ec HAB. unfold display_image.
  erewrite bind_run by (apply load_run, Ea). rewrite Ec.
  rewrite (bind_run (alloc rgb) _ h0 (h0 ++ [rgb]) (length h0))
    by reflexivity.
  rewrite HAB. reflexivity.
Qed.

(** X13.  On a realised canvas the image put on it fits into the canvas
    and fills its width or its height up to one pixel, whenever the image
    is not so elongated that a fitted side would vanish. *)
Theorem display_image_fits (Hcv : cv2_contract cv) (A B : Z) (image : loc)
    (a rgb : ndarray) (h0 : heap) (h w : Z) :
  h0 !! image = Some a ->
  cvtColor_BGR2RGB a = Some rgb ->
  np_shape a = (h, w) ->
  w < 2 ^ 31 -> h < 2 ^ 31 ->
  1 < A <= 32768 -> 1 < B <= 32768 ->
  2 * h <= B * w -> 2 * w <= A * h ->
  exists (b : ndarray) (nh nw : Z),
    display_image A B image h0 = Ok (S (length h0), h0 ++ [rgb; b]) /\
    np_shape b = (nh, nw) /\
    0 < nw <= A /\ 0 < nh <= B /\
    (A - 1 <= nw \/ B - 1 <= nh).
Proof.
  intros Ea Ec Es Hw Hh HA HB H1 H2.
  assert (Hpos : 0 < w /\ 0 < h).
  { pose proof (cvtColor_BGR2RGB_rows _ _ Ec) as [Hne _].
    unfold np_shape in Es. injection Es as <- <-.
    destruct a as [|[|p r] a]; [congruence|discriminate Ec|].
    simpl length. lia. }
  destruct Hpos as [Hw0 Hh0].
  pose proof (fit_size_bounds A B w h ltac:(lia) ltac:(lia) ltac:(lia)
                ltac:(lia)) as [[Lw Uw] [Lh Uh]].
  cbv zeta in *. set (P := Z.min (A * h) (B * w)) in *.
  assert (HPh : 2 <= P / h <= A).
  { split; [apply Z.div_le_lower_bound; unfold P; nia|].
    apply Z.div_le_upper_bound; unfold P; nia. }
  assert (HPw : 2 <= P / w <= B).
  { split; [apply Z.div_le_lower_bound; unfold P; nia|].
    apply Z.div_le_upper_bound; unfold P; nia. }
  assert (Hfill : P / h = A \/ P / w = B).
  { destruct (Z.min_spec (A * h) (B * w)) as [[_ E]|[_ E]]; fold P in E.
    - left. rewrite E. apply Z.div_mul. lia.
    - right. rewrite E. apply Z.div_mul. lia. }
  destruct (resize_shape rgb (fit_width A B w h) (fit_height A B w h))
    as (b & Er & Eb); [eapply cvtColor_BGR2RGB_nonempty, Ec | lia | lia |].
  exists b, (fit_height A B w h), (fit_width A B w h).
  rewrite (display_image_run A B image a rgb h0 h w) by (assumption || lia).
  rewrite Er. repeat split; try assumption; try lia.
Qed.

(** X14.  While the canvas is not realised (Tk reports a width or a height
    of at most 1) [display_image] shows the image unscaled, whatever its
    size: a new array of the same shape with the first and the third
    channel of every pixel exchanged, and no call of [cv2.resize]. *)
Theorem display_image_unrealised (A B : Z) (image : loc) (a rgb : ndarray)
    (h0 : heap) :
  h0 !! image = Some a ->
  cvtColor_BGR2RGB a = Some rgb ->
  A <= 1 \/ B <= 1 ->
  display_image A B image h0 = Ok (length h0, h0 ++ [rgb]) /\
  np_shape rgb = np_shape a /\
  forall x y b g r,
    pixel a x y = Some [b; g; r] -> pixel rgb x y = Some [r; g; b].
Proof.
  intros Ea Ec HAB. split; [|split].
  - unfold display_image. erewrite bind_run by (apply load_run, Ea).
    rewrite Ec.
    rewrite (bind_run (alloc rgb) _ h0 (h0 ++ [rgb]) (length h0))
      by reflexivity.
    assert ((1 <? A) && (1 <? B) = false) as ->; [|reflexivity].
    destruct (Z.ltb_spec 1 A), (Z.ltb_spec 1 B); simpl; try reflexivity; lia.
  - apply cvtColor_BGR2RGB_shape, Ec.
  - intros x y b g r. apply cvtColor_BGR2RGB_pixel, Ec.
Qed.

(** X15.  On a realised canvas an image more elongated than the canvas
    allows makes [display_image] raise [cv2.error]: a side of the fitted
    size is 0. *)
Theorem display_image_elongated_raises (Hcv : cv2_contract cv) (A B : Z)
    (image : loc) (a : ndarray) (h0 : heap) (h w : Z) :
  h0 !! image = Some a ->
  np_shape a = (h, w) ->
  0 < w < 2 ^ 31 -> 0 < h < 2 ^ 31 ->
  1 < A <= 32768 -> 1 < B <= 32768 ->
  B * w < h \/ A * h < w ->
  display_image A B image h0 = Raise cv2_error.
Proof.
  intros Ea Es Hw Hh HA HB Hel.
  destruct (cvtColor_BGR2RGB a) as [rgb|] eqn:Ec.
  - rewrite (display_image_run A B image a rgb h0 h w) by (assumption || lia).
    pose proof (fit_size_bounds A B w h ltac:(lia) ltac:(lia) ltac:(lia)
                  ltac:(lia)) as [[Lw Uw] [Lh Uh]].
    cbv zeta in *. set (P := Z.min (A * h) (B * w)) in *.
    rewrite resize_empty; [reflexivity|].
    destruct Hel as [Hel|Hel].
    + left. assert (P / h = 0); [|lia].
      apply Z.div_small. unfold P. nia.
    + right. assert (P / w = 0); [|lia].
      apply Z.div_small. unfold P. nia.
  - unfold display_image. erewrite bind_run by (apply load_run, Ea).
    rewrite Ec. reflexivity.
Qed.

End DisplayMore.

Lemma display_image_fits_witness :
  exists (b : ndarray) (nh nw : Z),
    display_image (cv := Demo.lib) 4 3 0%nat [Demo.blank 6 8]
      = Ok (2%nat, [Demo.blank 6 8] ++ [Demo.blank 6 8; b]) /\
    np_shape b = (nh, nw) /\ 0 < nw <= 4 /\ 0 < nh <= 3 /\
    (4 - 1 <= nw \/ 3 - 1 <= nh).
Proof.
  apply (display_image_fits (cv := Demo.lib) Demo_contract 4 3 0%nat
           (Demo.blank 6 8) (Demo.blank 6 8) [Demo.blank 6 8] 6 8);
    try reflexivity; lia.
Defined.

Lemma display_image_unrealised_witness :
  display_image (cv := Demo.lib) 1 1 0%nat [Demo.striped 6 8]
    = Ok (1%nat, [Demo.striped 6 8] ++ [Demo.striped 6 8]) /\
  np_shape (Demo.striped 6 8) = np_shape (Demo.striped 6 8) /\
  forall x y b g r,
    pixel (Demo.striped 6 8) x y = Some [b; g; r] ->
    pixel (Demo.striped 6 8) x y = Some [r; g; b].
Proof.
  apply (display_image_unrealised (cv := Demo.lib) 1 1 0%nat
           (Demo.striped 6 8) (Demo.striped 6 8) [Demo.striped 6 8]);
    [reflexivity | reflexivity | left; lia].
Defined.

Lemma display_image_elongated_raises_witness :
  display_image (cv := Demo.lib) 800 600 0%nat [Demo.blank 700 1]
    = Raise cv2_error.
Proof.
  apply (display_image_elongated_raises (cv := Demo.lib) Demo_contract
           800 600 0%nat (Demo.blank 700 1) [Demo.blank 700 1] 700 1);
    try reflexivity; try lia.
Defined.

(* ===================================================================== *)
(** * The sliders, the presets and the display refresh                    *)
(* ===================================================================== *)

Lemma Scale_set_range (v : Z) (s : Scale) :
  from_ s <= to s -> in_range (Scale_set v s).
Proof. intros H. unfold in_range, Scale_set; simpl. lia. Qed.

Lemma np_shape_paint (region : Z -> Z -> bool) (color : Pixel) (a : ndarray) :
  np_shape (paint region color a) = np_shape a.
Proof.
  unfold np_shape, paint. rewrite length_imap. f_equal.
  destruct a as [|row a]; [reflexivity|]. cbn [imap hd].
  rewrite length_imap. reflexivity.
Qed.

Lemma three_channel_paint (region : Z -> Z -> bool) (color : Pixel)
    (a : ndarray) :
  length color = 3%nat -> three_channel a ->
  three_channel (paint region color a).
Proof.
  unfold three_channel, paint. intros Hc Ha.
  apply Forall_lookup_2. intros y row'. rewrite list_lookup_imap.
  destruct (a !! y) as [row|] eqn:Ey; [|discriminate].
  cbn [fmap option_fmap option_map]. intros R. injection R as <-.
  apply Forall_lookup_2. intros x p'. rewrite list_lookup_imap.
  destruct (row !! x) as [p|] eqn:Ex; [|discriminate].
  cbn [fmap option_fmap option_map]. intros R. injection R as <-.
  destruct (region _ _); [exact Hc|].
  exact (Forall_lookup_1 _ _ _ _ (Forall_lookup_1 _ _ _ _ Ha Ey) Ex).
Qed.

Lemma cvtColor_BGR2RGB_three (a : ndarray) (H W : Z) :
  np_shape a = (H, W) -> 0 < H -> 0 < W -> three_channel a ->
  exists rgb, cvtColor_BGR2RGB a = Some rgb.
Proof.
  intros Hs HH HW Ha. unfold np_shape in Hs. injection Hs as <- <-.
  destruct a as [|[|p r] a]; cbn [length hd] in *; try lia.
  apply (mapM_is_Some_2 (mapM bgr2rgb)).
  eapply Forall_impl; [exact Ha|]. intros row Hrow.
  apply (mapM_is_Some_2 bgr2rgb).
  eapply Forall_impl; [exact Hrow|]. intros q Hq.
  destruct q as [|b [|g [|r' [|]]]]; try discriminate Hq.
  eexists. reflexivity.
Qed.

Section TunerMore.
Context {cv : cv2}.

Lemma three_channel_annotated (img : ndarray) (vertices : list point)
    (lines : option (list LineSegment)) :
  three_channel img -> three_channel (annotated img vertices lines).
Proof.
  intros Hi. unfold annotated, draw_outline.
  apply three_channel_paint; [reflexivity|].
  generalize dependent img.
  induction (default [] lines) as [|[[[x1 y1] x2] y2] ls IH]; intros img Hi;
    [exact Hi|].
  cbn [foldl]. apply IH. unfold draw_line.
  apply three_channel_paint; [reflexivity|exact Hi].
Qed.

Lemma np_shape_annotated (img : ndarray) (vertices : list point)
    (lines : option (list LineSegment)) :
  np_shape (annotated img vertices lines) = np_shape img.
Proof.
  unfold annotated, draw_outline. rewrite np_shape_paint.
  generalize dependent img.
  induction (default [] lines) as [|[[[x1 y1] x2] y2] ls IH]; intros img;
    [reflexivity|].
  cbn [foldl]. rewrite IH. unfold draw_line. apply np_shape_paint.
Qed.

Lemma create_widgets_inv (det : LaneDetector) :
  tuner_inv (Tuner.create_widgets det).
Proof.
  unfold tuner_inv, created_ranges, in_range; cbn.
  repeat split.
  all: lia.
Qed.

Lemma load_preset_inv (t : Tuner.InteractiveParameterTuner)
    (clow chigh hthresh hlen hgap : Z) :
  tuner_inv t ->
  tuner_inv (Tuner.load_preset clow chigh hthresh hlen hgap t).
Proof.
  intros (R & Rt & Rb & _ & _ & _ & _ & _ & It & Ib).
  destruct R as (R1 & R2 & R3 & R4 & R5).
  injection R1 as F1 T1. injection R2 as F2 T2. injection R3 as F3 T3.
  injection R4 as F4 T4. injection R5 as F5 T5.
  unfold tuner_inv, created_ranges.
  cbn [Tuner.load_preset Tuner.canny_low Tuner.canny_high
       Tuner.hough_threshold Tuner.hough_min_length Tuner.hough_max_gap
       Tuner.roi_top Tuner.roi_bottom Scale_set from_ to].
  rewrite F1, T1, F2, T2, F3, T3, F4, T4, F5, T5.
  unfold in_range in *. cbn [from_ to value].
  rewrite ?F1, ?T1, ?F2, ?T2, ?F3, ?T3, ?F4, ?T4, ?F5, ?T5.
  repeat split; try assumption.
  all: unfold Scale_set; cbn [from_ to value]; lia.
Qed.

Lemma tuner_inv_ranges (t : Tuner.InteractiveParameterTuner) :
  tuner_inv t ->
  1 <= Scale_get (Tuner.canny_low t) <= 200 /\
  50 <= Scale_get (Tuner.canny_high t) <= 500 /\
  10 <= Scale_get (Tuner.hough_threshold t) <= 200 /\
  10 <= Scale_get (Tuner.hough_min_length t) <= 300 /\
  1 <= Scale_get (Tuner.hough_max_gap t) <= 50 /\
  0 <= Scale_get (Tuner.roi_top t) <= 100 /\
  0 <= Scale_get (Tuner.roi_bottom t) <= 100.
Proof.
  intros (R & Rt & Rb & I1 & I2 & I3 & I4 & I5 & I6 & I7).
  destruct R as (R1 & R2 & R3 & R4 & R5).
  injection R1 as F1 T1. injection R2 as F2 T2. injection R3 as F3 T3.
  injection R4 as F4 T4. injection R5 as F5 T5.
  injection Rt as F6 T6. injection Rb as F7 T7.
  unfold in_range, Scale_get in *. lia.
Qed.

(** The values of sliders that are within their ranges are accepted. *)
Lemma accepts_sliders (t : Tuner.InteractiveParameterTuner) (H W : Z) :
  tuner_inv t -> 0 <= H < 2 ^ 31 -> 0 <= W < 2 ^ 31 ->
  accepts H W
    (Scale_get (Tuner.canny_low t)) (Scale_get (Tuner.canny_high t))
    (Scale_get (Tuner.hough_threshold t))
    (Scale_get (Tuner.hough_min_length t))
    (Scale_get (Tuner.hough_max_gap t))
    (Scale_get (Tuner.roi_top t)) (Scale_get (Tuner.roi_bottom t)) = true.
Proof.
  intros I HH HW.
  destruct (tuner_inv_ranges t I) as (B1 & B2 & B3 & B4 & B5 & B6 & B7).
  pose proof pow2_1023_large as L.
  assert (P31 : 2 ^ 31 = 2147483648) by reflexivity.
  assert (P53 : 2 ^ 53 = 9007199254740992) by reflexivity.
  rewrite P31 in HH, HW. rewrite P53 in L.
  apply accepts_bounds; rewrite ?P31; try lia.
  - nia.
  - rewrite Z.abs_eq by nia.
    apply Z.le_lt_trans with (2147483648 * 100); [nia|lia].
Qed.

Lemma update_display_run (Hcv : cv2_contract cv)
    (t : Tuner.InteractiveParameterTuner) (h : heap) (img : ndarray)
    (H W : Z) :
  h !! original_image (Tuner.detector t) = Some img ->
  np_shape img = (H, W) ->
  accepts H W
    (Scale_get (Tuner.canny_low t)) (Scale_get (Tuner.canny_high t))
    (Scale_get (Tuner.hough_threshold t))
    (Scale_get (Tuner.hough_min_length t))
    (Scale_get (Tuner.hough_max_gap t))
    (Scale_get (Tuner.roi_top t)) (Scale_get (Tuner.roi_bottom t)) = true ->
  let edges := edge_map img (Scale_get (Tuner.canny_low t))
                        (Scale_get (Tuner.canny_high t)) in
  let lines := lines_of edges (Scale_get (Tuner.hough_threshold t))
                 (Scale_get (Tuner.hough_min_length t))
                 (Scale_get (Tuner.hough_max_gap t))
                 (Scale_get (Tuner.roi_top t)) in
  let store :=
    h ++ [ cvtColor_BGR2GRAY img;
           GaussianBlur (cvtColor_BGR2GRAY img) (5, 5) 0;
           edges; roi_mask_of edges (Scale_get (Tuner.roi_top t));
           bitwise_and edges (roi_mask_of edges (Scale_get (Tuner.roi_top t)));
           annotated img (roi_vertices H W (Scale_get (Tuner.roi_top t)))
                     lines ] in
  store !! (length h + 5)%nat
  = Some (annotated img (roi_vertices H W (Scale_get (Tuner.roi_top t)))
                    lines) /\
  forall photo h',
    display_image (Tuner.canvas_width t) (Tuner.canvas_height t)
                  (length h + 5)%nat store = Ok (photo, h') ->
    exists t',
      Tuner.update_display t h = Ok (t', h') /\
      slider_values t' = slider_values t /\
      Tuner.detector t' = Tuner.detector t /\
      Tuner.value_labels t' = slider_values t /\
      Tuner.info_label t' = Tuner.info_text lines /\
      Tuner.canvas_image t' = Some photo.
Proof.
  intros E Hs A edges lines store.
  split; [unfold store; rewrite lookup_new; reflexivity|].
  intros photo h' D.
  pose proof (detect_lanes_run _ _ _ _ _ _ _ _ _ _ E
                (accepts_edges Hcv _ _ _ _ _ _ _ _ _ _ Hs A)) as R.
  cbv zeta in R. rewrite (edge_map_shape Hcv), Hs in R. cbn [fst snd] in R.
  fold edges in R. fold lines in R. fold store in R.
  unfold Tuner.update_display, mbind, M_bind. rewrite R. cbv beta iota.
  rewrite D.
  eexists. split; [reflexivity|]. cbn. repeat split.
Qed.

Lemma update_display_raise (Hcv : cv2_contract cv)
    (t : Tuner.InteractiveParameterTuner) (h : heap) (img : ndarray)
    (H W : Z) (e : exn) :
  h !! original_image (Tuner.detector t) = Some img ->
  np_shape img = (H, W) ->
  accepts H W
    (Scale_get (Tuner.canny_low t)) (Scale_get (Tuner.canny_high t))
    (Scale_get (Tuner.hough_threshold t))
    (Scale_get (Tuner.hough_min_length t))
    (Scale_get (Tuner.hough_max_gap t))
    (Scale_get (Tuner.roi_top t)) (Scale_get (Tuner.roi_bottom t)) = true ->
  let edges := edge_map img (Scale_get (Tuner.canny_low t))
                        (Scale_get (Tuner.canny_high t)) in
  let lines := lines_of edges (Scale_get (Tuner.hough_threshold t))
                 (Scale_get (Tuner.hough_min_length t))
                 (Scale_get (Tuner.hough_max_gap t))
                 (Scale_get (Tuner.roi_top t)) in
  let store :=
    h ++ [ cvtColor_BGR2GRAY img;
           GaussianBlur (cvtColor_BGR2GRAY img) (5, 5) 0;
           edges; roi_mask_of edges (Scale_get (Tuner.roi_top t));
           bitwise_and edges (roi_mask_of edges (Scale_get (Tuner.roi_top t)));
           annotated img (roi_vertices H W (Scale_get (Tuner.roi_top t)))
                     lines ] in
  display_image (Tuner.canvas_width t) (Tuner.canvas_height t)
                (length h + 5)%nat store = Raise e ->
  Tuner.update_display t h = Raise e.
Proof.
  intros E Hs A edges lines store D.
  pose proof (detect_lanes_run _ _ _ _ _ _ _ _ _ _ E
                (accepts_edges Hcv _ _ _ _ _ _ _ _ _ _ Hs A)) as R.
  cbv zeta in R. rewrite (edge_map_shape Hcv), Hs in R. cbn [fst snd] in R.
  fold edges in R. fold lines in R. fold store in R.
  unfold Tuner.update_display, mbind, M_bind. rewrite R. cbv beta iota.
  rewrite D. reflexivity.
Qed.

Lemma update_display_inv_fields (t t' : Tuner.InteractiveParameterTuner)
    (h h' : heap) :
  Tuner.update_display t h = Ok (t', h') ->
  Tuner.canny_low t' = Tuner.canny_low t /\
  Tuner.canny_high t' = Tuner.canny_high t /\
  Tuner.hough_threshold t' = Tuner.hough_threshold t /\
  Tuner.hough_min_length t' = Tuner.hough_min_length t /\
  Tuner.hough_max_gap t' = Tuner.hough_max_gap t /\
  Tuner.roi_top t' = Tuner.roi_top t /\
  Tuner.roi_bottom t' = Tuner.roi_bottom t.
Proof.
  unfold Tuner.update_display, mbind, M_bind. intros R.
  destruct (detect_lanes _ _ _ _ _ _ _ _ h) as [[[[r e] l] h1]|];
    [|discriminate R].
  destruct (display_image _ _ r h1) as [[photo h2]|]; [|discriminate R].
  injection R as <- _. cbn. repeat split.
Qed.

(** What a refresh does, by the state of the canvas. *)
Lemma update_display_cases (Hcv : cv2_contract cv)
    (t : Tuner.InteractiveParameterTuner) (h : heap) (img : ndarray)
    (H W : Z) :
  h !! original_image (Tuner.detector t) = Some img ->
  np_shape img = (H, W) ->
  0 < H < 2 ^ 31 -> 0 < W < 2 ^ 31 ->
  three_channel img ->
  tuner_inv t ->
  Tuner.canvas_width t < 2 ^ 31 -> Tuner.canvas_height t < 2 ^ 31 ->
  let edges := edge_map img (Scale_get (Tuner.canny_low t))
                        (Scale_get (Tuner.canny_high t)) in
  let lines := lines_of edges (Scale_get (Tuner.hough_threshold t))
                 (Scale_get (Tuner.hough_min_length t))
                 (Scale_get (Tuner.hough_max_gap t))
                 (Scale_get (Tuner.roi_top t)) in
  let drawn :=
    annotated img (roi_vertices H W (Scale_get (Tuner.roi_top t))) lines in
  exists rgb,
    cvtColor_BGR2RGB drawn = Some rgb /\
    match (if (1 <? Tuner.canvas_width t) && (1 <? Tuner.canvas_height t)
           then resize rgb
                  (fit_width (Tuner.canvas_width t) (Tuner.canvas_height t)
                             W H,
                   fit_height (Tuner.canvas_width t) (Tuner.canvas_height t)
                              W H)
           else Some rgb) with
    | None => Tuner.update_display t h = Raise cv2_error
    | Some photo =>
        exists t' new shown,
          Tuner.update_display t h = Ok (t', h ++ new) /\
          slider_values t' = slider_values t /\
          Tuner.detector t' = Tuner.detector t /\
          Tuner.value_labels t' = slider_values t /\
          Tuner.info_label t' = Tuner.info_text lines /\
          Tuner.canvas_image t' = Some shown /\
          (length h <= shown)%nat /\
          (h ++ new) !! shown = Some photo /\
          (forall (i : nat) (a : ndarray),
              h !! i = Some a -> (h ++ new) !! i = Some a)
    end.
Proof.
  intros E Hs HH HW Hi I HA HB edges lines drawn.
  pose proof (accepts_sliders t H W I ltac:(lia) ltac:(lia)) as A.
  destruct (cvtColor_BGR2RGB_three drawn H W) as [rgb Ec].
  { unfold drawn. rewrite np_shape_annotated. exact Hs. }
  { lia. } { lia. }
  { apply three_channel_annotated, Hi. }
  exists rgb. split; [exact Ec|].
  destruct (update_display_run Hcv t h img H W E Hs A) as [Hl Hok].
  pose proof (update_display_raise Hcv t h img H W cv2_error E Hs A) as Hr.
  cbv zeta in Hl, Hok, Hr. fold edges in Hl, Hok, Hr.
  fold lines in Hl, Hok, Hr. fold drawn in Hl, Hok, Hr.
  match type of Hl with (h ++ ?l) !! _ = _ => set (new := l) in * end.
  assert (Sd : np_shape drawn = (H, W)).
  { unfold drawn. rewrite np_shape_annotated. exact Hs. }
  pose proof pow2_1023_large as L.
  assert (P31 : 2 ^ 31 = 2147483648) by reflexivity.
  assert (P53 : 2 ^ 53 = 9007199254740992) by reflexivity.
  destruct ((1 <? Tuner.canvas_width t) && (1 <? Tuner.canvas_height t))
    eqn:Hreal.
  - apply andb_prop in Hreal as [HA1 HB1].
    apply Z.ltb_lt in HA1. apply Z.ltb_lt in HB1.
    pose proof (display_image_run (Tuner.canvas_width t)
                  (Tuner.canvas_height t) (length h + 5)%nat drawn rgb
                  (h ++ new) H W Hl Ec Sd ltac:(lia) ltac:(lia) ltac:(lia)
                  ltac:(lia)) as D.
    destruct (resize rgb _) as [b|].
    + destruct (Hok _ _ D) as (t' & Ru & S1 & S2 & S3 & S4 & S5).
      exists t', (new ++ [rgb; b]), (S (length (h ++ new))).
      rewrite app_assoc. split; [exact Ru|].
      split; [exact S1|]. split; [exact S2|]. split; [exact S3|].
      split; [exact S4|]. split; [exact S5|].
      split; [rewrite length_app; lia|]. split.
      * rewrite lookup_app_r by lia.
        replace (S (length (h ++ new)) - length (h ++ new))%nat with 1%nat
          by lia. reflexivity.
      * intros i a Hia. rewrite <- app_assoc. apply lookup_old, Hia.
    + apply Hr, D.
  - pose proof (display_unrealised_run (Tuner.canvas_width t)
                  (Tuner.canvas_height t) (length h + 5)%nat drawn rgb
                  (h ++ new) Hl Ec Hreal) as D.
    destruct (Hok _ _ D) as (t' & Ru & S1 & S2 & S3 & S4 & S5).
    exists t', (new ++ [rgb]), (length (h ++ new)).
    rewrite app_assoc. split; [exact Ru|].
    split; [exact S1|]. split; [exact S2|]. split; [exact S3|].
    split; [exact S4|]. split; [exact S5|].
    split; [rewrite length_app; lia|]. split.
    + rewrite lookup_app_r by lia. rewrite Nat.sub_diag. reflexivity.
    + intros i a Hia. rewrite <- app_assoc. apply lookup_old, Hia.
Qed.

(** X8.  The sliders never leave their ranges: [create_widgets] puts every
    slider inside its range, [load_preset] keeps it there whatever values
    it is given, and so does [update_display]; hence [detect_lanes] is
    only ever handed values from the seven ranges. *)
Theorem sliders_stay_in_range :
  (forall det, tuner_inv (Tuner.create_widgets det)) /\
  (forall t clow chigh hthresh hlen hgap,
     tuner_inv t ->
     tuner_inv (Tuner.load_preset clow chigh hthresh hlen hgap t)) /\
  (forall t h t' h',
     tuner_inv t -> Tuner.update_display t h = Ok (t', h') -> tuner_inv t') /\
  (forall t,
     tuner_inv t ->
     1 <= Scale_get (Tuner.canny_low t) <= 200 /\
     50 <= Scale_get (Tuner.canny_high t) <= 500 /\
     10 <= Scale_get (Tuner.hough_threshold t) <= 200 /\
     10 <= Scale_get (Tuner.hough_min_length t) <= 300 /\
     1 <= Scale_get (Tuner.hough_max_gap t) <= 50 /\
     0 <= Scale_get (Tuner.roi_top t) <= 100 /\
     0 <= Scale_get (Tuner.roi_bottom t) <= 100).
Proof.
  split; [|split; [|split]].
  - exact create_widgets_inv.
  - intros t a b c d e I. apply load_preset_inv, I.
  - intros t h t' h' I R.
    destruct (update_display_inv_fields t t' h h' R)
      as (E1 & E2 & E3 & E4 & E5 & E6 & E7).
    unfold tuner_inv, created_ranges in *.
    rewrite E1, E2, E3, E4, E5, E6, E7. exact I.
  - exact tuner_inv_ranges.
Qed.

(** X9.  Each of the three preset buttons sets the five edge and line
    sliders to the values of its row of the table, and a name that is not
    in the table changes nothing. *)
Theorem preset_buttons_set_table_values
    (t : Tuner.InteractiveParameterTuner) (name : string)
    (clow chigh hthresh hlen hgap : Z) :
  created_ranges t ->
  (name, (clow, chigh, hthresh, hlen, hgap)) ∈ Tuner.preset_buttons ->
  let t' := Tuner.press_preset name t in
  [ Scale_get (Tuner.canny_low t'); Scale_get (Tuner.canny_high t');
    Scale_get (Tuner.hough_threshold t');
    Scale_get (Tuner.hough_min_length t');
    Scale_get (Tuner.hough_max_gap t') ]
  = [clow; chigh; hthresh; hlen; hgap] /\
  Tuner.roi_top t' = Tuner.roi_top t /\
  Tuner.roi_bottom t' = Tuner.roi_bottom t /\
  (forall other,
     (forall v, (other, v) ∉ Tuner.preset_buttons) ->
     Tuner.press_preset other t = t).
Proof.
  intros (R1 & R2 & R3 & R4 & R5) Hin t'.
  injection R1 as F1 T1. injection R2 as F2 T2. injection R3 as F3 T3.
  injection R4 as F4 T4. injection R5 as F5 T5.
  assert (Hcase :
    (name, (clow, chigh, hthresh, hlen, hgap))
      = ("Conservative"%string, (30, 90, 80, 100, 5)) \/
    (name, (clow, chigh, hthresh, hlen, hgap))
      = ("Balanced"%string, (50, 150, 50, 50, 10)) \/
    (name, (clow, chigh, hthresh, hlen, hgap))
      = ("Aggressive"%string, (20, 60, 30, 30, 20))).
  { unfold Tuner.preset_buttons in Hin.
    rewrite !elem_of_cons, elem_of_nil in Hin. tauto. }
  assert (E : t' = Tuner.load_preset clow chigh hthresh hlen hgap t).
  { destruct Hcase as [Hc|[Hc|Hc]]; inversion Hc; subst; reflexivity. }
  assert (Hr : 1 <= clow <= 200 /\ 50 <= chigh <= 500 /\
               10 <= hthresh <= 200 /\ 10 <= hlen <= 300 /\
               1 <= hgap <= 50).
  { destruct Hcase as [Hc|[Hc|Hc]]; inversion Hc; subst; lia. }
  clearbody t'. subst t'.
  split; [|split; [|split]].
  - cbn [Tuner.load_preset Tuner.canny_low Tuner.canny_high
         Tuner.hough_threshold Tuner.hough_min_length Tuner.hough_max_gap].
    rewrite !Scale_set_in_range by lia. reflexivity.
  - reflexivity.
  - reflexivity.
  - intros other Hn. unfold Tuner.press_preset.
    destruct (list_find _ _) as [[i [n' v]]|] eqn:Ef; [|reflexivity].
    apply list_find_Some in Ef as (Hl & Heq & _). simpl in Heq.
    apply Is_true_true, String.eqb_eq in Heq. subst n'.
    exfalso. apply (Hn v). eapply list_elem_of_lookup_2, Hl.
Qed.

Lemma press_preset_in_table (t : Tuner.InteractiveParameterTuner)
    (name : string) (clow chigh hthresh hlen hgap : Z) :
  (name, (clow, chigh, hthresh, hlen, hgap)) ∈ Tuner.preset_buttons ->
  Tuner.press_preset name t = Tuner.load_preset clow chigh hthresh hlen hgap t
  /\ (1 <= clow <= 200 /\ 50 <= chigh <= 500 /\ 10 <= hthresh <= 200 /\
      10 <= hlen <= 300 /\ 1 <= hgap <= 50).
Proof.
  intros Hin. unfold Tuner.preset_buttons in Hin.
  rewrite !elem_of_cons, elem_of_nil in Hin.
  destruct Hin as [Hc|[Hc|[Hc|[]]]]; inversion Hc; subst;
    (split; [reflexivity|lia]).
Qed.

(** X10.  A refresh with the sliders in their ranges, on a three-channel
    image: the annotated image converts to RGB; on a canvas that is not
    laid out that copy is shown as it is, on a realised canvas it is
    resized to the fitted size first, and the refresh raises [cv2.error]
    if [cv2.resize] rejects that size.  When the refresh returns, no
    slider and no existing array has changed, the seven labels read the
    seven slider values, the info label reports the lines found with them
    and the canvas holds a newly made array. *)
Theorem update_display_refresh (Hcv : cv2_contract cv)
    (t : Tuner.InteractiveParameterTuner) (h : heap) (img : ndarray)
    (H W : Z) :
  h !! original_image (Tuner.detector t) = Some img ->
  np_shape img = (H, W) ->
  0 < H < 2 ^ 31 -> 0 < W < 2 ^ 31 ->
  three_channel img ->
  tuner_inv t ->
  Tuner.canvas_width t < 2 ^ 31 -> Tuner.canvas_height t < 2 ^ 31 ->
  let edges := edge_map img (Scale_get (Tuner.canny_low t))
                        (Scale_get (Tuner.canny_high t)) in
  let lines := lines_of edges (Scale_get (Tuner.hough_threshold t))
                 (Scale_get (Tuner.hough_min_length t))
                 (Scale_get (Tuner.hough_max_gap t))
                 (Scale_get (Tuner.roi_top t)) in
  let drawn :=
    annotated img (roi_vertices H W (Scale_get (Tuner.roi_top t))) lines in
  exists rgb,
    cvtColor_BGR2RGB drawn = Some rgb /\
    match (if (1 <? Tuner.canvas_width t) && (1 <? Tuner.canvas_height t)
           then resize rgb
                  (fit_width (Tuner.canvas_width t) (Tuner.canvas_height t)
                             W H,
                   fit_height (Tuner.canvas_width t) (Tuner.canvas_height t)
                              W H)
           else Some rgb) with
    | None => Tuner.update_display t h = Raise cv2_error
    | Some photo =>
        exists t' new shown,
          Tuner.update_display t h = Ok (t', h ++ new) /\
          slider_values t' = slider_values t /\
          Tuner.detector t' = Tuner.detector t /\
          Tuner.value_labels t' = slider_values t /\
          Tuner.info_label t' = Tuner.info_text lines /\
          Tuner.canvas_image t' = Some shown /\
          (length h <= shown)%nat /\
          (h ++ new) !! shown = Some photo /\
          (forall (i : nat) (a : ndarray),
              h !! i = Some a -> (h ++ new) !! i = Some a)
    end.
Proof. exact (update_display_cases Hcv t h img H W). Qed.

(** X11.  Pressing a preset button and refreshing runs the pipeline with
    the five values of the button's row and the two ROI percentages the
    sliders had before: the labels show these seven values, the info
    label the lines found with them, the canvas the image annotated with
    them (or the refresh raises [cv2.error], when [cv2.resize] rejects
    the size fitted to the canvas). *)
Theorem preset_then_update (Hcv : cv2_contract cv)
    (t : Tuner.InteractiveParameterTuner)
    (name : string) (clow chigh hthresh hlen hgap : Z)
    (h : heap) (img : ndarray) (H W : Z) :
  tuner_inv t ->
  (name, (clow, chigh, hthresh, hlen, hgap)) ∈ Tuner.preset_buttons ->
  h !! original_image (Tuner.detector t) = Some img ->
  np_shape img = (H, W) ->
  0 < H < 2 ^ 31 -> 0 < W < 2 ^ 31 ->
  three_channel img ->
  Tuner.canvas_width t < 2 ^ 31 -> Tuner.canvas_height t < 2 ^ 31 ->
  let lines := lines_of (edge_map img clow chigh) hthresh hlen hgap
                        (Scale_get (Tuner.roi_top t)) in
  exists rgb,
    cvtColor_BGR2RGB
      (annotated img (roi_vertices H W (Scale_get (Tuner.roi_top t))) lines)
    = Some rgb /\
    match (if (1 <? Tuner.canvas_width t) && (1 <? Tuner.canvas_height t)
           then resize rgb
                  (fit_width (Tuner.canvas_width t) (Tuner.canvas_height t)
                             W H,
                   fit_height (Tuner.canvas_width t) (Tuner.canvas_height t)
                              W H)
           else Some rgb) with
    | None =>
        Tuner.update_display (Tuner.press_preset name t) h = Raise cv2_error
    | Some photo =>
        exists t' h' shown,
          Tuner.update_display (Tuner.press_preset name t) h = Ok (t', h') /\
          Tuner.value_labels t'
          = [ clow; chigh; hthresh; hlen; hgap;
              Scale_get (Tuner.roi_top t); Scale_get (Tuner.roi_bottom t) ] /\
          Tuner.info_label t' = Tuner.info_text lines /\
          Tuner.canvas_image t' = Some shown /\
          h' !! shown = Some photo
    end.
Proof.
  intros I Hin E Hs HH HW Hi HA HB lines.
  destruct (press_preset_in_table t name _ _ _ _ _ Hin) as [-> Hr].
  pose proof I as (R & _). destruct R as (R1 & R2 & R3 & R4 & R5).
  injection R1 as F1 T1. injection R2 as F2 T2. injection R3 as F3 T3.
  injection R4 as F4 T4. injection R5 as F5 T5.
  set (t1 := Tuner.load_preset clow chigh hthresh hlen hgap t).
  assert (G1 : Scale_get (Tuner.canny_low t1) = clow)
    by (apply Scale_set_in_range; lia).
  assert (G2 : Scale_get (Tuner.canny_high t1) = chigh)
    by (apply Scale_set_in_range; lia).
  assert (G3 : Scale_get (Tuner.hough_threshold t1) = hthresh)
    by (apply Scale_set_in_range; lia).
  assert (G4 : Scale_get (Tuner.hough_min_length t1) = hlen)
    by (apply Scale_set_in_range; lia).
  assert (G5 : Scale_get (Tuner.hough_max_gap t1) = hgap)
    by (apply Scale_set_in_range; lia).
  pose proof (update_display_cases Hcv t1 h img H W E Hs HH HW Hi
                (load_preset_inv t clow chigh hthresh hlen hgap I) HA HB)
    as C.
  cbv zeta in C. unfold slider_values in C.
  rewrite G1, G2, G3, G4, G5 in C.
  change (Tuner.roi_top t1) with (Tuner.roi_top t) in C.
  change (Tuner.roi_bottom t1) with (Tuner.roi_bottom t) in C.
  change (Tuner.canvas_width t1) with (Tuner.canvas_width t) in C.
  change (Tuner.canvas_height t1) with (Tuner.canvas_height t) in C.
  fold lines in C.
  destruct C as (rgb & Ec & M). exists rgb. split; [exact Ec|].
  destruct (if (1 <? Tuner.canvas_width t) && (1 <? Tuner.canvas_height t)
            then _ else _) as [photo|]; [|exact M].
  destruct M as (t' & new & shown & Ru & _ & _ & L & If & Cs & _ & Hl & _).
  exists t', (h ++ new), shown.
  split; [exact Ru|]. split; [exact L|]. split; [exact If|].
  split; [exact Cs|exact Hl].
Qed.

(** X12.  Constructing the tuner: an error of [LaneDetector.__init__]
    comes out unchanged and no tuner exists; otherwise the first display
    is computed with the sliders' first values 50, 281, 66, 50, 10, 38,
    100, which the labels then show, and, the canvas not being laid out
    yet, it shows the RGB copy of the annotated image at its own size. *)
Theorem tuner_init_first_display (Hcv : cv2_contract cv) (path : string)
    (h : heap) :
  (forall e, LaneDetector_init path h = Raise e ->
             Tuner.init path h = Raise e) /\
  (forall det h1 img H W,
     LaneDetector_init path h = Ok (det, h1) ->
     h1 !! original_image det = Some img ->
     np_shape img = (H, W) ->
     0 < H < 2 ^ 31 -> 0 < W < 2 ^ 31 ->
     three_channel img ->
     let lines := lines_of (edge_map img 50 281) 66 50 10 38 in
     exists t new shown rgb,
       Tuner.init path h = Ok (t, h1 ++ new) /\
       Tuner.detector t = det /\
       slider_values t = [50; 281; 66; 50; 10; 38; 100] /\
       Tuner.value_labels t = [50; 281; 66; 50; 10; 38; 100] /\
       Tuner.info_label t = Tuner.info_text lines /\
       Tuner.canvas_image t = Some shown /\
       (h1 ++ new) !! shown = Some rgb /\
       cvtColor_BGR2RGB (annotated img (roi_vertices H W 38) lines)
       = Some rgb /\
       np_shape rgb = (H, W)).
Proof.
  split.
  - intros e R. unfold Tuner.init, mbind, M_bind. rewrite R. reflexivity.
  - intros det h1 img H W R E Hs HH HW Hi lines.
    pose proof (update_display_cases Hcv (Tuner.create_widgets det) h1 img
                  H W E Hs HH HW Hi (create_widgets_inv det)
                  ltac:(reflexivity) ltac:(reflexivity)) as C.
    cbv zeta in C.
    change (Scale_get (Tuner.canny_low (Tuner.create_widgets det)))
      with 50 in C.
    change (Scale_get (Tuner.canny_high (Tuner.create_widgets det)))
      with 281 in C.
    change (Scale_get (Tuner.hough_threshold (Tuner.create_widgets det)))
      with 66 in C.
    change (Scale_get (Tuner.hough_min_length (Tuner.create_widgets det)))
      with 50 in C.
    change (Scale_get (Tuner.hough_max_gap (Tuner.create_widgets det)))
      with 10 in C.
    change (Scale_get (Tuner.roi_top (Tuner.create_widgets det)))
      with 38 in C.
    change (slider_values (Tuner.create_widgets det))
      with [50; 281; 66; 50; 10; 38; 100] in C.
    change (Tuner.canvas_width (Tuner.create_widgets det)) with 1 in C.
    change (Tuner.canvas_height (Tuner.create_widgets det)) with 1 in C.
    change ((1 <? 1) && (1 <? 1)) with false in C.
    fold lines in C. cbv iota in C.
    destruct C as (rgb & Ec & t & new & shown & Ru & S1 & S2 & S3 & S4 & S5
                   & _ & Hl & _).
    exists t, new, shown, rgb.
    split. { unfold Tuner.init. erewrite bind_run by exact R. exact Ru. }
    split; [exact S2|]. split; [exact S1|]. split; [exact S3|].
    split; [exact S4|]. split; [exact S5|]. split; [exact Hl|].
    split; [exact Ec|].
    rewrite (cvtColor_BGR2RGB_shape _ _ Ec), np_shape_annotated. exact Hs.
Qed.

End TunerMore.

Lemma striped_three_channel (rows cols : nat) :
  three_channel (Demo.striped rows cols).
Proof.
  unfold three_channel, Demo.striped. apply Forall_replicate.
  apply Forall_fmap, Forall_true. intros x. simpl.
  destruct (x =? 2)%nat; reflexivity.
Qed.

Lemma preset_buttons_set_table_values_witness :
  let t := Tuner.create_widgets
             {| original_image := 0; image_path := "road.png" |} in
  let t' := Tuner.press_preset "Conservative" t in
  [ Scale_get (Tuner.canny_low t'); Scale_get (Tuner.canny_high t');
    Scale_get (Tuner.hough_threshold t');
    Scale_get (Tuner.hough_min_length t');
    Scale_get (Tuner.hough_max_gap t') ]
  = [30; 90; 80; 100; 5].
Proof.
  intros t t'.
  apply (preset_buttons_set_table_values t "Conservative" 30 90 80 100 5).
  - unfold created_ranges. repeat split.
  - unfold Tuner.preset_buttons. apply elem_of_cons. left. reflexivity.
Defined.

Lemma update_display_refresh_witness :
  exists t' new shown rgb,
    Tuner.update_display (cv := Demo.lib)
      (Tuner.create_widgets
         {| original_image := 0; image_path := "road.png" |})
      [Demo.striped 6 8]
    = Ok (t', [Demo.striped 6 8] ++ new) /\
    Tuner.value_labels t' = [50; 281; 66; 50; 10; 38; 100] /\
    Tuner.canvas_image t' = Some shown /\
    ([Demo.striped 6 8] ++ new) !! shown = Some rgb.
Proof.
  destruct (update_display_refresh (cv := Demo.lib) Demo_contract
              (Tuner.create_widgets
                 {| original_image := 0; image_path := "road.png" |})
              [Demo.striped 6 8] (Demo.striped 6 8) 6 8 eq_refl eq_refl)
    as (rgb & _ & M).
  - lia.
  - lia.
  - apply striped_three_channel.
  - apply create_widgets_inv.
  - reflexivity.
  - reflexivity.
  - destruct M as (t' & new & shown & R & _ & _ & L & _ & C & _ & S & _).
    exists t', new, shown, rgb.
    split; [exact R|]. split; [exact L|]. split; [exact C|exact S].
Defined.

Lemma preset_then_update_witness :
  exists t' h',
    Tuner.update_display (cv := Demo.lib)
      (Tuner.press_preset "Balanced"
         (Tuner.create_widgets
            {| original_image := 0; image_path := "road.png" |}))
      [Demo.striped 6 8] = Ok (t', h') /\
    Tuner.value_labels t' = [50; 150; 50; 50; 10; 38; 100].
Proof.
  destruct (preset_then_update (cv := Demo.lib) Demo_contract
              (Tuner.create_widgets
                 {| original_image := 0; image_path := "road.png" |})
              "Balanced" 50 150 50 50 10
              [Demo.striped 6 8] (Demo.striped 6 8) 6 8)
    as (rgb & _ & M).
  - apply create_widgets_inv.
  - unfold Tuner.preset_buttons. apply elem_of_cons. right.
    apply elem_of_cons. left. reflexivity.
  - reflexivity.
  - reflexivity.
  - lia.
  - lia.
  - apply striped_three_channel.
  - reflexivity.
  - reflexivity.
  - destruct M as (t' & h' & shown & R & L & _).
    exists t', h'. split; [exact R|exact L].
Defined.

Lemma tuner_init_first_display_witness :
  exists t h' shown rgb,
    Tuner.init (cv := Demo.lib) "road.png" [] = Ok (t, h') /\
    Tuner.value_labels t = [50; 281; 66; 50; 10; 38; 100] /\
    Tuner.canvas_image t = Some shown /\
    h' !! shown = Some rgb /\
    np_shape rgb = (6, 8).
Proof.
  destruct (tuner_init_first_display (cv := Demo.lib) Demo_contract
              "road.png" []) as [_ Hok].
  destruct (Hok {| original_image := 0; image_path := "road.png" |}
                [Demo.striped 6 8] (Demo.striped 6 8) 6 8
                eq_refl eq_refl eq_refl ltac:(lia) ltac:(lia)
                (striped_three_channel 6 8))
    as (t & new & shown & rgb & R & _ & _ & L & _ & C & S & _ & Sh).
  exists t, ([Demo.striped 6 8] ++ new), shown, rgb.
  split; [exact R|]. split; [exact L|]. split; [exact C|].
  split; [exact S|exact Sh].
Defined.

Lemma sliders_stay_in_range_witness :
  let t := Tuner.load_preset 0 1000 30 30 20
             (Tuner.create_widgets
                {| original_image := 0; image_path := "road.png" |}) in
  1 <= Scale_get (Tuner.canny_low t) <= 200 /\
  50 <= Scale_get (Tuner.canny_high t) <= 500.
Proof.
  intros t.
  destruct (sliders_stay_in_range (cv := Demo.lib)) as (Hc & Hl & _ & Hr).
  destruct (Hr t (Hl _ 0 1000 30 30 20 (Hc _))) as (A & B & _).
  split; [exact A|exact B].
Defined.

(* ===================================================================== *)
(** * main                                                                *)
(* ===================================================================== *)

Lemma Ascii_compare_Lt_trans (a b c : Ascii.ascii) :
  Ascii.compare a b = Lt -> Ascii.compare b c = Lt -> Ascii.compare a c = Lt.
Proof.
  unfold Ascii.compare. rewrite !N.compare_lt_iff. lia.
Qed.

Lemma String_compare_Lt_trans (a b c : string) :
  String.compare a b = Lt -> String.compare b c = Lt ->
  String.compare a c = Lt.
Proof.
  revert b c. induction a as [|x a IH]; intros [|y b] [|z c]; simpl;
    try congruence.
  destruct (Ascii.compare x y) eqn:Exy; try discriminate;
    destruct (Ascii.compare y z) eqn:Eyz; try discriminate; intros H1 H2.
  - apply Ascii.compare_eq_iff in Exy, Eyz. subst.
    unfold Ascii.compare at 1. rewrite N.compare_refl.
    eapply IH; eassumption.
  - apply Ascii.compare_eq_iff in Exy. subst. rewrite Eyz. reflexivity.
  - apply Ascii.compare_eq_iff in Eyz. subst. rewrite Exy. reflexivity.
  - rewrite (Ascii_compare_Lt_trans _ _ _ Exy Eyz). reflexivity.
Qed.

#[global] Instance path_le_trans : Transitive path_le.
Proof.
  intros a b c. unfold path_le, String.leb.
  destruct (String.compare a b) eqn:Eab; [| |intros []].
  - apply String.compare_eq_iff in Eab. subst. tauto.
  - destruct (String.compare b c) eqn:Ebc; [| |intros _ []].
    + apply String.compare_eq_iff in Ebc. subst. rewrite Eab. tauto.
    + rewrite (String_compare_Lt_trans _ _ _ Eab Ebc). tauto.
Qed.

#[global] Instance path_le_total : Total path_le.
Proof.
  intros a b. unfold path_le.
  destruct (String.leb_total a b) as [-> | ->]; [left|right]; exact I.
Qed.

#[global] Instance path_le_antisym : AntiSymm (=) path_le.
Proof.
  intros a b H1 H2. apply String.leb_antisym; apply Is_true_true; assumption.
Qed.

Lemma sorted_perm (l : list string) : sorted l ≡ₚ l.
Proof. apply merge_sort_Permutation. Qed.

Lemma sorted_nil_iff (l : list string) : sorted l = [] <-> l = [].
Proof.
  split; [|intros ->; reflexivity].
  intros E. symmetry. apply Permutation_nil_l. rewrite <- E.
  apply sorted_perm.
Qed.

Lemma sorted_head_least (l : list string) (first : string) (rest : list string) :
  sorted l = first :: rest ->
  first ∈ l /\ forall p, p ∈ l -> path_le first p.
Proof.
  intros E.
  pose proof (StronglySorted_merge_sort path_le l) as HS.
  fold (sorted l) in HS. rewrite E in HS.
  apply StronglySorted_inv in HS as [_ HF].
  split.
  - rewrite <- (sorted_perm l), E. left.
  - intros p Hp. rewrite <- (sorted_perm l), E in Hp.
    apply elem_of_cons in Hp as [->|Hp].
    + destruct (path_le_total first first); assumption.
    + rewrite Forall_forall in HF. apply HF. exact Hp.
Qed.

Lemma sorted_of_perm (l l' : list string) : l ≡ₚ l' -> sorted l = sorted l'.
Proof.
  intros HP. apply (Sorted_unique path_le).
  - apply Sorted_merge_sort, _.
  - apply Sorted_merge_sort, _.
  - rewrite !sorted_perm. exact HP.
Qed.

Section MainMore.
Context {cv : cv2}.

(** X16.  [main] prints "No images found in <dir>" and opens nothing
    exactly when the directory holds neither a jpg nor a png file. *)
Theorem main_no_images_iff (images_dir : string) (jpgs pngs : list string)
    (h : heap) :
  main images_dir jpgs pngs h
    = (["No images found in " +:+ images_dir], Ok (None, h))
  <-> jpgs = [] /\ pngs = [].
Proof.
  unfold main. split.
  - destruct (sorted (jpgs ++ pngs)) as [|first rest] eqn:E.
    + intros _. apply (proj1 (sorted_nil_iff _)) in E. apply app_eq_nil in E. exact E.
    + cbv zeta. destruct (0 <? _)%nat; intros H; injection H as H _;
        discriminate H.
  - intros [-> ->]. reflexivity.
Qed.

(** X17.  With at least one image, [main] prints its three header lines
    with the number of images found, and opens the tuner on the image
    whose path is the least of all. *)
Theorem main_opens_least (images_dir : string) (jpgs pngs : list string)
    (h : heap) :
  jpgs ++ pngs <> [] ->
  exists first,
    first ∈ jpgs ++ pngs /\
    (forall p, p ∈ jpgs ++ pngs -> String.leb first p = true) /\
    main images_dir jpgs pngs h
      = ([ "Lane Detection - Canny + Hough Transform";
           "==================================================";
           "Found " +:+ pretty (length jpgs + length pngs)%nat
             +:+ " image(s)" ],
         (Some <$> Tuner.init first) h).
Proof.
  intros Hne. unfold main.
  destruct (sorted (jpgs ++ pngs)) as [|first rest] eqn:E.
  { apply (proj1 (sorted_nil_iff _)) in E. contradiction. }
  exists first. destruct (sorted_head_least _ _ _ E) as [Hin Hle].
  split; [exact Hin|]. split.
  { intros p Hp. apply Is_true_true, Hle, Hp. }
  assert (HL : length (first :: rest) = (length jpgs + length pngs)%nat).
  { rewrite <- E, (Permutation_length (sorted_perm _)). apply length_app. }
  rewrite HL. simpl length in HL.
  destruct (Nat.ltb_spec 0 (length jpgs + length pngs)); [|lia].
  reflexivity.
Qed.

(** X18.  The order in which [glob] lists the files is irrelevant. *)
Theorem main_glob_order_irrelevant (images_dir : string)
    (jpgs jpgs' pngs pngs' : list string) (h : heap) :
  jpgs ≡ₚ jpgs' -> pngs ≡ₚ pngs' ->
  main images_dir jpgs pngs h = main images_dir jpgs' pngs' h.
Proof.
  intros Hj Hp. unfold main.
  rewrite (sorted_of_perm (jpgs ++ pngs) (jpgs' ++ pngs')); [reflexivity|].
  rewrite Hj, Hp. reflexivity.
Qed.

(** X19.  The message of the last [else] branch is never printed. *)
Theorem main_never_prints_nothing_to_process (images_dir : string)
    (jpgs pngs : list string) (h : heap) :
  "No images found to process" ∉ fst (main images_dir jpgs pngs h).
Proof.
  unfold main. destruct (sorted (jpgs ++ pngs)) as [|first rest] eqn:E.
  - simpl. intros H. apply list_elem_of_singleton in H. discriminate H.
  - simpl length. destruct (Nat.ltb_spec 0 (S (length rest))) as [_|Hl]; [|lia].
    simpl. intros H.
    repeat (apply elem_of_cons in H as [H|H]; [discriminate H|]).
    inversion H.
Qed.

End MainMore.

Lemma main_opens_least_witness :
  exists first,
    first ∈ ["road.png"; "frame720.png"] ++ ["white50.png"] /\
    (forall p, p ∈ ["road.png"; "frame720.png"] ++ ["white50.png"] ->
               String.leb first p = true) /\
    main (cv := Demo.lib) "images" ["road.png"; "frame720.png"]
         ["white50.png"] []
      = ([ "Lane Detection - Canny + Hough Transform";
           "==================================================";
           "Found " +:+ pretty (2 + 1)%nat +:+ " image(s)" ],
         (Some <$> Tuner.init (cv := Demo.lib) first) []).
Proof.
  apply (main_opens_least (cv := Demo.lib) "images"
           ["road.png"; "frame720.png"] ["white50.png"] []).
  discriminate.
Defined.

Lemma main_glob_order_irrelevant_witness :
  main (cv := Demo.lib) "images" ["road.png"; "frame720.png"]
       ["white50.png"] []
  = main (cv := Demo.lib) "images" ["frame720.png"; "road.png"]
         ["white50.png"] [].
Proof.
  apply (main_glob_order_irrelevant (cv := Demo.lib) "images"
           ["road.png"; "frame720.png"] ["frame720.png"; "road.png"]
           ["white50.png"] ["white50.png"] []).
  - apply perm_swap.
  - apply perm_skip, perm_nil.
Defined.
